(** * Equipment checkout tracker: lifecycle, queries and CSV export

    A shallow embedding of the equipment-checkout application:
    - the relational schema, row-level-security policies and triggers of
      [DATABASE_SETUP.md] (tables as finite maps keyed by primary key);
    - the handlers of [src/App.jsx] ([handleCheckout], [handleReturn],
      [resolveDeficiency]) as state-passing functions over the store;
    - the helper functions [getOverdueCheckouts], [getMaintenanceDue] and
      [exportToCSV] of [src/App.jsx].

    Conventions.  A timestamp is a number of milliseconds on one clock, a
    DATE is a day number on the same clock; every day has 24 hours (no
    daylight-saving shift, one time zone).  The wall clock ([new Date()],
    [NOW()], [CURRENT_DATE]) and the identifier drawn by
    [uuid_generate_v4()] are explicit arguments.  The write-once
    [created_at] columns are left out. *)

From stdpp Require Import gmap list.
From Stdlib Require Import ZArith Ascii String Sorting.Sorted Sorting.Permutation.

Local Open Scope Z_scope.

(* ================================================================== *)
(** * Part I: the embedding                                            *)
(* ================================================================== *)

(** ** Data model *)

(** A JavaScript / SQL text value. *)
Definition str := list ascii.

(** CHECK (category IN (...)) of [eq_equipment]. *)
Inductive Category :=
  Grounds | Tools | Cleaning | Electrical | Events | Shop | Range | Other.

(** CHECK (status IN (...)) of [eq_equipment]. *)
Inductive Status := available | checked_out | needs_repair | out_of_service.

Inductive UseType := club | personal.
Inductive Condition := good | deficiency.
Inductive Severity := minor | major.
Inductive DefStatus := pending | resolved.
Inductive Role := volunteer | chair | admin.

#[global] Instance Status_eq_dec : EqDecision Status.
Proof. solve_decision. Defined.
#[global] Instance Condition_eq_dec : EqDecision Condition.
Proof. solve_decision. Defined.
#[global] Instance Severity_eq_dec : EqDecision Severity.
Proof. solve_decision. Defined.
#[global] Instance DefStatus_eq_dec : EqDecision DefStatus.
Proof. solve_decision. Defined.
#[global] Instance Role_eq_dec : EqDecision Role.
Proof. solve_decision. Defined.
#[global] Instance Category_eq_dec : EqDecision Category.
Proof. solve_decision. Defined.

Module User.
(** A row of the shared [users] table (the key is [id]). *)
Record t := mk {
  employee_number : Z;
  first_name : str;
  last_name : str;
  role : Role }.
End User.

Module Equipment.
(** A row of [eq_equipment] (the key is [id]). *)
Record t := mk {
  equipment_code : str;
  name : str;
  category : Category;
  location : option str;
  status : Status;
  last_maintenance : option Z;
  notes : option str;
  updated_at : Z }.

(** [SET status = s, updated_at = NOW()]. *)
Definition set_status (s : Status) (now : Z) (e : t) : t :=
  mk (equipment_code e) (name e) (category e) (location e) s
     (last_maintenance e) (notes e) now.
End Equipment.

Module Checkout.
(** A row of [eq_checkouts] (the key is [id]). *)
Record t := mk {
  equipment_id : nat;
  user_id : nat;
  checkout_date : Z;
  expected_return : option Z;
  return_date : option Z;
  use_type : UseType;
  purpose : option str;
  return_condition : option Condition }.

(** [SET return_date = d, return_condition = c]. *)
Definition set_return (d : Z) (c : Condition) (r : t) : t :=
  mk (equipment_id r) (user_id r) (checkout_date r) (expected_return r)
     (Some d) (use_type r) (purpose r) (Some c).
End Checkout.

Module Deficiency.
(** A row of [eq_deficiencies] (the key is [id]). *)
Record t := mk {
  equipment_id : nat;
  checkout_id : option nat;
  reported_by : nat;
  reported_date : Z;
  description : str;
  severity : Severity;
  status : DefStatus;
  resolved_by : option nat;
  resolved_date : option Z;
  resolution_notes : option str }.

(** [SET status = 'resolved', resolved_by = u, resolved_date = d,
    resolution_notes = n]. *)
Definition set_resolved (u : nat) (d : Z) (n : str) (r : t) : t :=
  mk (equipment_id r) (checkout_id r) (reported_by r) (reported_date r)
     (description r) (severity r) resolved (Some u) (Some d) (Some n).
End Deficiency.

(** The data store: one finite map per table, keyed by the primary key. *)
Record Store := mkStore {
  eq_equipment : gmap nat Equipment.t;
  eq_checkouts : gmap nat Checkout.t;
  eq_deficiencies : gmap nat Deficiency.t;
  users : gmap nat User.t }.

Definition with_equipment (e : gmap nat Equipment.t) (st : Store) : Store :=
  mkStore e (eq_checkouts st) (eq_deficiencies st) (users st).
Definition with_checkouts (c : gmap nat Checkout.t) (st : Store) : Store :=
  mkStore (eq_equipment st) c (eq_deficiencies st) (users st).
Definition with_deficiencies (d : gmap nat Deficiency.t) (st : Store) : Store :=
  mkStore (eq_equipment st) (eq_checkouts st) d (users st).

(** Milliseconds in a day, and the calendar day of a timestamp. *)
Definition MS_PER_DAY : Z := 86400000.
Definition date_of (ts : Z) : Z := ts / MS_PER_DAY.

(** ** Queries used by policies and triggers *)

(** [EXISTS (SELECT 1 FROM users WHERE users.id = auth.uid()
     AND users.role IN ('admin', 'chair'))]; [auth.uid()] is [None] for a
    request without a signed-in identity. *)
Definition is_admin_or_chair (st : Store) (uid : option nat) : bool :=
  match uid with
  | Some u =>
      match users st !! u with
      | Some usr =>
          match User.role usr with
          | admin | chair => true
          | volunteer => false
          end
      | None => false
      end
  | None => false
  end.

(** An open checkout: [return_date IS NULL]. *)
Definition is_open (c : Checkout.t) : Prop := Checkout.return_date c = None.

(** [EXISTS (SELECT 1 FROM eq_checkouts WHERE equipment_id = e
     AND return_date IS NULL)]. *)
Definition open_checkout_of (e : nat) (i : nat) (c : Checkout.t) : Prop :=
  Checkout.equipment_id c = e ∧ is_open c.

Definition has_open_checkout (st : Store) (e : nat) : bool :=
  bool_decide (map_Exists (open_checkout_of e) (eq_checkouts st)).

(** A pending major deficiency of equipment [e]. *)
Definition pending_major_of (e : nat) (i : nat) (d : Deficiency.t) : Prop :=
  Deficiency.equipment_id d = e ∧ Deficiency.severity d = major
  ∧ Deficiency.status d = pending.

(** [EXISTS (SELECT 1 FROM eq_deficiencies WHERE equipment_id = e
     AND id != self AND severity = 'major' AND status = 'pending')]. *)
Definition other_pending_major_of (e self : nat) (i : nat) (d : Deficiency.t)
  : Prop := i ≠ self ∧ pending_major_of e i d.

Definition has_other_pending_major (st : Store) (e self : nat) : bool :=
  bool_decide (map_Exists (other_pending_major_of e self) (eq_deficiencies st)).

(** ** Row-level security

    Every policy is declared [TO authenticated]: a request without a
    signed-in identity matches no policy and is denied. A [WITH CHECK]
    that fails makes the INSERT an error; a [USING] that fails hides the
    row from the UPDATE, which then changes nothing and reports no error. *)

(** "Users can create checkouts": [WITH CHECK (auth.uid() = user_id)]. *)
Definition policy_checkouts_insert (auth : option nat) (row : Checkout.t) : bool :=
  bool_decide (auth = Some (Checkout.user_id row)).

(** "Users can update own checkouts or admin/chair can update any". *)
Definition policy_checkouts_update (st : Store) (auth : option nat)
    (row : Checkout.t) : bool :=
  bool_decide (auth = Some (Checkout.user_id row)) || is_admin_or_chair st auth.

(** "Users can report deficiencies": [WITH CHECK (auth.uid() = reported_by)]. *)
Definition policy_deficiencies_insert (auth : option nat) (row : Deficiency.t)
  : bool :=
  bool_decide (auth = Some (Deficiency.reported_by row)).

(** "Deficiencies updatable by admin/chair". *)
Definition policy_deficiencies_update (st : Store) (auth : option nat) : bool :=
  is_admin_or_chair st auth.

(** ** Triggers (SECURITY DEFINER: they write [eq_equipment] whatever the
    caller's policies are) *)

(** [UPDATE eq_equipment SET status = s, updated_at = NOW() WHERE id = e]. *)
Definition update_status (e : nat) (s : Status) (now : Z) (st : Store) : Store :=
  with_equipment (alter (Equipment.set_status s now) e (eq_equipment st)) st.

(** AFTER INSERT ON eq_checkouts. *)
Definition update_equipment_status_on_checkout (NEW : Checkout.t) (now : Z)
    (st : Store) : Store :=
  update_status (Checkout.equipment_id NEW) checked_out now st.

(** AFTER UPDATE ON eq_checkouts. *)
Definition update_equipment_status_on_return (OLD NEW : Checkout.t) (now : Z)
    (st : Store) : Store :=
  if bool_decide (Checkout.return_date NEW ≠ None)
     && bool_decide (Checkout.return_date OLD = None)
  then update_status (Checkout.equipment_id NEW) available now st
  else st.

(** The operation that fired a trigger; only an UPDATE has an OLD row. *)
Inductive TgOp := TG_INSERT | TG_UPDATE (OLD : Deficiency.t).

(** AFTER INSERT OR UPDATE ON eq_deficiencies. [NEW_id] is [NEW.id]. *)
Definition update_equipment_on_deficiency (TG_OP : TgOp) (NEW_id : nat)
    (NEW : Deficiency.t) (now : Z) (st : Store) : Store :=
  let e := Deficiency.equipment_id NEW in
  match TG_OP with
  | TG_INSERT =>
      if bool_decide (Deficiency.severity NEW = major)
      then update_status e needs_repair now st
      else st
  | TG_UPDATE OLD =>
      if bool_decide (Deficiency.status NEW = resolved)
         && bool_decide (Deficiency.status OLD = pending)
      then
        if negb (has_other_pending_major st e NEW_id)
        then
          if has_open_checkout st e
          then update_status e checked_out now st
          else update_status e available now st
        else st
      else st
  end.

(** ** Statements issued by the application *)

(** What the client library gets back: [{ error }] is set or not. *)
Inductive DbResult := db_ok | db_error.

(** [REFERENCES] checks. *)
Definition fk_equipment (st : Store) (e : nat) : bool :=
  bool_decide (is_Some (eq_equipment st !! e)).
Definition fk_user (st : Store) (u : nat) : bool :=
  bool_decide (is_Some (users st !! u)).
Definition fk_checkout_opt (st : Store) (c : option nat) : bool :=
  match c with
  | Some c => bool_decide (is_Some (eq_checkouts st !! c))
  | None => true
  end.

(** [INSERT INTO eq_checkouts] of [row] under the drawn key [id]. *)
Definition insert_checkout (auth : option nat) (id : nat) (row : Checkout.t)
    (now : Z) (st : Store) : DbResult * Store :=
  if policy_checkouts_insert auth row
     && fk_equipment st (Checkout.equipment_id row)
     && fk_user st (Checkout.user_id row)
     && bool_decide (eq_checkouts st !! id = None)
  then (db_ok,
        update_equipment_status_on_checkout row now
          (with_checkouts (<[id := row]> (eq_checkouts st)) st))
  else (db_error, st).

(** [UPDATE eq_checkouts SET return_date = d, return_condition = c
     WHERE id = id]. *)
Definition update_checkout_return (auth : option nat) (id : nat) (d : Z)
    (c : Condition) (now : Z) (st : Store) : DbResult * Store :=
  match eq_checkouts st !! id with
  | Some OLD =>
      if policy_checkouts_update st auth OLD
      then
        let NEW := Checkout.set_return d c OLD in
        (db_ok,
         update_equipment_status_on_return OLD NEW now
           (with_checkouts (<[id := NEW]> (eq_checkouts st)) st))
      else (db_ok, st)
  | None => (db_ok, st)
  end.

(** [INSERT INTO eq_deficiencies] of [row] under the drawn key [id]. *)
Definition insert_deficiency (auth : option nat) (id : nat) (row : Deficiency.t)
    (now : Z) (st : Store) : DbResult * Store :=
  if policy_deficiencies_insert auth row
     && fk_equipment st (Deficiency.equipment_id row)
     && fk_checkout_opt st (Deficiency.checkout_id row)
     && fk_user st (Deficiency.reported_by row)
     && bool_decide (eq_deficiencies st !! id = None)
  then (db_ok,
        update_equipment_on_deficiency TG_INSERT id row now
          (with_deficiencies (<[id := row]> (eq_deficiencies st)) st))
  else (db_error, st).

(** [UPDATE eq_deficiencies SET status = 'resolved', resolved_by = u,
     resolved_date = d, resolution_notes = n WHERE id = id]. *)
Definition update_deficiency_resolved (auth : option nat) (id : nat) (u : nat)
    (d : Z) (n : str) (now : Z) (st : Store) : DbResult * Store :=
  match eq_deficiencies st !! id with
  | Some OLD =>
      if policy_deficiencies_update st auth
      then
        if fk_user st u
        then
          let NEW := Deficiency.set_resolved u d n OLD in
          (db_ok,
           update_equipment_on_deficiency (TG_UPDATE OLD) id NEW now
             (with_deficiencies (<[id := NEW]> (eq_deficiencies st)) st))
        else (db_error, st)
      else (db_ok, st)
  | None => (db_ok, st)
  end.

(** Rows as the application inserts them: the columns it names, the
    others at their column DEFAULT. *)
Definition new_checkout (equipment_id user_id : nat) (expected_return : option Z)
    (use_type : UseType) (purpose : str) (now : Z) : Checkout.t :=
  Checkout.mk equipment_id user_id now expected_return None use_type
    (Some purpose) None.

Definition new_deficiency (equipment_id : nat) (checkout_id : option nat)
    (reported_by : nat) (description : str) (severity : Severity) (now : Z)
  : Deficiency.t :=
  Deficiency.mk equipment_id checkout_id reported_by (date_of now) description
    severity pending None None None.

(** ** The handlers of [App.jsx] *)

Module Notification.
(** Second argument of [showNotification]. *)
Inductive type := success | warning | error.
End Notification.

(** How a handler ends: a bare [return] before any request, or a
    notification shown to the user. *)
Inductive Outcome := EarlyReturn | Notified (type : Notification.type).

(** The handler reported an error to the user. *)
Definition reports_error (o : Outcome) : bool :=
  match o with
  | Notified Notification.error => true
  | _ => false
  end.

(** The handler refused the request: it returned early or reported an
    error. *)
Definition rejected (o : Outcome) : bool :=
  match o with
  | EarlyReturn | Notified Notification.error => true
  | Notified _ => false
  end.

Module CheckoutForm.
(** [checkoutForm]; an empty [expectedReturn] is [None]. *)
Record t := mk {
  useType : UseType;
  purpose : str;
  expectedReturn : option Z }.
End CheckoutForm.

Module ReturnForm.
(** [returnForm]. *)
Record t := mk {
  condition : Condition;
  deficiencyDesc : str;
  severity : Severity }.
End ReturnForm.

(** [user.role === 'admin' || user.role === 'chair'], the gate of the
    "Mark Resolved" button and of the admin tabs. *)
Definition isAdmin (user : User.t) : bool :=
  bool_decide (User.role user = admin) || bool_decide (User.role user = chair).

(** *** [parseInt]

    Characters are code units below 256. *)

(** White space that [parseInt] skips: tab, line feed, vertical tab, form
    feed, carriage return, space and no-break space. *)
Definition is_white_space (ch : ascii) : bool :=
  let n := N_of_ascii ch in
  ((n =? 9) || (n =? 10) || (n =? 11) || (n =? 12) || (n =? 13) || (n =? 32)
   || (n =? 160))%N.

Fixpoint trim_start (s : str) : str :=
  match s with
  | ch :: s' => if is_white_space ch then trim_start s' else s
  | [] => []
  end.

(** The value of a digit of radix [R] (letters of either case stand for
    10 to 35), [None] for any other character. *)
Definition radix_digit (R : Z) (ch : ascii) : option Z :=
  let n := Z.of_N (N_of_ascii ch) in
  let v := if (48 <=? n) && (n <=? 57) then Some (n - 48)
           else if (97 <=? n) && (n <=? 122) then Some (n - 87)
           else if (65 <=? n) && (n <=? 90) then Some (n - 55)
           else None in
  match v with
  | Some d => if d <? R then Some d else None
  | None => None
  end.

(** The number written by the digits at the front of [s], up to the
    first character that is no digit; [acc] is [None] as long as no digit
    has been read. *)
Fixpoint leading_digits (R : Z) (acc : option Z) (s : str) : option Z :=
  match s with
  | ch :: s' =>
      match radix_digit R ch with
      | Some d => leading_digits R (Some (R * default 0 acc + d)) s'
      | None => acc
      end
  | [] => acc
  end.

(** The Number nearest to an integer: itself below 2^53, else rounded to
    53 significant bits, ties to even. *)
Definition to_Number (n : Z) : Z :=
  let a := Z.abs n in
  if a <? 2 ^ 53 then n
  else
    let k := Z.log2 a - 52 in
    let q := Z.shiftr a k in
    let r := a - Z.shiftl q k in
    let half := 2 ^ (k - 1) in
    let q' := if (half <? r) || ((r =? half) && Z.odd q) then q + 1 else q in
    Z.sgn n * Z.shiftl q' k.

(** The sign at the front of a text, and the text after it. *)
Definition read_sign (s : str) : Z * str :=
  match s with
  | "-"%char :: s' => (-1, s')
  | "+"%char :: s' => (1, s')
  | _ => (1, s)
  end.

(** The radix announced by the prefix [0x] or [0X], else 10, and the
    text after the prefix. *)
Definition read_radix (s : str) : Z * str :=
  match s with
  | "0"%char :: x :: s' =>
      if Ascii.eqb x "x" || Ascii.eqb x "X" then (16, s') else (10, s)
  | _ => (10, s)
  end.

(** [parseInt(text)] without a radix: leading white space is skipped, a
    sign is read, then the prefix of a hexadecimal number, then digits up
    to the first character that is none; the rest of the text is ignored.
    [None] is [NaN]: no digit was found. *)
Definition parseInt (text : str) : option Z :=
  let '(sign, s1) := read_sign (trim_start text) in
  let '(R, s2) := read_radix s1 in
  (λ mathInt, to_Number (sign * mathInt)) <$> leading_digits R None s2.

(** The value of the filter [.eq('employee_number', n)]: the text of a
    Number is that of an integer below 10^21 and is in exponent notation
    from there on, which the integer column does not accept, like the text
    of [NaN]. *)
Definition integer_filter (n : option Z) : option Z :=
  match n with
  | Some v => if Z.abs v <? 10 ^ 21 then Some v else None
  | None => None
  end.

(** [handleMemberLogin]: the text entered is read by [parseInt] and the
    number is looked up in [users] ([.single()]: exactly one row,
    otherwise 'Member number not found'); the row found becomes the
    logged-in [user].  No sign-in is made: the database session keeps the
    identity it had, none for a fresh page.  The shared [users] table and
    its policies are not part of this repository: [employee_number] is
    taken to be an integer column and the lookup to be allowed. *)
Definition handleMemberLogin (memberNumber : str) (st : Store)
  : option (nat * User.t) :=
  match integer_filter (parseInt memberNumber) with
  | None => None
  | Some n =>
      match List.filter
              (λ u, bool_decide (User.employee_number u.2 = n))
              (map_to_list (users st)) with
      | [u] => Some u
      | _ => None
      end
  end.

(** [handleCheckout].  [selectedEquipment] is the row the client holds
    (with its key), [user] the key of the logged-in user's row, [auth] the
    identity of the database session. *)
Definition handleCheckout (auth : option nat) (user : nat)
    (selectedEquipment : option (nat * Equipment.t)) (form : CheckoutForm.t)
    (id : nat) (now : Z) (st : Store) : Outcome * Store :=
  match selectedEquipment with
  | None => (EarlyReturn, st)
  | Some (eid, E) =>
      if bool_decide (Equipment.status E ≠ available) then (EarlyReturn, st)
      else
        match insert_checkout auth id
                (new_checkout eid user (CheckoutForm.expectedReturn form)
                   (CheckoutForm.useType form) (CheckoutForm.purpose form) now)
                now st with
        | (db_error, st') => (Notified Notification.error, st')
        | (db_ok, st') => (Notified Notification.success, st')
        end
  end.

(** [checkouts.find(c => c.equipment_id === selectedEquipment.id
     && !c.return_date)] over the list the client holds. *)
Definition find_active_checkout (eid : nat) (checkouts : list (nat * Checkout.t))
  : option (nat * Checkout.t) :=
  find (fun c => bool_decide (Checkout.equipment_id c.2 = eid)
                 && bool_decide (Checkout.return_date c.2 = None)) checkouts.

(** [handleReturn].  Neither request's result is inspected; the client
    library reports a refusal in that result and does not throw, so the
    [catch] branch is not reached by a refusal of the store. *)
Definition handleReturn (auth : option nat) (user : nat)
    (selectedEquipment : option (nat * Equipment.t))
    (checkouts : list (nat * Checkout.t)) (form : ReturnForm.t)
    (id : nat) (now : Z) (st : Store) : Outcome * Store :=
  match selectedEquipment with
  | None => (EarlyReturn, st)
  | Some (eid, _) =>
      match find_active_checkout eid checkouts with
      | None => (EarlyReturn, st)
      | Some (cid, _) =>
          let st1 :=
            (update_checkout_return auth cid now
               (if bool_decide (ReturnForm.condition form = good)
                then good else deficiency) now st).2 in
          if bool_decide (ReturnForm.condition form = deficiency)
             && negb (bool_decide (ReturnForm.deficiencyDesc form = []))
          then
            (Notified Notification.warning,
             (insert_deficiency auth id
                (new_deficiency eid (Some cid) user
                   (ReturnForm.deficiencyDesc form) (ReturnForm.severity form)
                   now) now st1).2)
          else (Notified Notification.success, st1)
      end
  end.

(** The text ['Resolved'] written to [resolution_notes]. *)
Definition Resolved_text : str :=
  ["R"; "e"; "s"; "o"; "l"; "v"; "e"; "d"]%char.

(** [resolveDeficiency]: no check before the request, and its result is
    not inspected (as in [handleReturn]). *)
Definition resolveDeficiency (auth : option nat) (user : nat) (defId : nat)
    (now : Z) (st : Store) : Outcome * Store :=
  (Notified Notification.success,
   (update_deficiency_resolved auth defId user (date_of now) Resolved_text
      now st).2).

(** ** The status rule and the invariants of the specification *)

Definition has_pending_major (st : Store) (e : nat) : bool :=
  bool_decide (map_Exists (pending_major_of e) (eq_deficiencies st)).

(** The recompute rule of the specification: major deficiency, then open
    checkout, then available. *)
Definition recompute (st : Store) (e : nat) : Status :=
  if has_pending_major st e then needs_repair
  else if has_open_checkout st e then checked_out
  else available.

(** Every equipment row carries the recomputed status. *)
Definition status_recomputed (st : Store) : Prop :=
  ∀ e E, eq_equipment st !! e = Some E → Equipment.status E = recompute st e.

(** The same, leaving rows under the manual out-of-service override alone. *)
Definition status_recomputed_unless_oos (st : Store) : Prop :=
  ∀ e E, eq_equipment st !! e = Some E →
         Equipment.status E ≠ out_of_service →
         Equipment.status E = recompute st e.

(** At most one open checkout per equipment. *)
Definition at_most_one_open (st : Store) : Prop :=
  ∀ i c, eq_checkouts st !! i = Some c →
  ∀ j c', eq_checkouts st !! j = Some c' →
    is_open c → is_open c' →
    Checkout.equipment_id c = Checkout.equipment_id c' → i = j.

(** Equipment shown as available has no open checkout. *)
Definition available_not_open (st : Store) : Prop :=
  ∀ e E, eq_equipment st !! e = Some E → Equipment.status E = available →
         has_open_checkout st e = false.

(** The current status of equipment [e] is [available]. *)
Definition currently_available (st : Store) (e : nat) : Prop :=
  ∃ E, eq_equipment st !! e = Some E ∧ Equipment.status E = available.

(** Statements the application can issue against the store, the checkout
    being issued for equipment whose current status is [available]. *)
Inductive store_step (st : Store) : Store → Prop :=
| store_checkout auth id e u exp ut p now :
    currently_available st e →
    store_step st (insert_checkout auth id (new_checkout e u exp ut p now) now st).2
| store_return auth id d c now :
    store_step st (update_checkout_return auth id d c now st).2
| store_report auth id e co u desc sev now :
    store_step st
      (insert_deficiency auth id (new_deficiency e co u desc sev now) now st).2
| store_resolve auth id u d n now :
    store_step st (update_deficiency_resolved auth id u d n now st).2.

(** The same statements, a checkout being closed only while its equipment
    has no pending major deficiency. *)
Inductive lifecycle_step (st : Store) : Store → Prop :=
| lifecycle_checkout auth id e u exp ut p now :
    currently_available st e →
    lifecycle_step st
      (insert_checkout auth id (new_checkout e u exp ut p now) now st).2
| lifecycle_return auth id d c now :
    (∀ OLD, eq_checkouts st !! id = Some OLD → is_open OLD →
            has_pending_major st (Checkout.equipment_id OLD) = false) →
    lifecycle_step st (update_checkout_return auth id d c now st).2
| lifecycle_report auth id e co u desc sev now :
    lifecycle_step st
      (insert_deficiency auth id (new_deficiency e co u desc sev now) now st).2
| lifecycle_resolve auth id u d n now :
    lifecycle_step st (update_deficiency_resolved auth id u d n now st).2.

(** ** Decidability of the invariants, for concrete stores *)

#[global] Instance status_recomputed_dec st : Decision (status_recomputed st).
Proof.
  unfold status_recomputed.
  refine (map_Forall_dec (λ e E, Equipment.status E = recompute st e) _).
  all: intros; apply _.
Defined.

#[global] Instance status_recomputed_unless_oos_dec st :
  Decision (status_recomputed_unless_oos st).
Proof.
  unfold status_recomputed_unless_oos.
  refine (map_Forall_dec
            (λ e E, Equipment.status E ≠ out_of_service →
                    Equipment.status E = recompute st e) _).
  all: intros; apply _.
Defined.

#[global] Instance at_most_one_open_dec st : Decision (at_most_one_open st).
Proof.
  unfold at_most_one_open.
  refine (map_Forall_dec
            (λ i c, ∀ j c', eq_checkouts st !! j = Some c' →
                      is_open c → is_open c' →
                      Checkout.equipment_id c = Checkout.equipment_id c' → i = j)
            _).
  all: intros i c; simpl.
  all: refine (map_Forall_dec
            (λ j c', is_open c → is_open c' →
                     Checkout.equipment_id c = Checkout.equipment_id c' → i = j)
            _).
  all: unfold is_open; intros j c'; simpl; apply _.
Defined.

#[global] Instance available_not_open_dec st : Decision (available_not_open st).
Proof.
  unfold available_not_open.
  refine (map_Forall_dec
            (λ e E, Equipment.status E = available →
                    has_open_checkout st e = false) _).
  all: intros; apply _.
Defined.
(** ** Dates ([date-fns])

    A DATE column value is a day number, a valid [Date] object a
    timestamp in milliseconds; days are 24 hours long.  A [Date] object
    may be the Invalid Date, and a number may be [NaN]: both are [None]. *)

Definition Date := option Z.

(** The days whose text [parseISO] reads: 0001-01-01 to 9999-12-31, as
    day numbers counted from 1970-01-01.  The DATE column also admits
    earlier days, written with the suffix BC, and later ones, written with
    more than four digits of year. *)
Definition FIRST_DAY : Z := -719162.
Definition LAST_DAY : Z := 2932896.

Definition readable (d : Z) : bool := (FIRST_DAY <=? d) && (d <=? LAST_DAY).

(** [parseISO] of the text of a DATE: midnight of that day, or the
    Invalid Date for a text it does not read. *)
Definition parseISO (d : Z) : Date :=
  if readable d then Some (d * MS_PER_DAY) else None.

(** [startOfDay] of a valid date; [startOfDay <$> date] for a date that
    may be invalid, which then stays so. *)
Definition startOfDay (ts : Z) : Z := date_of ts * MS_PER_DAY.

(** [isPast(date)]: [date < Date.now()], false for the Invalid Date. *)
Definition isPast (now : Z) (date : Date) : bool :=
  match date with
  | Some ts => ts <? now
  | None => false
  end.

(** [differenceInDays(left, right)]: the number of full days between the
    two, truncated towards zero; [NaN] if one of them is invalid. *)
Definition differenceInDays (left right : Date) : option Z :=
  match left, right with
  | Some l, Some r => Some (Z.quot (l - r) MS_PER_DAY)
  | _, _ => None
  end.

(** [addDays(date, amount)]; the Invalid Date stays invalid. *)
Definition addDays (date : Date) (amount : Z) : Date :=
  (λ ts, ts + amount * MS_PER_DAY) <$> date.

(** [x <= k] for a number [x]: false for [NaN]. *)
Definition at_most (x : option Z) (k : Z) : bool :=
  match x with
  | Some n => n <=? k
  | None => false
  end.

(** ** [Array.prototype.sort]

    The sort is stable; for a comparator that is a consistent ordering its
    result is the stable sorted arrangement of the array, which the
    insertion sort below computes: [x] goes before the first element that
    the comparator does not put before it. *)
Fixpoint sort_insert {A} (compareFn : A → A → Z) (x : A) (l : list A) : list A :=
  match l with
  | [] => [x]
  | y :: l' =>
      if compareFn x y <=? 0 then x :: y :: l'
      else y :: sort_insert compareFn x l'
  end.

Definition js_sort {A} (compareFn : A → A → Z) (l : list A) : list A :=
  foldr (sort_insert compareFn) [] l.

(** ** [getOverdueCheckouts] *)

Module Overdue.
(** [{ ...c, daysOverdue }]. *)
Record t := mk {
  checkout : nat * Checkout.t;
  daysOverdue : Z }.
End Overdue.

(** The [filter] callback. *)
Definition overdue_filter (now : Z) (c : nat * Checkout.t) : bool :=
  match Checkout.return_date c.2 with
  | Some _ => false
  | None =>
      match Checkout.expected_return c.2 with
      | None => false
      | Some d =>
          let expectedDate := startOfDay <$> parseISO d in
          isPast now expectedDate
      end
  end.

(** The [map] callback; a row without [expected_return], or with one
    that [parseISO] does not read, does not pass the filter and is given 0
    here. *)
Definition overdue_map (today : Z) (c : nat * Checkout.t) : Overdue.t :=
  Overdue.mk c
    match Checkout.expected_return c.2 with
    | Some d => default 0 (differenceInDays (Some today) (parseISO d))
    | None => 0
    end.

(** [(a, b) => b.daysOverdue - a.daysOverdue]. *)
Definition overdue_compare (a b : Overdue.t) : Z :=
  Overdue.daysOverdue b - Overdue.daysOverdue a.

Definition getOverdueCheckouts (checkouts : list (nat * Checkout.t)) (now : Z)
  : list Overdue.t :=
  let today := startOfDay now in
  js_sort overdue_compare
    (map (overdue_map today) (List.filter (overdue_filter now) checkouts)).

(** The filter of the specification: not returned, an expected-return
    date, and that date strictly before the date of [now]. *)
Definition overdue_spec (now : Z) (c : nat * Checkout.t) : bool :=
  match Checkout.return_date c.2, Checkout.expected_return c.2 with
  | None, Some d => d <? date_of now
  | _, _ => false
  end.

(** ** [getMaintenanceDue] *)

(** Maintenance intervals in days by category; [None] is [null]. *)
Definition MAINTENANCE_INTERVALS (c : Category) : option Z :=
  match c with
  | Grounds => Some 90
  | Tools => Some 180
  | Cleaning => Some 90
  | Electrical => Some 365
  | Events => None
  | Shop => Some 180
  | Range => Some 90
  | Other => None
  end.

Module Due.
(** [{ ...eq, daysPastDue, nextDueDate, neverMaintained }]; [None] is
    [null], and also the [NaN] and the Invalid Date of a row whose date is
    not read: the comparator takes [null] and [NaN] alike for 0, and such
    a row does not pass the filter. *)
Record t := mk {
  item : nat * Equipment.t;
  daysPastDue : option Z;
  nextDueDate : option Z;
  neverMaintained : bool }.
End Due.

(** [!interval]: [null] and 0 are falsy. *)
Definition no_interval (interval : option Z) : bool :=
  match interval with
  | None => true
  | Some i => i =? 0
  end.

(** The [filter] callback. *)
Definition due_filter (now today : Z) (eq : nat * Equipment.t) : bool :=
  let interval := MAINTENANCE_INTERVALS (Equipment.category eq.2) in
  if no_interval interval then false
  else
    match Equipment.last_maintenance eq.2, interval with
    | None, _ => true
    | Some d, Some i =>
        let lastMaint := parseISO d in
        let nextDue := addDays lastMaint i in
        isPast now nextDue || at_most (differenceInDays nextDue (Some today)) 14
    | Some _, None => false
    end.

(** The [map] callback; a row of a category without interval does not
    pass the filter and is given no due date here. *)
Definition due_map (today : Z) (eq : nat * Equipment.t) : Due.t :=
  let interval := MAINTENANCE_INTERVALS (Equipment.category eq.2) in
  match Equipment.last_maintenance eq.2, interval with
  | Some d, Some i =>
      let lastMaint := parseISO d in
      let nextDue := addDays lastMaint i in
      Due.mk eq (differenceInDays (Some today) nextDue) nextDue false
  | Some _, None => Due.mk eq None None false
  | None, _ => Due.mk eq None None true
  end.

(** The [sort] callback; [x || 0] is 0 for [null]. *)
Definition due_compare (a b : Due.t) : Z :=
  if Due.neverMaintained a && negb (Due.neverMaintained b) then -1
  else if negb (Due.neverMaintained a) && Due.neverMaintained b then 1
  else default 0 (Due.daysPastDue b) - default 0 (Due.daysPastDue a).

Definition getMaintenanceDue (equipment : list (nat * Equipment.t)) (now : Z)
  : list Due.t :=
  let today := startOfDay now in
  js_sort due_compare
    (map (due_map today) (List.filter (due_filter now today) equipment)).

(** The last maintenance of an item is absent or a day that [parseISO]
    reads. *)
Definition readable_maintenance (eq : nat * Equipment.t) : bool :=
  match Equipment.last_maintenance eq.2 with
  | Some d => readable d
  | None => true
  end.

(** The next due day of an item: its last maintenance, a day that is
    read, plus the interval of its category. *)
Definition next_due_day (eq : nat * Equipment.t) : option Z :=
  match Equipment.last_maintenance eq.2,
        MAINTENANCE_INTERVALS (Equipment.category eq.2) with
  | Some d, Some i => if readable d then Some (d + i) else None
  | _, _ => None
  end.

(** The rule of the specification, on day numbers: the category has an
    interval, and the item was never maintained or its next due day is at
    most 14 days after today (in the past, or within 14 days). *)
Definition due_spec (now : Z) (eq : nat * Equipment.t) : bool :=
  match MAINTENANCE_INTERVALS (Equipment.category eq.2) with
  | None => false
  | Some i =>
      match Equipment.last_maintenance eq.2 with
      | None => true
      | Some d => d + i <=? date_of now + 14
      end
  end.

(** Never-maintained items first, then days past due descending. *)
Definition due_before (a b : Due.t) : Prop :=
  Due.neverMaintained a = true
  ∨ (Due.neverMaintained a = false ∧ Due.neverMaintained b = false
     ∧ default 0 (Due.daysPastDue b) ≤ default 0 (Due.daysPastDue a)).

(** ** [exportToCSV] *)

Definition comma : ascii := ","%char.
Definition newline : ascii := "010"%char.
(** The quote character (code 34). *)
Definition dquote : ascii :=
  Ascii false true false false false true false false.

(** [value.includes(ch)]. *)
Definition includes (ch : ascii) (value : str) : bool :=
  existsb (Ascii.eqb ch) value.

(** The global [value.replace] of the export: every quote is doubled. *)
Definition replace_quotes (value : str) : str :=
  flat_map (λ ch, if Ascii.eqb ch dquote then [dquote; dquote] else [ch]) value.

(** [Array.prototype.join]. *)
Fixpoint join (sep : str) (l : list str) : str :=
  match l with
  | [] => []
  | x :: l' =>
      match l' with
      | [] => x
      | _ :: _ => x ++ sep ++ join sep l'
      end
  end.

Module Column.
(** A column: its header and its accessor; [None] stands for the
    [null] and [undefined] an accessor may return. *)
Record t (A : Type) := mk {
  header : str;
  accessor : A → option str }.
Arguments mk {A} _ _.
Arguments header {A} _.
Arguments accessor {A} _ _.
End Column.

(** The test that decides whether a value is quoted. *)
Definition needs_quoting (value : str) : bool :=
  includes comma value || includes dquote value || includes newline value.

(** One cell: the body of the inner [columns.map]. *)
Definition csv_value (v : option str) : str :=
  let value := default [] v in
  if needs_quoting value
  then [dquote] ++ replace_quotes value ++ [dquote]
  else value.

(** The text [csv] that [exportToCSV] hands to the download; the
    [filename] argument only names the downloaded file. *)
Definition exportToCSV {A} (data : list A) (columns : list (Column.t A)) : str :=
  let headers := join [comma] (map Column.header columns) in
  let rows :=
    map (λ row, join [comma]
                  (map (λ c, csv_value (Column.accessor c row)) columns))
        data in
  join [newline] (headers :: rows).

(** ** A reader for the quoting rules

    The repository has no CSV reader.  [parse_csv] reads a text under
    the quoting rules of the export: records are separated by newlines and
    fields by commas; a field that starts with a quote runs to its closing
    quote, two quotes inside it standing for one.  It is the yardstick of
    the round trip, and fails ([None]) on a text that breaks the rules. *)
Inductive Mode := FieldStart | Unquoted | Quoted | QuoteSeen.

Fixpoint parse (m : Mode) (field : str) (row : list str) (s : str)
  : option (list (list str)) :=
  match s with
  | [] =>
      match m with
      | Quoted => None
      | _ => Some [row ++ [field]]
      end
  | ch :: s' =>
      match m with
      | FieldStart =>
          if Ascii.eqb ch dquote then parse Quoted [] row s'
          else if Ascii.eqb ch comma then parse FieldStart [] (row ++ [[]]) s'
          else if Ascii.eqb ch newline
               then cons (row ++ [[]]) <$> parse FieldStart [] [] s'
          else parse Unquoted [ch] row s'
      | Unquoted =>
          if Ascii.eqb ch dquote then None
          else if Ascii.eqb ch comma then parse FieldStart [] (row ++ [field]) s'
          else if Ascii.eqb ch newline
               then cons (row ++ [field]) <$> parse FieldStart [] [] s'
          else parse Unquoted (field ++ [ch]) row s'
      | Quoted =>
          if Ascii.eqb ch dquote then parse QuoteSeen field row s'
          else parse Quoted (field ++ [ch]) row s'
      | QuoteSeen =>
          if Ascii.eqb ch dquote then parse Quoted (field ++ [dquote]) row s'
          else if Ascii.eqb ch comma then parse FieldStart [] (row ++ [field]) s'
          else if Ascii.eqb ch newline
               then cons (row ++ [field]) <$> parse FieldStart [] [] s'
          else None
      end
  end.

Definition parse_csv (s : str) : option (list (list str)) :=
  parse FieldStart [] [] s.

(** What follows a complete field: the end of the text, a comma or a
    newline. *)
Definition after_field (field : str) (row : list str) (rest : str)
  : option (list (list str)) :=
  match rest with
  | [] => Some [row ++ [field]]
  | ch :: s' =>
      if Ascii.eqb ch comma then parse FieldStart [] (row ++ [field]) s'
      else if Ascii.eqb ch newline
           then cons (row ++ [field]) <$> parse FieldStart [] [] s'
      else None
  end.

(** The text after a field is empty or starts with a separator. *)
Definition at_separator (rest : str) : Prop :=
  match rest with
  | [] => True
  | ch :: _ => ch = comma ∨ ch = newline
  end.

(** The current status of equipment [e], if it exists. *)
Definition status_of (st : Store) (e : nat) : option Status :=
  Equipment.status <$> eq_equipment st !! e.

(** ** Sample data

    A club store in the shape of the sample data of [DATABASE_SETUP.md]:
    a riding mower and a generator, a chair and two volunteer members. *)

Definition text (s : string) : str := list_ascii_of_string s.

Definition EQ001 : Equipment.t :=
  Equipment.mk (text "EQ001") (text "John Deere Riding Mower") Grounds
    (Some (text "Shed A")) available None
    (Some (text "New blade installed Nov 2024")) 0.

Definition EQ007 : Equipment.t :=
  Equipment.mk (text "EQ007") (text "Generator - 5000W") Electrical
    (Some (text "Storage")) available None None 0.

Definition the_chair : User.t :=
  User.mk 1 (text "Committee") (text "Chair") chair.

Definition a_volunteer : User.t :=
  User.mk 42 (text "Vol") (text "Unteer") volunteer.

Definition another_volunteer : User.t :=
  User.mk 43 (text "Ann") (text "Other") volunteer.

(** Equipment 1 and 7, both available; user 1 is the chair, users 42 and
    43 are volunteers; no checkout, no deficiency. *)
Definition club_store : Store :=
  mkStore (<[1%nat := EQ001]> (<[7%nat := EQ007]> ∅)) ∅ ∅
          (<[1%nat := the_chair]>
             (<[42%nat := a_volunteer]> (<[43%nat := another_volunteer]> ∅))).

(** Noon of day 20000, and of the three following days. *)
Definition day0_noon : Z := 20000 * MS_PER_DAY + 43200000.
Definition day1_noon : Z := 20001 * MS_PER_DAY + 43200000.
Definition day2_noon : Z := 20002 * MS_PER_DAY + 43200000.
Definition day3_noon : Z := 20003 * MS_PER_DAY + 43200000.

(** The club store after the chair has put the generator out of service
    (a direct update of its row, which the equipment policies allow to
    chair and admin). *)
Definition generator_retired : Store :=
  update_status 7 out_of_service day0_noon club_store.

(** The volunteer checks out the mower (checkout 100). *)
Definition mower_out : Store :=
  (insert_checkout (Some 42%nat) 100
     (new_checkout 1 42 None club (text "mowing") day0_noon)
     day0_noon club_store).2.

(** A major deficiency (200) is reported on the mower while it is out. *)
Definition mower_out_broken : Store :=
  (insert_deficiency (Some 42%nat) 200
     (new_deficiency 1 None 42 (text "blade loose") major day1_noon)
     day1_noon mower_out).2.

(** The mower comes back while the deficiency is still pending. *)
Definition mower_back_broken : Store :=
  (update_checkout_return (Some 42%nat) 100 day2_noon good day2_noon
     mower_out_broken).2.

(** The chair resolves the deficiency while the mower is still out. *)
Definition mower_out_repaired : Store :=
  (update_deficiency_resolved (Some 1%nat) 200 1 (date_of day2_noon)
     Resolved_text day2_noon mower_out_broken).2.

(** Volunteer 43 submits the return form for the mower that volunteer 42
    has out, reporting a major deficiency: the update policy hides 42's
    checkout from 43, the deficiency (201) is inserted. *)
Definition mower_reported_by_other : Store :=
  (handleReturn (Some 43%nat) 43
     (Some (1%nat, Equipment.set_status checked_out day0_noon EQ001))
     (map_to_list (eq_checkouts mower_out))
     (ReturnForm.mk deficiency (text "blade loose") major) 201 day1_noon
     mower_out).2.

(** Volunteer 42 then returns the mower from the form opened before. *)
Definition mower_returned_after_report : Store :=
  (handleReturn (Some 42%nat) 42
     (Some (1%nat, Equipment.set_status checked_out day0_noon EQ001))
     (map_to_list (eq_checkouts mower_out))
     (ReturnForm.mk good [] minor) 202 day2_noon
     mower_reported_by_other).2.

(** The same checkout form submitted twice against the row the client
    fetched before the first submission (checkouts 100 and 101). *)
Definition mower_out_twice : Store :=
  (handleCheckout (Some 42%nat) 42 (Some (1%nat, EQ001))
     (CheckoutForm.mk club (text "mowing") None) 101 day0_noon
     (handleCheckout (Some 42%nat) 42 (Some (1%nat, EQ001))
        (CheckoutForm.mk club (text "mowing") None) 100 day0_noon
        club_store).2).2.

(** A checkout of the mower due back on day 20000, fetched by the client. *)
Definition due_today : nat * Checkout.t :=
  (100%nat, new_checkout 1 42 (Some 20000) club (text "mowing") day0_noon).

(** The columns of [exportEquipmentList] that are plain text. *)
Definition equipment_columns : list (Column.t (nat * Equipment.t)) :=
  [ Column.mk (text "Code") (λ r, Some (Equipment.equipment_code r.2));
    Column.mk (text "Name") (λ r, Some (Equipment.name r.2));
    Column.mk (text "Location") (λ r, Equipment.location r.2);
    Column.mk (text "Notes") (λ r, Equipment.notes r.2) ].

(** A chainsaw whose name holds a quote and whose notes hold a comma and
    a newline. *)
Definition EQ003 : Equipment.t :=
  Equipment.mk (text "EQ003") (text "Chainsaw - Stihl 18" ++ [dquote]) Tools
    (Some (text "Tool Room"))
    available None (Some (text "Chain sharpened, oiled" ++ [newline] ++ text "ok"))
    0.

(** The header rows of the four exports of [App.jsx]
    ([exportEquipmentList], [exportCheckoutHistory], [exportDeficiencies],
    [exportMaintenanceSchedule]). *)
Definition export_headers : list (list str) :=
  [ map text ["Code"; "Name"; "Category"; "Location"; "Status";
              "Last Maintenance"; "Notes"]%string;
    map text ["Equipment"; "Code"; "Member"; "Use Type"; "Purpose";
              "Checkout Date"; "Expected Return"; "Return Date";
              "Return Condition"]%string;
    map text ["Equipment"; "Description"; "Severity"; "Status"; "Reported By";
              "Reported Date"; "Resolved Date"]%string;
    map text ["Code"; "Name"; "Category"; "Last Maintenance";
              "Interval (Days)"; "Next Due"; "Status"]%string ].

(** ** The rest of the application

    The function [generate_equipment_code] and the policies of
    [eq_equipment] of [DATABASE_SETUP.md]; the handlers
    [handleAddEquipment], [handleUpdateMaintenance], [handleChairLogin] and
    [handleLogout], the [isOverdue] test of the history table, the status
    column of [exportMaintenanceSchedule] and [alertCount] of
    [src/App.jsx]. *)

(** ** Decimal texts ([CAST AS INTEGER], [::TEXT], [String(n)]) *)

(** The value of a decimal digit, [None] for any other character. *)
Definition digit_of (ch : ascii) : option N :=
  let n := N_of_ascii ch in
  if ((48 <=? n) && (n <=? 57))%N then Some (n - 48)%N else None.

Definition digit_char (d : N) : ascii := ascii_of_N (48 + d).

Definition is_digit (ch : ascii) : Prop := is_Some (digit_of ch).

(** The number written by a text of digits, read from the left
    (leading zeros allowed); [None] if a character is no digit. *)
Fixpoint digits_value (acc : N) (s : str) : option N :=
  match s with
  | [] => Some acc
  | ch :: s' =>
      match digit_of ch with
      | Some d => digits_value (10 * acc + d)%N s'
      | None => None
      end
  end.

(** The decimal text of a number, without leading zeros. *)
Fixpoint decimal_aux (fuel : nat) (n : N) (acc : str) : str :=
  match fuel with
  | O => acc
  | S fuel' =>
      let acc' := digit_char (n mod 10)%N :: acc in
      if (n / 10 =? 0)%N then acc' else decimal_aux fuel' (n / 10)%N acc'
  end.

Definition decimal (n : N) : str :=
  decimal_aux (S (N.to_nat (N.log2 n))) n [].

Definition zero_char : ascii := "0"%char.

(** SQL [LPAD(s, len, '0')]: filled on the left up to [len] characters,
    and cut down to its first [len] characters when it is longer. *)
Definition LPAD (s : str) (len : nat) : str :=
  if bool_decide (len ≤ List.length s)%nat then take len s
  else replicate (len - List.length s) zero_char ++ s.

(** JavaScript [s.padStart(len, '0')]: filled on the left, never cut. *)
Definition padStart (s : str) (len : nat) : str :=
  replicate (len - List.length s) zero_char ++ s.

(** ** [generate_equipment_code] *)

(** The largest INTEGER. *)
Definition INT_MAX : N := 2147483647.

(** [equipment_code ~ '^EQ[0-9]+$'], giving [SUBSTRING(equipment_code
    FROM 3)], the digits after the prefix. *)
Definition code_digits (code : str) : option str :=
  match code with
  | e :: q :: d :: ds =>
      if Ascii.eqb e "E" && Ascii.eqb q "Q"
         && forallb (λ ch, bool_decide (is_Some (digit_of ch))) (d :: ds)
      then Some (d :: ds)
      else None
  | _ => None
  end.

(** [CAST(... AS INTEGER)] of the digits of a matching code: [None] when
    the code does not match, [Some None] when the number is out of the
    INTEGER range (the statement fails). *)
Definition code_number (code : str) : option (option N) :=
  match code_digits code with
  | None => None
  | Some ds =>
      Some (match digits_value 0 ds with
            | Some v => if (v <=? INT_MAX)%N then Some v else None
            | None => None
            end)
  end.

(** The numbers of the matching rows of [eq_equipment]. *)
Definition matching_numbers (st : Store) : list (option N) :=
  omap (λ r, code_number (Equipment.equipment_code r.2))
       (map_to_list (eq_equipment st)).

(** [COALESCE(MAX(...), 0)]. *)
Definition max_number (l : list N) : N := foldr N.max 0%N l.

Definition EQ_prefix : str := ["E"; "Q"]%char.

(** [generate_equipment_code()]; [None] when the statement fails with
    "integer out of range". *)
Definition generate_equipment_code (st : Store) : option str :=
  match mapM (λ x, x) (matching_numbers st) with
  | None => None
  | Some numbers =>
      let next_num := (max_number numbers + 1)%N in
      if (next_num <=? INT_MAX)%N
      then Some (EQ_prefix ++ LPAD (decimal next_num) 3)
      else None
  end.

(** Every row whose code matches carries a number below [b]. *)
Definition numbers_below (b : N) (st : Store) : Prop :=
  map_Forall (λ _ E, match code_number (Equipment.equipment_code E) with
                     | None => True
                     | Some (Some v) => (v < b)%N
                     | Some None => False
                     end) (eq_equipment st).

#[global] Instance numbers_below_dec b st : Decision (numbers_below b st).
Proof.
  apply map_Forall_dec. intros i E.
  destruct (code_number (Equipment.equipment_code E)) as [[v|]|]; apply _.
Defined.

(** ** Statements on [eq_equipment] *)

(** "Equipment insertable by admin/chair" and "Equipment updatable by
    admin/chair". *)
Definition policy_equipment_insert (st : Store) (auth : option nat) : bool :=
  is_admin_or_chair st auth.
Definition policy_equipment_update (st : Store) (auth : option nat) : bool :=
  is_admin_or_chair st auth.

(** [equipment_code TEXT UNIQUE]: some row already carries the code. *)
Definition code_taken (st : Store) (code : str) : bool :=
  bool_decide (map_Exists (λ _ E, Equipment.equipment_code E = code)
                 (eq_equipment st)).

(** [INSERT INTO eq_equipment] of [row] under the drawn key [id]. *)
Definition insert_equipment (auth : option nat) (id : nat) (row : Equipment.t)
    (st : Store) : DbResult * Store :=
  if policy_equipment_insert st auth
     && negb (code_taken st (Equipment.equipment_code row))
     && bool_decide (eq_equipment st !! id = None)
  then (db_ok, with_equipment (<[id := row]> (eq_equipment st)) st)
  else (db_error, st).

Definition set_last_maintenance (d : Z) (now : Z) (e : Equipment.t)
  : Equipment.t :=
  Equipment.mk (Equipment.equipment_code e) (Equipment.name e)
    (Equipment.category e) (Equipment.location e) (Equipment.status e)
    (Some d) (Equipment.notes e) now.

(** [UPDATE eq_equipment SET last_maintenance = d, updated_at = now
     WHERE id = id]; no trigger is attached to [eq_equipment]. *)
Definition update_equipment_maintenance (auth : option nat) (id : nat) (d : Z)
    (now : Z) (st : Store) : DbResult * Store :=
  match eq_equipment st !! id with
  | Some OLD =>
      if policy_equipment_update st auth
      then (db_ok,
            with_equipment (<[id := set_last_maintenance d now OLD]>
                              (eq_equipment st)) st)
      else (db_ok, st)
  | None => (db_ok, st)
  end.

(** An equipment row as the application inserts it: the columns it
    names, [last_maintenance] and [updated_at] at their column DEFAULT. *)
Definition new_equipment (equipment_code name : str) (category : Category)
    (location notes : str) (now : Z) : Equipment.t :=
  Equipment.mk equipment_code name category (Some location) available None
    (Some notes) now.

Module NewEquipment.
(** [newEquipment], the form of the admin tab. *)
Record t := mk {
  name : str;
  category : Category;
  location : str;
  notes : str }.
End NewEquipment.

(** [handleAddEquipment].  [equipment] is the list the client holds; the
    code is the one the store generates, or, when that call gives nothing,
    the padded length of the list plus one.  The insert's result is not
    inspected. *)
Definition handleAddEquipment (auth : option nat) (form : NewEquipment.t)
    (equipment : list (nat * Equipment.t)) (id : nat) (now : Z) (st : Store)
  : Outcome * Store :=
  if bool_decide (NewEquipment.name form = []) then (EarlyReturn, st)
  else
    let equipmentCode :=
      match generate_equipment_code st with
      | Some codeData => codeData
      | None =>
          EQ_prefix
          ++ padStart (decimal (N.of_nat (List.length equipment + 1))) 3
      end in
    (Notified Notification.success,
     (insert_equipment auth id
        (new_equipment equipmentCode (NewEquipment.name form)
           (NewEquipment.category form) (NewEquipment.location form)
           (NewEquipment.notes form) now) st).2).

(** [handleUpdateMaintenance]: today's date is written as the last
    maintenance; the result is not inspected. *)
Definition handleUpdateMaintenance (auth : option nat) (equipmentId : nat)
    (now : Z) (st : Store) : Outcome * Store :=
  (Notified Notification.success,
   (update_equipment_maintenance auth equipmentId (date_of now) now st).2).

(** ** Sessions: [handleChairLogin], [handleLogout] *)

Module Session.
(** What a page holds: the identity of its database session ([auth.uid()])
    and the [user] state of the application. *)
Record t := mk {
  auth : option nat;
  user : option (nat * User.t) }.
End Session.

(** The message put in [authError]. *)
Inductive AuthError :=
| Member_number_not_found
| Sign_in_failed
| User_profile_not_found
| Chairs_and_admins_only.

(** [handleMemberLogin] on a session: the row found becomes [user]; the
    database session is not touched. *)
Definition member_login (memberNumber : str) (st : Store) (s : Session.t)
  : option AuthError * Session.t :=
  match handleMemberLogin memberNumber st with
  | Some u => (None, Session.mk (Session.auth s) (Some u))
  | None => (Some Member_number_not_found, s)
  end.

(** [handleChairLogin].  [signInWithPassword] is the authentication
    service: the identity for an email and password, if they are right; a
    successful sign-in makes it the identity of the database session.  The
    profile is then read and its role tested; nothing signs the session
    out again when one of these fails. *)
Definition handleChairLogin (signInWithPassword : str → str → option nat)
    (email password : str) (st : Store) (s : Session.t)
  : option AuthError * Session.t :=
  match signInWithPassword email password with
  | None => (Some Sign_in_failed, s)
  | Some uid =>
      let s1 := Session.mk (Some uid) (Session.user s) in
      match users st !! uid with
      | None => (Some User_profile_not_found, s1)
      | Some profile =>
          if bool_decide (User.role profile ≠ admin)
             && bool_decide (User.role profile ≠ chair)
          then (Some Chairs_and_admins_only, s1)
          else (None, Session.mk (Some uid) (Some (uid, profile)))
      end
  end.

(** [handleLogout]. *)
Definition handleLogout (s : Session.t) : Session.t := Session.mk None None.

(** ** The other readings of due dates *)

(** [isOverdue] of the history table: [!c.return_date && c.expected_return
    && isPast(parseISO(c.expected_return))]. *)
Definition isOverdue (now : Z) (c : nat * Checkout.t) : bool :=
  match Checkout.return_date c.2, Checkout.expected_return c.2 with
  | None, Some d => isPast now (parseISO d)
  | _, _ => false
  end.

Inductive MaintenanceStatus := OVERDUE | DUE_SOON | OK.

(** The [Status] accessor of [exportMaintenanceSchedule].  The export
    lists only the rows of categories with an interval
    ([allWithMaintenance]); a row of another category does not reach the
    accessor and is given [OK] here. *)
Definition maintenance_status (now : Z) (r : nat * Equipment.t)
  : MaintenanceStatus :=
  match Equipment.last_maintenance r.2 with
  | None => OVERDUE
  | Some d =>
      match MAINTENANCE_INTERVALS (Equipment.category r.2) with
      | None => OK
      | Some i =>
          let next := addDays (parseISO d) i in
          if isPast now next then OVERDUE
          else if at_most (differenceInDays next (Some now)) 14 then DUE_SOON
          else OK
      end
  end.

(** [allWithMaintenance]: [equipment.filter(eq =>
    MAINTENANCE_INTERVALS[eq.category])]. *)
Definition allWithMaintenance (equipment : list (nat * Equipment.t))
  : list (nat * Equipment.t) :=
  List.filter
    (λ eq, negb (no_interval (MAINTENANCE_INTERVALS (Equipment.category eq.2))))
    equipment.

(** [alertCount]. *)
Definition alertCount (checkouts : list (nat * Checkout.t))
    (equipment : list (nat * Equipment.t))
    (deficiencies : list (nat * Deficiency.t)) (now : Z) : nat :=
  (List.length (getOverdueCheckouts checkouts now)
   + List.length (getMaintenanceDue equipment now)
   + List.length
       (List.filter (λ d, bool_decide (Deficiency.status d.2 = pending))
          deficiencies))%nat.

(** ** Every statement of the application *)

(** The statements the handlers issue on the three tables, with any
    session, key, values and time; an inserted row is of the shape the
    application gives it. *)
Inductive statement (st : Store) : Store → Prop :=
| stmt_insert_checkout auth id e u exp ut p now :
    statement st
      (insert_checkout auth id (new_checkout e u exp ut p now) now st).2
| stmt_update_checkout_return auth id d c now :
    statement st (update_checkout_return auth id d c now st).2
| stmt_insert_deficiency auth id e co u desc sev now :
    statement st
      (insert_deficiency auth id (new_deficiency e co u desc sev now) now st).2
| stmt_update_deficiency_resolved auth id u d n now :
    statement st (update_deficiency_resolved auth id u d n now st).2
| stmt_insert_equipment auth id code name cat loc notes now :
    statement st
      (insert_equipment auth id (new_equipment code name cat loc notes now)
         st).2
| stmt_update_equipment_maintenance auth id d now :
    statement st (update_equipment_maintenance auth id d now st).2.

(** Referential integrity: the [REFERENCES] of the schema. *)
Definition references_hold (st : Store) : Prop :=
  (∀ i c, eq_checkouts st !! i = Some c →
          is_Some (eq_equipment st !! Checkout.equipment_id c)
          ∧ is_Some (users st !! Checkout.user_id c))
  ∧ (∀ i d, eq_deficiencies st !! i = Some d →
            is_Some (eq_equipment st !! Deficiency.equipment_id d)
            ∧ is_Some (users st !! Deficiency.reported_by d)
            ∧ (∀ c, Deficiency.checkout_id d = Some c →
                    is_Some (eq_checkouts st !! c))
            ∧ (∀ u, Deficiency.resolved_by d = Some u →
                    is_Some (users st !! u))).

(** [equipment_code] is unique. *)
Definition codes_unique (st : Store) : Prop :=
  ∀ i E, eq_equipment st !! i = Some E →
  ∀ j E', eq_equipment st !! j = Some E' →
    Equipment.equipment_code E = Equipment.equipment_code E' → i = j.

(** A checkout row is the same receipt: only its return columns differ,
    and a return date once written stays written. *)
Definition same_checkout (c c' : Checkout.t) : Prop :=
  Checkout.equipment_id c' = Checkout.equipment_id c
  ∧ Checkout.user_id c' = Checkout.user_id c
  ∧ Checkout.checkout_date c' = Checkout.checkout_date c
  ∧ Checkout.expected_return c' = Checkout.expected_return c
  ∧ Checkout.use_type c' = Checkout.use_type c
  ∧ Checkout.purpose c' = Checkout.purpose c
  ∧ (Checkout.return_date c ≠ None → Checkout.return_date c' ≠ None).

(** A deficiency row is the same report: only its resolution columns
    differ, and a resolved report stays resolved. *)
Definition same_deficiency (d d' : Deficiency.t) : Prop :=
  Deficiency.equipment_id d' = Deficiency.equipment_id d
  ∧ Deficiency.checkout_id d' = Deficiency.checkout_id d
  ∧ Deficiency.reported_by d' = Deficiency.reported_by d
  ∧ Deficiency.reported_date d' = Deficiency.reported_date d
  ∧ Deficiency.description d' = Deficiency.description d
  ∧ Deficiency.severity d' = Deficiency.severity d
  ∧ (Deficiency.status d = resolved → Deficiency.status d' = resolved).

(** An equipment row is the same item: its code, name, category,
    location and notes are kept. *)
Definition same_equipment (E E' : Equipment.t) : Prop :=
  Equipment.equipment_code E' = Equipment.equipment_code E
  ∧ Equipment.name E' = Equipment.name E
  ∧ Equipment.category E' = Equipment.category E
  ∧ Equipment.location E' = Equipment.location E
  ∧ Equipment.notes E' = Equipment.notes E.

(** Nothing recorded in [st] is lost or rewritten in [st']. *)
Definition history_kept (st st' : Store) : Prop :=
  (∀ i c, eq_checkouts st !! i = Some c →
          ∃ c', eq_checkouts st' !! i = Some c' ∧ same_checkout c c')
  ∧ (∀ i d, eq_deficiencies st !! i = Some d →
            ∃ d', eq_deficiencies st' !! i = Some d' ∧ same_deficiency d d')
  ∧ (∀ i E, eq_equipment st !! i = Some E →
            ∃ E', eq_equipment st' !! i = Some E' ∧ same_equipment E E')
  ∧ users st' = users st.

(** How a table changes from [m] to [m']: no row is removed, a row that
    stays is related by [kept], a row that appears satisfies [added]. *)
Definition rows_step {A} (kept : A → A → Prop) (added : A → Prop)
    (m m' : gmap nat A) : Prop :=
  ∀ i, match m !! i, m' !! i with
       | Some a, Some a' => kept a a'
       | None, Some a' => added a'
       | None, None => True
       | Some _, None => False
       end.

(** An item is put out of service in [st'] only if it was in [st]. *)
Definition out_of_service_only_before (st st' : Store) : Prop :=
  ∀ i E', eq_equipment st' !! i = Some E' →
          Equipment.status E' = out_of_service →
          ∃ E, eq_equipment st !! i = Some E
               ∧ Equipment.status E = out_of_service.

#[global] Instance references_hold_dec st : Decision (references_hold st).
Proof.
  unfold references_hold. apply and_dec.
  - refine (map_Forall_dec
              (λ i c, is_Some (eq_equipment st !! Checkout.equipment_id c)
                      ∧ is_Some (users st !! Checkout.user_id c)) _).
    all: intros; apply _.
  - refine (map_Forall_dec
              (λ i d, is_Some (eq_equipment st !! Deficiency.equipment_id d)
                      ∧ is_Some (users st !! Deficiency.reported_by d)
                      ∧ (∀ c, Deficiency.checkout_id d = Some c →
                              is_Some (eq_checkouts st !! c))
                      ∧ (∀ u, Deficiency.resolved_by d = Some u →
                              is_Some (users st !! u))) _).
    intros i d. apply and_dec; [apply _|]. apply and_dec; [apply _|].
    apply and_dec.
    + destruct (Deficiency.checkout_id d) as [c|].
      * destruct (decide (is_Some (eq_checkouts st !! c))) as [Hc|Hc].
        -- left. by intros ? [= <-].
        -- right. intros H. by apply Hc, H.
      * left. by intros ? [=].
    + destruct (Deficiency.resolved_by d) as [u|].
      * destruct (decide (is_Some (users st !! u))) as [Hu|Hu].
        -- left. by intros ? [= <-].
        -- right. intros H. by apply Hu, H.
      * left. by intros ? [=].
Defined.

#[global] Instance codes_unique_dec st : Decision (codes_unique st).
Proof.
  unfold codes_unique.
  refine (map_Forall_dec
            (λ i E, ∀ j E', eq_equipment st !! j = Some E' →
                      Equipment.equipment_code E = Equipment.equipment_code E' →
                      i = j) _).
  all: intros; apply _.
Defined.

(** ** More sample data *)

Definition chainsaw_form : NewEquipment.t :=
  NewEquipment.mk (text "Chainsaw") Tools (text "Tool Room") [].

(** After the mower's repair the chair adds a chainsaw (key 8)... *)
Definition chainsaw_added : Store :=
  (handleAddEquipment (Some 1%nat) chainsaw_form
     (map_to_list (eq_equipment mower_out_repaired)) 8 day3_noon
     mower_out_repaired).2.

(** ... and records the maintenance of the mower. *)
Definition mower_serviced : Store :=
  (handleUpdateMaintenance (Some 1%nat) 1 day3_noon chainsaw_added).2.

(** ** Calls of the handlers *)

(** One call of a handler that writes, with any session, arguments and
    data held by the client. *)
Inductive handler_call (st : Store) : Store → Prop :=
| call_handleCheckout auth user sel form id now :
    handler_call st (handleCheckout auth user sel form id now st).2
| call_handleReturn auth user sel checkouts form id now :
    handler_call st (handleReturn auth user sel checkouts form id now st).2
| call_resolveDeficiency auth user defId now :
    handler_call st (resolveDeficiency auth user defId now st).2
| call_handleAddEquipment auth form equipment id now :
    handler_call st (handleAddEquipment auth form equipment id now st).2
| call_handleUpdateMaintenance auth equipmentId now :
    handler_call st (handleUpdateMaintenance auth equipmentId now st).2.

(** Calls on the club store: volunteer 42 checks out the mower; volunteer
    43, whose page still shows the mower as available, checks it out too;
    42 returns it reporting a major deficiency; the chair resolves the
    deficiency, adds a chainsaw and records the mower's maintenance. *)
Definition club_calls : list (Store → Store) :=
  [ (λ st, (handleCheckout (Some 42%nat) 42 (Some (1%nat, EQ001))
              (CheckoutForm.mk club (text "mowing") None) 100 day0_noon st).2);
    (λ st, (handleCheckout (Some 43%nat) 43 (Some (1%nat, EQ001))
              (CheckoutForm.mk personal (text "lawn") (Some 20002)) 101
              day0_noon st).2);
    (λ st, (handleReturn (Some 42%nat) 42 (Some (1%nat, EQ001))
              [(100%nat, new_checkout 1 42 None club (text "mowing") day0_noon)]
              (ReturnForm.mk deficiency (text "blade loose") major) 200
              day1_noon st).2);
    (λ st, (resolveDeficiency (Some 1%nat) 1 200 day2_noon st).2);
    (λ st, (handleAddEquipment (Some 1%nat) chainsaw_form [] 8 day3_noon st).2);
    (λ st, (handleUpdateMaintenance (Some 1%nat) 1 day3_noon st).2) ].

Definition after_calls (calls : list (Store → Store)) (st : Store) : Store :=
  foldl (λ st call, call st) st calls.

(* ================================================================== *)
(** * Part II: properties of the lifecycle                             *)
(* ================================================================== *)

(** ** Reading the queries *)

Lemma has_open_checkout_true st e :
  has_open_checkout st e = true ↔
  ∃ i c, eq_checkouts st !! i = Some c ∧ Checkout.equipment_id c = e ∧ is_open c.
Proof.
  unfold has_open_checkout. rewrite bool_decide_eq_true.
  unfold map_Exists, open_checkout_of.
  split; intros (i & c & H); exists i, c; tauto.
Qed.

Lemma has_open_checkout_false st e :
  has_open_checkout st e = false ↔
  ∀ i c, eq_checkouts st !! i = Some c → Checkout.equipment_id c = e → ¬ is_open c.
Proof.
  rewrite <- not_true_iff_false, has_open_checkout_true. split.
  - intros H i c ? ? ?. apply H. eauto.
  - intros H (i & c & ? & ? & ?). by eapply H.
Qed.

Lemma has_pending_major_true st e :
  has_pending_major st e = true ↔
  ∃ i d, eq_deficiencies st !! i = Some d ∧ pending_major_of e i d.
Proof.
  unfold has_pending_major. by rewrite bool_decide_eq_true.
Qed.

Lemma has_pending_major_false st e :
  has_pending_major st e = false ↔
  ∀ i d, eq_deficiencies st !! i = Some d → ¬ pending_major_of e i d.
Proof.
  rewrite <- not_true_iff_false, has_pending_major_true. split.
  - intros H i d ? ?. apply H. eauto.
  - intros H (i & d & ? & ?). by eapply H.
Qed.

Lemma has_other_pending_major_true st e self :
  has_other_pending_major st e self = true ↔
  ∃ i d, eq_deficiencies st !! i = Some d ∧ i ≠ self ∧ pending_major_of e i d.
Proof.
  unfold has_other_pending_major. rewrite bool_decide_eq_true.
  unfold map_Exists, other_pending_major_of.
  split; intros (i & d & H); exists i, d; tauto.
Qed.

Lemma has_other_pending_major_false st e self :
  has_other_pending_major st e self = false ↔
  ∀ i d, eq_deficiencies st !! i = Some d → i ≠ self → ¬ pending_major_of e i d.
Proof.
  rewrite <- not_true_iff_false, has_other_pending_major_true. split.
  - intros H i d ? ? ?. apply H. eauto.
  - intros H (i & d & ? & ? & ?). by eapply H.
Qed.

(** The queries read the checkout and deficiency tables only. *)
Lemma has_open_checkout_ext st st' e :
  eq_checkouts st' = eq_checkouts st →
  has_open_checkout st' e = has_open_checkout st e.
Proof. unfold has_open_checkout. by intros ->. Qed.

Lemma has_pending_major_ext st st' e :
  eq_deficiencies st' = eq_deficiencies st →
  has_pending_major st' e = has_pending_major st e.
Proof. unfold has_pending_major. by intros ->. Qed.

Lemma recompute_ext st st' e :
  eq_checkouts st' = eq_checkouts st →
  eq_deficiencies st' = eq_deficiencies st →
  recompute st' e = recompute st e.
Proof.
  intros Hc Hd. unfold recompute.
  by rewrite (has_pending_major_ext _ _ _ Hd), (has_open_checkout_ext _ _ _ Hc).
Qed.

(** ** The status write of the triggers *)

Lemma update_status_lookup e s now st e' :
  eq_equipment (update_status e s now st) !! e' =
  if decide (e = e') then Equipment.set_status s now <$> eq_equipment st !! e'
  else eq_equipment st !! e'.
Proof.
  unfold update_status; simpl. rewrite lookup_alter.
  case_decide; [by subst | done].
Qed.

Lemma update_status_lookup_Some e s now st e' E' :
  eq_equipment (update_status e s now st) !! e' = Some E' →
  (e = e' ∧ Equipment.status E' = s ∧ is_Some (eq_equipment st !! e'))
  ∨ (e ≠ e' ∧ eq_equipment st !! e' = Some E').
Proof.
  rewrite update_status_lookup. case_decide as He.
  - destruct (eq_equipment st !! e') as [E|] eqn:HE; simpl; [|done].
    intros [= <-]. left. eauto.
  - intros ->. by right.
Qed.

(** ** What each statement does *)

Lemma insert_checkout_cases auth id row now st :
  insert_checkout auth id row now st = (db_error, st)
  ∨ (auth = Some (Checkout.user_id row)
     ∧ is_Some (eq_equipment st !! Checkout.equipment_id row)
     ∧ is_Some (users st !! Checkout.user_id row)
     ∧ eq_checkouts st !! id = None
     ∧ insert_checkout auth id row now st =
       (db_ok, update_status (Checkout.equipment_id row) checked_out now
                 (with_checkouts (<[id := row]> (eq_checkouts st)) st))).
Proof.
  unfold insert_checkout, policy_checkouts_insert, fk_equipment, fk_user.
  repeat case_bool_decide; simpl; auto.
  right. auto.
Qed.

Lemma update_checkout_return_cases auth id d c now st :
  update_checkout_return auth id d c now st = (db_ok, st)
  ∨ ∃ OLD, eq_checkouts st !! id = Some OLD
      ∧ policy_checkouts_update st auth OLD = true
      ∧ update_checkout_return auth id d c now st =
        (db_ok,
         (if bool_decide (Checkout.return_date OLD = None)
          then update_status (Checkout.equipment_id OLD) available now
          else λ s, s)
           (with_checkouts
              (<[id := Checkout.set_return d c OLD]> (eq_checkouts st)) st)).
Proof.
  unfold update_checkout_return.
  destruct (eq_checkouts st !! id) as [OLD|] eqn:HOLD; [|by left].
  destruct (policy_checkouts_update st auth OLD) eqn:Hpol; [|by left].
  right. exists OLD. repeat split; try done.
  unfold update_equipment_status_on_return; simpl.
  by case_bool_decide.
Qed.

Lemma insert_deficiency_cases auth id row now st :
  insert_deficiency auth id row now st = (db_error, st)
  ∨ (auth = Some (Deficiency.reported_by row)
     ∧ is_Some (eq_equipment st !! Deficiency.equipment_id row)
     ∧ is_Some (users st !! Deficiency.reported_by row)
     ∧ eq_deficiencies st !! id = None
     ∧ insert_deficiency auth id row now st =
       (db_ok,
        (if bool_decide (Deficiency.severity row = major)
         then update_status (Deficiency.equipment_id row) needs_repair now
         else λ s, s)
          (with_deficiencies (<[id := row]> (eq_deficiencies st)) st))).
Proof.
  unfold insert_deficiency.
  destruct (policy_deficiencies_insert auth row) eqn:Hp; [|by left].
  destruct (fk_equipment st (Deficiency.equipment_id row)) eqn:He; [|by left].
  destruct (fk_checkout_opt st (Deficiency.checkout_id row)); [|by left].
  destruct (fk_user st (Deficiency.reported_by row)) eqn:Hu; [|by left].
  case_bool_decide as Hid; [|by left]. simpl.
  apply bool_decide_eq_true in Hp, He, Hu.
  right. repeat split; try done.
  unfold update_equipment_on_deficiency. by case_bool_decide.
Qed.

Lemma update_deficiency_resolved_cases auth id u d n now st :
  update_deficiency_resolved auth id u d n now st = (db_ok, st)
  ∨ update_deficiency_resolved auth id u d n now st = (db_error, st)
  ∨ ∃ OLD, eq_deficiencies st !! id = Some OLD
      ∧ policy_deficiencies_update st auth = true
      ∧ is_Some (users st !! u)
      ∧ update_deficiency_resolved auth id u d n now st =
        (db_ok,
         let NEW := Deficiency.set_resolved u d n OLD in
         let e := Deficiency.equipment_id OLD in
         let st1 := with_deficiencies (<[id := NEW]> (eq_deficiencies st)) st in
         if bool_decide (Deficiency.status OLD = pending)
         then if has_other_pending_major st1 e id then st1
              else if has_open_checkout st e
                   then update_status e checked_out now st1
                   else update_status e available now st1
         else st1).
Proof.
  unfold update_deficiency_resolved.
  destruct (eq_deficiencies st !! id) as [OLD|] eqn:HOLD; [|by left].
  destruct (policy_deficiencies_update st auth) eqn:Hpol; [|by left].
  destruct (fk_user st u) eqn:Hu; [|by (right; left)].
  apply bool_decide_eq_true in Hu.
  right; right. exists OLD. repeat split; try done.
  unfold update_equipment_on_deficiency; simpl.
  case_bool_decide; [|done].
  destruct (has_other_pending_major _ _ _); simpl; [done|].
  by rewrite (has_open_checkout_ext st (with_deficiencies _ st)).
Qed.

(** ** Open checkouts and pending deficiencies after a write *)

Lemma open_after_insert st id row e :
  has_open_checkout (with_checkouts (<[id := row]> (eq_checkouts st)) st) e = true ↔
  (Checkout.equipment_id row = e ∧ is_open row)
  ∨ ∃ i c, i ≠ id ∧ eq_checkouts st !! i = Some c
           ∧ Checkout.equipment_id c = e ∧ is_open c.
Proof.
  rewrite has_open_checkout_true; simpl. split.
  - intros (i & c & Hi & He & Ho).
    apply lookup_insert_Some in Hi as [[-> ->]|[Hne Hi]]; [by left|].
    right. exists i, c. eauto.
  - intros [[He Ho]|(i & c & Hne & Hi & He & Ho)].
    + exists id, row. by rewrite lookup_insert_eq.
    + exists i, c. by rewrite lookup_insert_ne.
Qed.

Lemma pending_after_insert st id row e :
  has_pending_major (with_deficiencies (<[id := row]> (eq_deficiencies st)) st) e
    = true ↔
  pending_major_of e id row
  ∨ ∃ i d, i ≠ id ∧ eq_deficiencies st !! i = Some d ∧ pending_major_of e i d.
Proof.
  rewrite has_pending_major_true; simpl. split.
  - intros (i & d & Hi & Hp).
    apply lookup_insert_Some in Hi as [[-> ->]|[Hne Hi]]; [by left|].
    right. exists i, d. eauto.
  - intros [Hp|(i & d & Hne & Hi & Hp)].
    + exists id, row. by rewrite lookup_insert_eq.
    + exists i, d. by rewrite lookup_insert_ne.
Qed.

(** Two boolean queries agree when they hold for the same reasons. *)
Lemma bool_eq_iff (a b : bool) : (a = true ↔ b = true) → a = b.
Proof. destruct a, b; intuition congruence. Qed.

(** Writing a fresh checkout row leaves other equipment's open checkouts. *)
Lemma open_insert_other st id row e :
  eq_checkouts st !! id = None → Checkout.equipment_id row ≠ e →
  has_open_checkout (with_checkouts (<[id := row]> (eq_checkouts st)) st) e
  = has_open_checkout st e.
Proof.
  intros Hid Hne. apply bool_eq_iff.
  rewrite open_after_insert, has_open_checkout_true. split.
  - intros [[? _]|(i & c & _ & ?)]; [done | eauto].
  - intros (i & c & Hi & ?). right. exists i, c. split; [congruence | done].
Qed.

(** Rewriting a checkout row of equipment [e0] leaves other equipment's
    open checkouts. *)
Lemma open_rewrite_other st id OLD NEW e :
  eq_checkouts st !! id = Some OLD →
  Checkout.equipment_id NEW = Checkout.equipment_id OLD →
  Checkout.equipment_id OLD ≠ e →
  has_open_checkout (with_checkouts (<[id := NEW]> (eq_checkouts st)) st) e
  = has_open_checkout st e.
Proof.
  intros Hid Heq Hne. apply bool_eq_iff.
  rewrite open_after_insert, has_open_checkout_true. split.
  - intros [[? _]|(i & c & _ & ?)]; [congruence | eauto].
  - intros (i & c & Hi & He & ?). right. exists i, c.
    split; [|done]. intros ->. congruence.
Qed.

(** Rewriting a closed checkout row into a closed row changes no query. *)
Lemma open_rewrite_closed st id OLD NEW e :
  eq_checkouts st !! id = Some OLD → ¬ is_open OLD → ¬ is_open NEW →
  has_open_checkout (with_checkouts (<[id := NEW]> (eq_checkouts st)) st) e
  = has_open_checkout st e.
Proof.
  intros Hid Ho Hn. apply bool_eq_iff.
  rewrite open_after_insert, has_open_checkout_true. split.
  - intros [[_ ?]|(i & c & _ & ?)]; [done | eauto].
  - intros (i & c & Hi & He & ?). right. exists i, c.
    split; [|done]. intros ->. congruence.
Qed.

Lemma pending_insert_other st id row e :
  eq_deficiencies st !! id = None → ¬ pending_major_of e id row →
  has_pending_major (with_deficiencies (<[id := row]> (eq_deficiencies st)) st) e
  = has_pending_major st e.
Proof.
  intros Hid Hne. apply bool_eq_iff.
  rewrite pending_after_insert, has_pending_major_true. split.
  - intros [?|(i & d & _ & ?)]; [done | eauto].
  - intros (i & d & Hi & ?). right. exists i, d. split; [congruence | done].
Qed.

Lemma pending_rewrite_same st id OLD NEW e :
  eq_deficiencies st !! id = Some OLD →
  (pending_major_of e id NEW ↔ pending_major_of e id OLD) →
  has_pending_major (with_deficiencies (<[id := NEW]> (eq_deficiencies st)) st) e
  = has_pending_major st e.
Proof.
  intros Hid Hiff. apply bool_eq_iff.
  rewrite pending_after_insert, has_pending_major_true. split.
  - intros [?|(i & d & _ & ?)]; [|eauto]. exists id, OLD. tauto.
  - intros (i & d & Hi & Hp). destruct (decide (i = id)) as [->|Hne].
    + left. apply Hiff. congruence.
    + right. eauto.
Qed.

(** ** At most one open checkout per equipment *)

Section OneOpen.
Variable st : Store.
Hypothesis Hone : at_most_one_open st.
Hypothesis Havail : available_not_open st.

Lemma one_open_insert_checkout auth id row now :
  currently_available st (Checkout.equipment_id row) →
  at_most_one_open (insert_checkout auth id row now st).2
  ∧ available_not_open (insert_checkout auth id row now st).2.
Proof.
  intros (E & HE & HEs).
  destruct (insert_checkout_cases auth id row now st)
    as [->|(_ & _ & _ & Hid & ->)]; [done|]. simpl.
  pose proof (Havail _ _ HE HEs) as Hno.
  rewrite has_open_checkout_false in Hno.
  split.
  - intros i c Hi j c' Hj Ho Ho' He. simpl in Hi, Hj.
    apply lookup_insert_Some in Hi as [[<- <-]|[Hni Hi]];
      apply lookup_insert_Some in Hj as [[<- <-]|[Hnj Hj]]; try done.
    + exfalso. by eapply (Hno j c').
    + exfalso. by eapply (Hno i c).
    + by eapply Hone.
  - intros e' E' HE' Hs.
    apply update_status_lookup_Some in HE' as [(_ & Hs' & _)|[Hne HE']];
      [congruence|].
    rewrite (has_open_checkout_ext (with_checkouts _ st)) by done.
    rewrite open_insert_other by done. by eapply Havail.
Qed.

Lemma one_open_update_checkout_return auth id d c now :
  at_most_one_open (update_checkout_return auth id d c now st).2
  ∧ available_not_open (update_checkout_return auth id d c now st).2.
Proof.
  destruct (update_checkout_return_cases auth id d c now st)
    as [->|(OLD & HOLD & _ & ->)]; [done|]. simpl.
  set (st1 := with_checkouts _ st).
  assert (Hsub : ∀ i r, eq_checkouts st1 !! i = Some r → is_open r →
                        i ≠ id ∧ eq_checkouts st !! i = Some r).
  { intros i r Hi Ho. simpl in Hi.
    apply lookup_insert_Some in Hi as [[<- <-]|[Hni Hi]]; [done|done]. }
  assert (Hone1 : at_most_one_open st1).
  { intros i r Hi j r' Hj Ho Ho' He.
    apply Hsub in Hi as [_ Hi]; [|done]. apply Hsub in Hj as [_ Hj]; [|done].
    by eapply Hone. }
  assert (Hle : ∀ e, has_open_checkout st e = false →
                     has_open_checkout st1 e = false).
  { intros e. rewrite !has_open_checkout_false. intros H i r Hi He Ho.
    apply Hsub in Hi as [_ Hi]; [|done]. by eapply H. }
  case_bool_decide as Hopen.
  - split; [done|].
    intros e' E' HE' Hs.
    rewrite (has_open_checkout_ext st1) by done.
    apply update_status_lookup_Some in HE' as [(<- & _ & _)|[Hne HE']].
    + apply has_open_checkout_false. intros i r Hi He Ho.
      apply Hsub in Hi as [Hni Hi]; [|done].
      apply Hni. by eapply Hone.
    + apply Hle. by eapply Havail.
  - split; [done|]. intros e' E' HE' Hs. apply Hle. by eapply Havail.
Qed.

Lemma one_open_insert_deficiency auth id row now :
  at_most_one_open (insert_deficiency auth id row now st).2
  ∧ available_not_open (insert_deficiency auth id row now st).2.
Proof.
  destruct (insert_deficiency_cases auth id row now st)
    as [->|(_ & _ & _ & Hid & ->)]; [done|]. simpl.
  case_bool_decide; [|done].
  split; [done|]. intros e' E' HE' Hs.
  apply update_status_lookup_Some in HE' as [(_ & Hs' & _)|[Hne HE']];
    [congruence|].
  by eapply Havail.
Qed.

Lemma one_open_update_deficiency_resolved auth id u d n now :
  at_most_one_open (update_deficiency_resolved auth id u d n now st).2
  ∧ available_not_open (update_deficiency_resolved auth id u d n now st).2.
Proof.
  destruct (update_deficiency_resolved_cases auth id u d n now st)
    as [->|[->|(OLD & HOLD & _ & _ & ->)]]; [done|done|]. simpl.
  case_bool_decide; [|done].
  destruct (has_other_pending_major _ _ _); [done|].
  destruct (has_open_checkout st _) eqn:Hopen.
  - split; [done|]. intros e' E' HE' Hs.
    apply update_status_lookup_Some in HE' as [(_ & Hs' & _)|[Hne HE']];
      [congruence|].
    by eapply Havail.
  - split; [done|]. intros e' E' HE' Hs.
    apply update_status_lookup_Some in HE' as [(<- & _ & _)|[Hne HE']];
      [done|].
    by eapply Havail.
Qed.
End OneOpen.

Lemma store_step_one_open st st' :
  at_most_one_open st ∧ available_not_open st →
  store_step st st' →
  at_most_one_open st' ∧ available_not_open st'.
Proof.
  intros [Hone Havail] Hstep. destruct Hstep.
  - by apply one_open_insert_checkout.
  - by apply one_open_update_checkout_return.
  - by apply one_open_insert_deficiency.
  - by apply one_open_update_deficiency_resolved.
Qed.

(** ** The status equals the recomputed status *)

Lemma recompute_available st e :
  recompute st e = available →
  has_pending_major st e = false ∧ has_open_checkout st e = false.
Proof.
  unfold recompute.
  destruct (has_pending_major st e), (has_open_checkout st e); by intros.
Qed.

Section Recomputed.
Variable st : Store.
Hypothesis Hrec : status_recomputed_unless_oos st.
Hypothesis Hone : at_most_one_open st.

Lemma recomputed_insert_checkout auth id e u exp ut p now :
  currently_available st e →
  status_recomputed_unless_oos
    (insert_checkout auth id (new_checkout e u exp ut p now) now st).2
  ∧ at_most_one_open
      (insert_checkout auth id (new_checkout e u exp ut p now) now st).2.
Proof.
  intros (E & HE & HEs).
  destruct (insert_checkout_cases auth id (new_checkout e u exp ut p now) now st)
    as [->|(_ & _ & _ & Hid & ->)]; [done|]. simpl.
  assert (Hr : recompute st e = available).
  { rewrite <- HEs. symmetry. eapply Hrec; [done|]. by rewrite HEs. }
  apply recompute_available in Hr as [Hnp Hno].
  split.
  - intros e' E' HE' Hoos.
    rewrite (recompute_ext (with_checkouts (<[id := new_checkout e u exp ut p now]>
                                 (eq_checkouts st)) st)) by done.
    unfold recompute.
    rewrite (has_pending_major_ext st) by done.
    apply update_status_lookup_Some in HE' as [(<- & -> & _)|[Hne HE']].
    + rewrite Hnp.
      replace (has_open_checkout _ e) with true; [done|].
      symmetry. apply open_after_insert. by left.
    + rewrite open_insert_other by done. by apply Hrec.
  - rewrite has_open_checkout_false in Hno.
    intros i c Hi j c' Hj Ho Ho' He. simpl in Hi, Hj.
    apply lookup_insert_Some in Hi as [[<- <-]|[Hni Hi]];
      apply lookup_insert_Some in Hj as [[<- <-]|[Hnj Hj]]; try done.
    + exfalso. by eapply (Hno j c').
    + exfalso. by eapply (Hno i c).
    + by eapply Hone.
Qed.

Lemma recomputed_update_checkout_return auth id d c now :
  (∀ OLD, eq_checkouts st !! id = Some OLD → is_open OLD →
          has_pending_major st (Checkout.equipment_id OLD) = false) →
  status_recomputed_unless_oos (update_checkout_return auth id d c now st).2
  ∧ at_most_one_open (update_checkout_return auth id d c now st).2.
Proof.
  intros Hnp.
  destruct (update_checkout_return_cases auth id d c now st)
    as [->|(OLD & HOLD & _ & ->)]; [done|]. simpl.
  set (NEW := Checkout.set_return d c OLD).
  set (st1 := with_checkouts _ st).
  assert (Hone1 : at_most_one_open st1).
  { intros i r Hi j r' Hj Ho Ho' He. simpl in Hi, Hj.
    apply lookup_insert_Some in Hi as [[<- <-]|[Hni Hi]]; [done|].
    apply lookup_insert_Some in Hj as [[<- <-]|[Hnj Hj]]; [done|].
    by eapply Hone. }
  case_bool_decide as Hopen.
  - split; [|done]. intros e' E' HE' Hoos.
    rewrite (recompute_ext st1) by done. unfold recompute.
    rewrite (has_pending_major_ext st st1) by done.
    apply update_status_lookup_Some in HE' as [(<- & -> & _)|[Hne HE']].
    + rewrite (Hnp OLD) by done.
      replace (has_open_checkout st1 _) with false; [done|].
      symmetry. apply has_open_checkout_false. intros i r Hi He Ho.
      simpl in Hi. apply lookup_insert_Some in Hi as [[<- <-]|[Hni Hi]]; [done|].
      apply Hni. by eapply Hone.
    + unfold st1. rewrite (open_rewrite_other st id OLD) by done.
      by apply Hrec.
  - split; [|done]. intros e' E' HE' Hoos.
    unfold recompute.
    rewrite (has_pending_major_ext st st1) by done.
    unfold st1. rewrite (open_rewrite_closed st id OLD) by done.
    by apply Hrec.
Qed.

Lemma recomputed_insert_deficiency auth id e co u desc sev now :
  status_recomputed_unless_oos
    (insert_deficiency auth id (new_deficiency e co u desc sev now) now st).2
  ∧ at_most_one_open
      (insert_deficiency auth id (new_deficiency e co u desc sev now) now st).2.
Proof.
  destruct (insert_deficiency_cases auth id
              (new_deficiency e co u desc sev now) now st)
    as [->|(_ & _ & _ & Hid & ->)]; [done|]. simpl.
  set (row := new_deficiency e co u desc sev now).
  set (st1 := with_deficiencies _ st).
  case_bool_decide as Hsev; simpl in Hsev.
  - split; [|done]. intros e' E' HE' Hoos.
    rewrite (recompute_ext st1) by done. unfold recompute.
    rewrite (has_open_checkout_ext st st1) by done.
    apply update_status_lookup_Some in HE' as [(<- & -> & _)|[Hne HE']].
    + replace (has_pending_major st1 _) with true; [done|].
      symmetry. apply pending_after_insert. left. by repeat split.
    + unfold st1. rewrite pending_insert_other; [by apply Hrec|done|].
      by intros [? _].
  - split; [|done]. intros e' E' HE' Hoos.
    unfold recompute.
    rewrite (has_open_checkout_ext st st1) by done.
    unfold st1. rewrite pending_insert_other; [by apply Hrec|done|].
    by intros (_ & ? & _).
Qed.

Lemma recomputed_update_deficiency_resolved auth id u d n now :
  status_recomputed_unless_oos
    (update_deficiency_resolved auth id u d n now st).2
  ∧ at_most_one_open (update_deficiency_resolved auth id u d n now st).2.
Proof.
  destruct (update_deficiency_resolved_cases auth id u d n now st)
    as [->|[->|(OLD & HOLD & _ & _ & ->)]]; [done|done|]. simpl.
  set (NEW := Deficiency.set_resolved u d n OLD).
  set (e := Deficiency.equipment_id OLD).
  set (st1 := with_deficiencies _ st).
  assert (Hother : ∀ e', e ≠ e' →
            has_pending_major st1 e' = has_pending_major st e').
  { intros e' Hne. unfold st1. apply (pending_rewrite_same st id OLD); [done|].
    unfold pending_major_of; simpl. fold e. tauto. }
  case_bool_decide as Hpend.
  - destruct (has_other_pending_major st1 e id) eqn:Hoth.
    + split; [|done]. intros e' E' HE' Hoos. unfold recompute.
      rewrite (has_open_checkout_ext st st1) by done.
      destruct (decide (e = e')) as [<-|Hne]; [|rewrite Hother by done; by apply Hrec].
      apply has_other_pending_major_true in Hoth as (i & r & Hi & Hni & Hp).
      simpl in Hi. rewrite lookup_insert_ne in Hi by done.
      assert (H1 : has_pending_major st1 e = true).
      { apply pending_after_insert. right. eauto. }
      assert (H0 : has_pending_major st e = true).
      { apply has_pending_major_true. eauto. }
      rewrite H1. rewrite (Hrec _ _ HE' Hoos). unfold recompute. by rewrite H0.
    + assert (H1 : has_pending_major st1 e = false).
      { apply has_pending_major_false. intros i r Hi Hp.
        rewrite has_other_pending_major_false in Hoth.
        destruct (decide (i = id)) as [->|Hni]; [|by eapply Hoth].
        simpl in Hi. rewrite lookup_insert_eq in Hi. injection Hi as <-.
        by destruct Hp as (_ & _ & ?). }
      destruct (has_open_checkout st e) eqn:Hopen.
      * split; [|done]. intros e' E' HE' Hoos.
        rewrite (recompute_ext st1) by done. unfold recompute.
        rewrite (has_open_checkout_ext st st1) by done.
        apply update_status_lookup_Some in HE' as [(<- & -> & _)|[Hne HE']].
        -- by rewrite H1, Hopen.
        -- rewrite Hother by done. by apply Hrec.
      * split; [|done]. intros e' E' HE' Hoos.
        rewrite (recompute_ext st1) by done. unfold recompute.
        rewrite (has_open_checkout_ext st st1) by done.
        apply update_status_lookup_Some in HE' as [(<- & -> & _)|[Hne HE']].
        -- by rewrite H1, Hopen.
        -- rewrite Hother by done. by apply Hrec.
  - split; [|done]. intros e' E' HE' Hoos. unfold recompute.
    rewrite (has_open_checkout_ext st st1) by done.
    unfold st1. rewrite (pending_rewrite_same st id OLD); [by apply Hrec|done|].
    unfold pending_major_of; simpl. split; intros (_ & _ & ?); congruence.
Qed.
End Recomputed.

Lemma lifecycle_step_recomputed st st' :
  status_recomputed_unless_oos st ∧ at_most_one_open st →
  lifecycle_step st st' →
  status_recomputed_unless_oos st' ∧ at_most_one_open st'.
Proof.
  intros [Hrec Hone] Hstep. destruct Hstep.
  - by apply recomputed_insert_checkout.
  - by apply recomputed_update_checkout_return.
  - by apply recomputed_insert_deficiency.
  - by apply recomputed_update_deficiency_resolved.
Qed.

(** ** The sample run *)

Example mower_out_status : status_of mower_out 1 = Some checked_out.
Proof. reflexivity. Qed.

Example mower_out_broken_status : status_of mower_out_broken 1 = Some needs_repair.
Proof. reflexivity. Qed.

Example mower_out_repaired_status :
  status_of mower_out_repaired 1 = Some checked_out.
Proof. reflexivity. Qed.

Example mower_back_broken_status :
  status_of mower_back_broken 1 = Some available
  ∧ recompute mower_back_broken 1 = needs_repair.
Proof. split; reflexivity. Qed.

Example club_store_recomputed : status_recomputed club_store.
Proof. apply (bool_decide_unpack _). vm_compute. exact I. Qed.

Example mower_out_broken_recomputed :
  status_recomputed mower_out_broken ∧ at_most_one_open mower_out_broken.
Proof. split; apply (bool_decide_unpack _); vm_compute; exact I. Qed.

(** The same state is reached through the handlers alone. *)
Example handlers_reach_unrecomputed_status :
  status_of mower_reported_by_other 1 = Some needs_repair
  ∧ has_open_checkout mower_reported_by_other 1 = true
  ∧ status_of mower_returned_after_report 1 = Some available
  ∧ recompute mower_returned_after_report 1 = needs_repair.
Proof. repeat split; vm_compute; reflexivity. Qed.

(** The out-of-service status is outside the rule: the rule never yields
    it, and the statements leave it on equipment they do not touch. *)
Example out_of_service_not_recomputed :
  status_of generator_retired 7 = Some out_of_service
  ∧ recompute generator_retired 7 = available
  ∧ status_recomputed_unless_oos generator_retired
  ∧ status_of
      (insert_checkout (Some 42%nat) 100
         (new_checkout 1 42 None club (text "mowing") day0_noon)
         day0_noon generator_retired).2 7
    = Some out_of_service.
Proof.
  repeat split; try (vm_compute; reflexivity).
  apply (bool_decide_unpack _). vm_compute. exact I.
Qed.

(** ** C1: the status and the recompute rule *)

(** C1, as the specification states it, fails: after the return of a
    checkout whose equipment still has a pending major deficiency, the
    return trigger has written [available] where the recompute rule gives
    [needs-repair].  The store before the return satisfies the rule. *)
Lemma return_with_pending_major_not_recomputed :
  status_recomputed mower_out_broken
  ∧ store_step mower_out_broken mower_back_broken
  ∧ ¬ status_recomputed mower_back_broken.
Proof.
  split; [apply (bool_decide_unpack _); vm_compute; exact I|].
  split; [apply store_return|].
  apply (bool_decide_unpack _). vm_compute. exact I.
Qed.

(** C1 (amended): in a store where every equipment row that is not under
    the out-of-service override carries the recomputed status, and no
    equipment has two open checkouts, this remains so after any sequence of
    lifecycle statements -- a checkout of equipment whose current status
    is available, a return of a checkout whose equipment has no pending
    major deficiency, a deficiency report, a deficiency resolution. *)
Theorem status_recomputed_along_lifecycle st st' :
  status_recomputed_unless_oos st →
  at_most_one_open st →
  rtc lifecycle_step st st' →
  status_recomputed_unless_oos st' ∧ at_most_one_open st'.
Proof.
  intros Hrec Hone Hsteps. induction Hsteps as [st|st st1 st' Hstep _ IH].
  - done.
  - destruct (lifecycle_step_recomputed st st1) as [Hrec1 Hone1]; auto.
Qed.

(** An instance: the club store after a checkout, a major deficiency
    report and its resolution. *)
Lemma status_recomputed_along_lifecycle_witness :
  status_recomputed_unless_oos mower_out_repaired
  ∧ at_most_one_open mower_out_repaired.
Proof.
  apply (status_recomputed_along_lifecycle club_store).
  - apply (bool_decide_unpack _). vm_compute. exact I.
  - apply (bool_decide_unpack _). vm_compute. exact I.
  - eapply rtc_l.
    { apply (lifecycle_checkout club_store (Some 42%nat) 100 1 42 None club
               (text "mowing") day0_noon).
      exists EQ001. split; reflexivity. }
    eapply rtc_l.
    { apply (lifecycle_report mower_out (Some 42%nat) 200 1 None 42
               (text "blade loose") major day1_noon). }
    eapply rtc_l; [|apply rtc_refl].
    apply (lifecycle_resolve mower_out_broken (Some 1%nat) 200 1
             (date_of day2_noon) Resolved_text day2_noon).
Defined.

(** ** C2: at most one open checkout per equipment *)

(** C2, as the specification states it, fails: the store has no
    uniqueness constraint on open checkouts ([idx_eq_checkouts_active] is a
    plain partial index), and [handleCheckout] tests the status of the row
    the client holds.  Submitting the form twice against that row inserts
    two open checkouts of the same equipment. *)
Lemma second_checkout_opens_second_row :
  at_most_one_open mower_out
  ∧ handleCheckout (Some 42%nat) 42 (Some (1%nat, EQ001))
      (CheckoutForm.mk club (text "mowing") None) 101 day0_noon mower_out
    = (Notified Notification.success, mower_out_twice)
  ∧ ¬ at_most_one_open mower_out_twice.
Proof.
  split; [apply (bool_decide_unpack _); vm_compute; exact I|].
  split; [reflexivity|].
  apply (bool_decide_unpack _). vm_compute. exact I.
Qed.

(** C2 (amended): in a store where no equipment has two open checkouts
    and equipment whose status is available has none, this remains so
    after any sequence of statements in which every checkout is issued for
    equipment whose current status in the store is available.  The store
    itself enforces no uniqueness of open checkouts. *)
Theorem one_open_checkout_along_steps st st' :
  at_most_one_open st →
  available_not_open st →
  rtc store_step st st' →
  at_most_one_open st' ∧ available_not_open st'.
Proof.
  intros Hone Havail Hsteps. induction Hsteps as [st|st st1 st' Hstep _ IH].
  - done.
  - destruct (store_step_one_open st st1) as [Hone1 Havail1]; auto.
Qed.

(** An instance: the club store after a checkout, a major deficiency
    report and the return. *)
Lemma one_open_checkout_along_steps_witness :
  at_most_one_open mower_back_broken ∧ available_not_open mower_back_broken.
Proof.
  apply (one_open_checkout_along_steps club_store).
  - apply (bool_decide_unpack _). vm_compute. exact I.
  - apply (bool_decide_unpack _). vm_compute. exact I.
  - eapply rtc_l.
    { apply (store_checkout club_store (Some 42%nat) 100 1 42 None club
               (text "mowing") day0_noon).
      exists EQ001. split; reflexivity. }
    eapply rtc_l.
    { apply (store_report mower_out (Some 42%nat) 200 1 None 42
               (text "blade loose") major day1_noon). }
    eapply rtc_l; [|apply rtc_refl].
    apply (store_return mower_out_broken (Some 42%nat) 100 day2_noon good
             day2_noon).
Defined.

(** ** C3: checking out equipment that is not available *)

(** C3, as the specification states it, fails: the refusal is not an
    error.  [handleCheckout] on the mower, whose status is [needs-repair],
    ends by its bare [return]: nothing is thrown and no notification is
    shown. *)
Lemma handleCheckout_refusal_is_silent :
  handleCheckout (Some 42%nat) 42
    (Some (1%nat, Equipment.set_status needs_repair day1_noon EQ001))
    (CheckoutForm.mk club (text "mowing") None) 101 day2_noon mower_out_broken
  = (EarlyReturn, mower_out_broken)
  ∧ reports_error
      (handleCheckout (Some 42%nat) 42
         (Some (1%nat, Equipment.set_status needs_repair day1_noon EQ001))
         (CheckoutForm.mk club (text "mowing") None) 101 day2_noon
         mower_out_broken).1 = false.
Proof. split; reflexivity. Qed.

Lemma status_of_update_status e s now st :
  is_Some (eq_equipment st !! e) →
  status_of (update_status e s now st) e = Some s.
Proof.
  intros [E HE]. unfold status_of. rewrite update_status_lookup.
  rewrite decide_True by done. by rewrite HE.
Qed.

(** C3, as the specification states it, fails also in its second half:
    the guard reads the row the client holds, not the store.  The mower
    needs repair and is out; a member whose page still shows the row
    fetched before, with status [available], submits the checkout form:
    the checkout is inserted, no error is reported, and the trigger
    overwrites [needs-repair] with [checked-out]. *)
Lemma handleCheckout_stale_row_checks_out :
  let r := handleCheckout (Some 43%nat) 43 (Some (1%nat, EQ001))
             (CheckoutForm.mk club (text "mowing") None) 101 day2_noon
             mower_out_broken in
  status_of mower_out_broken 1 = Some needs_repair
  ∧ r.1 = Notified Notification.success
  ∧ rejected r.1 = false
  ∧ eq_checkouts r.2 !! 101%nat
    = Some (new_checkout 1 43 None club (text "mowing") day2_noon)
  ∧ status_of r.2 1 = Some checked_out
  ∧ r.2 ≠ mower_out_broken.
Proof.
  repeat split; try (vm_compute; reflexivity).
  intros H. apply (f_equal (λ st, status_of st 1)) in H.
  vm_compute in H. discriminate.
Qed.

(** C3 (amended): what [handleCheckout] does for equipment whose status
    in the store is not [available].  The guard reads the row the client
    holds.  If that row's status is not [available] -- as when it is the
    store's current row -- the handler returns early, before any request
    and without reporting an error, and the store (equipment, checkouts,
    deficiencies) is the one it was given.  If the client's row is a stale
    copy that says [available], the request is made: accepted by the
    store (the session is the user's own, the user exists, the key is
    fresh) it inserts the checkout and the trigger sets the status to
    [checked-out], whatever it was, the deficiencies being untouched;
    refused by the store it changes nothing and an error notification is
    shown. *)
Theorem handleCheckout_not_available st auth user eid E_store E form id now :
  eq_equipment st !! eid = Some E_store →
  Equipment.status E_store ≠ available →
  handleCheckout auth user (Some (eid, E_store)) form id now st
  = (EarlyReturn, st)
  ∧ (Equipment.status E ≠ available →
     handleCheckout auth user (Some (eid, E)) form id now st
     = (EarlyReturn, st))
  ∧ (Equipment.status E = available →
     let row := new_checkout eid user (CheckoutForm.expectedReturn form)
                  (CheckoutForm.useType form) (CheckoutForm.purpose form) now in
     let r := handleCheckout auth user (Some (eid, E)) form id now st in
     (auth = Some user ∧ is_Some (users st !! user)
      ∧ eq_checkouts st !! id = None →
      r.1 = Notified Notification.success
      ∧ eq_checkouts r.2 = <[id := row]> (eq_checkouts st)
      ∧ status_of r.2 eid = Some checked_out
      ∧ eq_deficiencies r.2 = eq_deficiencies st
      ∧ users r.2 = users st
      ∧ ∀ e, e ≠ eid → eq_equipment r.2 !! e = eq_equipment st !! e)
     ∧ (¬ (auth = Some user ∧ is_Some (users st !! user)
           ∧ eq_checkouts st !! id = None) →
        r = (Notified Notification.error, st))).
Proof.
  intros HE Hst.
  assert (Hguard : ∀ E0, Equipment.status E0 ≠ available →
            handleCheckout auth user (Some (eid, E0)) form id now st
            = (EarlyReturn, st)).
  { intros E0 H0. unfold handleCheckout. by rewrite bool_decide_eq_true_2. }
  split; [by apply Hguard|]. split; [apply Hguard|].
  intros Hav row r.
  assert (Hr : r = match insert_checkout auth id row now st with
                   | (db_error, st') => (Notified Notification.error, st')
                   | (db_ok, st') => (Notified Notification.success, st')
                   end).
  { unfold r, handleCheckout.
    by rewrite bool_decide_eq_false_2 by (by intros ?). }
  destruct (insert_checkout_cases auth id row now st)
    as [Herr|(Hauth & _ & Hu & Hid & Hok)].
  - rewrite Herr in Hr. split; [|done].
    intros (Hauth & Hu & Hid). exfalso.
    unfold insert_checkout, policy_checkouts_insert, fk_equipment, fk_user
      in Herr.
    rewrite !bool_decide_eq_true_2 in Herr; [done|done|done| |done].
    simpl. rewrite HE. eauto.
  - rewrite Hok in Hr. split; [|intros Hnot; destruct Hnot; by simpl in *].
    intros _. rewrite Hr. cbn [fst snd].
    split; [done|]. split; [done|].
    split; [apply status_of_update_status; simpl; rewrite HE; eauto|].
    split; [done|]. split; [done|].
    intros e Hne. rewrite update_status_lookup.
    by rewrite decide_False by done.
Qed.

(** An instance: the mower is out and needs repair.  On its current row
    the chair's checkout returns early; on the stale row volunteer 43's
    checkout is inserted and the status becomes [checked-out]. *)
Lemma handleCheckout_not_available_witness :
  handleCheckout (Some 1%nat) 1
    (Some (1%nat, Equipment.set_status needs_repair day1_noon
                    (Equipment.set_status checked_out day0_noon EQ001)))
    (CheckoutForm.mk personal (text "lawn") (Some 20003)) 101 day2_noon
    mower_out_broken
  = (EarlyReturn, mower_out_broken)
  ∧ status_of
      (handleCheckout (Some 43%nat) 43 (Some (1%nat, EQ001))
         (CheckoutForm.mk club (text "mowing") None) 101 day2_noon
         mower_out_broken).2 1
    = Some checked_out.
Proof.
  split.
  - apply (handleCheckout_not_available mower_out_broken (Some 1%nat) 1 1
             (Equipment.set_status needs_repair day1_noon
                (Equipment.set_status checked_out day0_noon EQ001))
             EQ001).
    + vm_compute. reflexivity.
    + simpl. discriminate.
  - apply (handleCheckout_not_available mower_out_broken (Some 43%nat) 43 1
             (Equipment.set_status needs_repair day1_noon
                (Equipment.set_status checked_out day0_noon EQ001))
             EQ001 (CheckoutForm.mk club (text "mowing") None) 101 day2_noon).
    + vm_compute. reflexivity.
    + simpl. discriminate.
    + reflexivity.
    + split; [reflexivity|]. split; [vm_compute; eauto | reflexivity].
Defined.

(** ** C4: returning a checkout twice *)


Lemma find_active_checkout_Some eid cl j c :
  find_active_checkout eid cl = Some (j, c) →
  (j, c) ∈ cl ∧ Checkout.equipment_id c = eid ∧ is_open c.
Proof.
  unfold find_active_checkout. intros H. apply find_some in H as [Hin Hb].
  apply andb_true_iff in Hb as [He Ho]. simpl in He, Ho.
  apply bool_decide_eq_true in He, Ho.
  split; [by apply list_elem_of_In | done].
Qed.

Lemma returned_condition (c : Condition) :
  (if bool_decide (c = good) then good else deficiency) = c.
Proof. by destruct c. Qed.

(** The mower checked out by volunteer 42 and returned in good
    condition. *)
Example mower_returned_status :
  status_of
    (handleReturn (Some 42%nat) 42 (Some (1%nat, EQ001))
       (map_to_list (eq_checkouts mower_out))
       (ReturnForm.mk good [] minor) 200 day1_noon mower_out).2 1
  = Some available.
Proof. vm_compute. reflexivity. Qed.




(** ** The handlers on current data are lifecycle statements *)

Lemma handleCheckout_lifecycle auth user eid E form id now st :
  eq_equipment st !! eid = Some E →
  rtc lifecycle_step st
    (handleCheckout auth user (Some (eid, E)) form id now st).2.
Proof.
  intros HE. unfold handleCheckout. case_bool_decide as Hs; [apply rtc_refl|].
  assert (Hstep : lifecycle_step st
            (insert_checkout auth id
               (new_checkout eid user (CheckoutForm.expectedReturn form)
                  (CheckoutForm.useType form) (CheckoutForm.purpose form) now)
               now st).2).
  { apply lifecycle_checkout. exists E. split; [done|].
    by destruct (decide (Equipment.status E = available)). }
  destruct (insert_checkout _ _ _ _ _) as [[] st']; by apply rtc_once.
Qed.

(** The return form is offered for equipment whose status is
    [checked-out]. *)
Lemma handleReturn_lifecycle auth user eid E cl form id now st :
  status_recomputed_unless_oos st →
  eq_equipment st !! eid = Some E →
  Equipment.status E = checked_out →
  (∀ j c, (j, c) ∈ cl → eq_checkouts st !! j = Some c) →
  rtc lifecycle_step st
    (handleReturn auth user (Some (eid, E)) cl form id now st).2.
Proof.
  intros Hrec HE Hs Hcl. unfold handleReturn.
  destruct (find_active_checkout eid cl) as [[cid c]|] eqn:Hf; [|apply rtc_refl].
  apply find_active_checkout_Some in Hf as (Hin & He & Ho).
  apply Hcl in Hin.
  assert (Hnp : has_pending_major st eid = false).
  { assert (Hr : recompute st eid = checked_out).
    { rewrite <- Hs. symmetry. apply Hrec; [done|]. by rewrite Hs. }
    unfold recompute in Hr. by destruct (has_pending_major st eid). }
  eapply rtc_l.
  { apply (lifecycle_return st auth cid now
             (if bool_decide (ReturnForm.condition form = good)
              then good else deficiency) now).
    intros OLD HOLD _. rewrite Hin in HOLD. injection HOLD as <-.
    by rewrite He. }
  destruct (_ && _); [|apply rtc_refl].
  apply rtc_once. apply lifecycle_report.
Qed.

Lemma resolveDeficiency_lifecycle auth user defId now st :
  lifecycle_step st (resolveDeficiency auth user defId now st).2.
Proof. apply lifecycle_resolve. Qed.

(** ** C5: a major deficiency takes precedence, a resolution gives it back *)

Lemma other_pending_after_rewrite st id NEW e :
  has_other_pending_major
    (with_deficiencies (<[id := NEW]> (eq_deficiencies st)) st) e id
  = has_other_pending_major st e id.
Proof.
  apply bool_eq_iff. rewrite !has_other_pending_major_true; simpl.
  split; intros (i & d & Hi & Hne & Hp); exists i, d.
  - by rewrite lookup_insert_ne in Hi.
  - by rewrite lookup_insert_ne.
Qed.

(** C5: a major deficiency report accepted by the store sets the
    equipment's status to [needs-repair], whatever its checkouts, and
    leaves the checkout table as it was.  A resolution, by a chair or
    admin, of a pending deficiency whose equipment has no other pending
    major deficiency sets the status to [checked-out] if some checkout row
    of the equipment has no return date, and to [available] if every
    checkout row of the equipment has one; it leaves the checkout table as
    it was. *)
Theorem major_deficiency_status_rule st :
  (∀ auth id e co u desc now st1,
     insert_deficiency auth id (new_deficiency e co u desc major now) now st
     = (db_ok, st1) →
     status_of st1 e = Some needs_repair
     ∧ eq_checkouts st1 = eq_checkouts st)
  ∧ (∀ a usr id r d n now OLD,
       eq_deficiencies st !! id = Some OLD →
       Deficiency.status OLD = pending →
       users st !! a = Some usr →
       User.role usr = chair ∨ User.role usr = admin →
       is_Some (users st !! r) →
       is_Some (eq_equipment st !! Deficiency.equipment_id OLD) →
       (∀ j dj, eq_deficiencies st !! j = Some dj → j ≠ id →
                Deficiency.equipment_id dj = Deficiency.equipment_id OLD →
                Deficiency.severity dj = major →
                Deficiency.status dj = resolved) →
       let st2 := (update_deficiency_resolved (Some a) id r d n now st).2 in
       ((∃ i c, eq_checkouts st !! i = Some c
                ∧ Checkout.equipment_id c = Deficiency.equipment_id OLD
                ∧ Checkout.return_date c = None) →
        status_of st2 (Deficiency.equipment_id OLD) = Some checked_out)
       ∧ ((∀ i c, eq_checkouts st !! i = Some c →
                  Checkout.equipment_id c = Deficiency.equipment_id OLD →
                  Checkout.return_date c ≠ None) →
          status_of st2 (Deficiency.equipment_id OLD) = Some available)
       ∧ eq_checkouts st2 = eq_checkouts st).
Proof.
  split.
  - intros auth id e co u desc now st1 Hins.
    destruct (insert_deficiency_cases auth id
                (new_deficiency e co u desc major now) now st)
      as [Herr|(_ & He & _ & _ & Hok)]; [congruence|].
    rewrite Hok in Hins. injection Hins as <-. simpl.
    split; [|done]. by apply status_of_update_status.
  - intros a usr id r d n now OLD HOLD Hpend Ha Hrole Hr He Hoth st2.
    assert (Hpol : policy_deficiencies_update st (Some a) = true).
    { unfold policy_deficiencies_update, is_admin_or_chair. rewrite Ha.
      by destruct Hrole as [-> | ->]. }
    assert (Hoth' : has_other_pending_major st (Deficiency.equipment_id OLD) id
                    = false).
    { apply has_other_pending_major_false.
      intros j dj Hj Hne (Hje & Hsev & Hp).
      specialize (Hoth j dj Hj Hne Hje Hsev). congruence. }
    unfold st2, update_deficiency_resolved.
    rewrite HOLD, Hpol. unfold fk_user. rewrite bool_decide_eq_true_2 by done.
    simpl. unfold update_equipment_on_deficiency. simpl.
    rewrite (bool_decide_eq_true_2 _ Hpend). simpl.
    rewrite other_pending_after_rewrite, Hoth'. simpl.
    set (st1 := with_deficiencies _ st).
    rewrite (has_open_checkout_ext st st1) by done.
    destruct (has_open_checkout st (Deficiency.equipment_id OLD)) eqn:Hopen.
    + split; [|split; [|done]].
      * intros _. by apply status_of_update_status.
      * intros Hclosed. exfalso.
        apply has_open_checkout_true in Hopen as (i & c & Hi & Hce & Ho).
        by apply (Hclosed i c Hi Hce).
    + split; [|split; [|done]].
      * intros (i & c & Hi & Hce & Ho). exfalso.
        rewrite has_open_checkout_false in Hopen. by apply (Hopen i c Hi Hce).
      * intros _. by apply status_of_update_status.
Qed.

(** An instance: the deficiency reported on the mower while it is out;
    its resolution by the chair while the mower is still out, after which
    the mower is checked-out; and its resolution after the mower has come
    back, after which the mower is available. *)
Lemma major_deficiency_status_rule_witness :
  (status_of mower_out_broken 1 = Some needs_repair
   ∧ eq_checkouts mower_out_broken = eq_checkouts mower_out)
  ∧ status_of mower_out_repaired 1 = Some checked_out
  ∧ status_of
      (update_deficiency_resolved (Some 1%nat) 200 1 (date_of day3_noon)
         Resolved_text day3_noon mower_back_broken).2 1
    = Some available.
Proof.
  split; [|split].
  - apply (proj1 (major_deficiency_status_rule mower_out) (Some 42%nat) 200%nat
             1%nat None 42%nat (text "blade loose") day1_noon mower_out_broken).
    vm_compute. reflexivity.
  - apply (proj2 (major_deficiency_status_rule mower_out_broken) 1%nat
             the_chair 200%nat 1%nat (date_of day2_noon) Resolved_text day2_noon
             (new_deficiency 1 None 42 (text "blade loose") major day1_noon)).
    + vm_compute. reflexivity.
    + reflexivity.
    + vm_compute. reflexivity.
    + left. reflexivity.
    + vm_compute. eauto.
    + vm_compute. eauto.
    + refine (bool_decide_unpack
                (map_Forall (λ j dj, j ≠ 200%nat →
                               Deficiency.equipment_id dj = 1%nat →
                               Deficiency.severity dj = major →
                               Deficiency.status dj = resolved)
                   (eq_deficiencies mower_out_broken)) _).
      vm_compute. exact I.
    + exists 100%nat, (new_checkout 1 42 None club (text "mowing") day0_noon).
      split; [vm_compute; reflexivity|]. split; reflexivity.
  - apply (proj2 (major_deficiency_status_rule mower_back_broken) 1%nat
             the_chair 200%nat 1%nat (date_of day3_noon) Resolved_text day3_noon
             (new_deficiency 1 None 42 (text "blade loose") major day1_noon)).
    + vm_compute. reflexivity.
    + reflexivity.
    + vm_compute. reflexivity.
    + left. reflexivity.
    + vm_compute. eauto.
    + vm_compute. eauto.
    + refine (bool_decide_unpack
                (map_Forall (λ j dj, j ≠ 200%nat →
                               Deficiency.equipment_id dj = 1%nat →
                               Deficiency.severity dj = major →
                               Deficiency.status dj = resolved)
                   (eq_deficiencies mower_back_broken)) _).
      vm_compute. exact I.
    + refine (bool_decide_unpack
                (map_Forall (λ i c, Checkout.equipment_id c = 1%nat →
                               Checkout.return_date c ≠ None)
                   (eq_checkouts mower_back_broken)) _).
      vm_compute. exact I.
Defined.

(** ** C6: resolving a deficiency *)

Example mower_out_repaired_deficiency :
  Deficiency.status <$> eq_deficiencies mower_out_repaired !! 200%nat
  = Some resolved
  ∧ Deficiency.resolved_date <$> eq_deficiencies mower_out_repaired !! 200%nat
    = Some (Some 20002).
Proof. split; vm_compute; reflexivity. Qed.

(** C6, as the specification states it, fails: [resolveDeficiency] makes
    no check of the deficiency's status.  On a deficiency that is already
    resolved it does not refuse: it ends with its success notification,
    and the row's resolution date is rewritten. *)
Lemma resolveDeficiency_on_resolved_not_refused :
  Deficiency.status <$> eq_deficiencies mower_out_repaired !! 200%nat
  = Some resolved
  ∧ rejected (resolveDeficiency (Some 1%nat) 1 200 day3_noon mower_out_repaired).1
    = false
  ∧ Deficiency.resolved_date <$>
      eq_deficiencies
        (resolveDeficiency (Some 1%nat) 1 200 day3_noon mower_out_repaired).2
      !! 200%nat
    = Some (Some 20003)
  ∧ (resolveDeficiency (Some 1%nat) 1 200 day3_noon mower_out_repaired).2
    ≠ mower_out_repaired.
Proof.
  split; [vm_compute; reflexivity|].
  split; [reflexivity|].
  split; [vm_compute; reflexivity|].
  intros H.
  apply (f_equal (λ s, Deficiency.resolved_date <$> eq_deficiencies s !! 200%nat))
    in H.
  vm_compute in H. discriminate.
Qed.

(** C6 (amended): [resolveDeficiency] checks nothing before its request.
    Issued by a chair or admin on a pending deficiency, it sets the
    deficiency's status to [resolved] and records the resolver and the
    resolution date.  Issued on a deficiency that is already resolved, it
    does not fail: it ends with the success notification, the status stays
    [resolved] and no equipment row is written. *)
Theorem resolveDeficiency_effect st auth user defId now OLD :
  eq_deficiencies st !! defId = Some OLD →
  policy_deficiencies_update st auth = true →
  is_Some (users st !! user) →
  let r := resolveDeficiency auth user defId now st in
  (Deficiency.status OLD = pending →
   ∃ NEW, eq_deficiencies r.2 !! defId = Some NEW
          ∧ Deficiency.status NEW = resolved
          ∧ Deficiency.resolved_by NEW = Some user
          ∧ Deficiency.resolved_date NEW = Some (date_of now))
  ∧ (Deficiency.status OLD = resolved →
     r.1 = Notified Notification.success
     ∧ rejected r.1 = false
     ∧ (∃ NEW, eq_deficiencies r.2 !! defId = Some NEW
               ∧ Deficiency.status NEW = resolved)
     ∧ eq_equipment r.2 = eq_equipment st).
Proof.
  intros HOLD Hpol Hu r.
  assert (Hr : r.2 =
               update_equipment_on_deficiency (TG_UPDATE OLD) defId
                 (Deficiency.set_resolved user (date_of now) Resolved_text OLD)
                 now
                 (with_deficiencies
                    (<[defId := Deficiency.set_resolved user (date_of now)
                                  Resolved_text OLD]> (eq_deficiencies st)) st)).
  { unfold r, resolveDeficiency, update_deficiency_resolved. simpl.
    rewrite HOLD, Hpol. unfold fk_user. by rewrite bool_decide_eq_true_2. }
  assert (Hdef : eq_deficiencies r.2 =
                 <[defId := Deficiency.set_resolved user (date_of now)
                               Resolved_text OLD]> (eq_deficiencies st)).
  { rewrite Hr. unfold update_equipment_on_deficiency.
    destruct (_ && _); [|done].
    destruct (negb _); [|done].
    by destruct (has_open_checkout _ _). }
  split.
  - intros _. eexists. rewrite Hdef, lookup_insert_eq. done.
  - intros Hres. repeat split.
    + eexists. rewrite Hdef, lookup_insert_eq. done.
    + rewrite Hr. unfold update_equipment_on_deficiency.
      rewrite (bool_decide_eq_false_2 (Deficiency.status OLD = pending))
        by congruence.
      by rewrite andb_false_r.
Qed.

(** An instance: the chair resolves the mower's deficiency, then
    submits the resolution again the next day. *)
Lemma resolveDeficiency_effect_witness :
  (∃ NEW, eq_deficiencies
            (resolveDeficiency (Some 1%nat) 1 200 day2_noon mower_out_broken).2
          !! 200%nat = Some NEW
          ∧ Deficiency.status NEW = resolved
          ∧ Deficiency.resolved_by NEW = Some 1%nat
          ∧ Deficiency.resolved_date NEW = Some (date_of day2_noon))
  ∧ eq_equipment
      (resolveDeficiency (Some 1%nat) 1 200 day3_noon mower_out_repaired).2
    = eq_equipment mower_out_repaired.
Proof.
  split.
  - apply (resolveDeficiency_effect mower_out_broken (Some 1%nat) 1 200
             day2_noon
             (new_deficiency 1 None 42 (text "blade loose") major day1_noon)).
    + vm_compute. reflexivity.
    + vm_compute. reflexivity.
    + vm_compute. eauto.
    + reflexivity.
  - apply (resolveDeficiency_effect mower_out_repaired (Some 1%nat) 1 200
             day3_noon
             (Deficiency.set_resolved 1 (date_of day2_noon) Resolved_text
                (new_deficiency 1 None 42 (text "blade loose") major day1_noon))).
    + vm_compute. reflexivity.
    + vm_compute. reflexivity.
    + vm_compute. eauto.
    + reflexivity.
Defined.

(** ** C7: actors without the capability *)

(** The update policy on deficiencies and the gate of the "Mark Resolved"
    button test the same thing. *)
Lemma is_admin_or_chair_isAdmin st u :
  is_admin_or_chair st (Some u) = true ↔
  ∃ usr, users st !! u = Some usr ∧ isAdmin usr = true.
Proof.
  unfold is_admin_or_chair, isAdmin.
  destruct (users st !! u) as [usr|]; [|split; [done | by intros (? & ? & _)]].
  split.
  - intros H. exists usr. split; [done|]. by destruct (User.role usr).
  - intros (usr' & [= <-] & H). by destruct (User.role usr).
Qed.

(** Whoever types the chair's member number into the member form is
    logged in as the chair, without any sign-in. *)
Example member_login_as_chair :
  handleMemberLogin (text "1") mower_out_broken = Some (1%nat, the_chair)
  ∧ isAdmin the_chair = true
  ∧ handleMemberLogin (text "99") mower_out_broken = None.
Proof. repeat split; vm_compute; reflexivity. Qed.

(** C7, as the specification states it, fails: a deficiency resolution
    by an actor without the capability is not rejected with an error.
    After a member login with the chair's member number the interface
    offers "Mark Resolved", while the database session has no identity; the
    update policy hides the row, the request changes nothing and reports no
    error, and [resolveDeficiency] ends with its success notification. *)
Lemma unauthorized_resolve_not_rejected :
  is_admin_or_chair mower_out_broken None = false
  ∧ resolveDeficiency None 1 200 day2_noon mower_out_broken
    = (Notified Notification.success, mower_out_broken)
  ∧ rejected (resolveDeficiency None 1 200 day2_noon mower_out_broken).1
    = false.
Proof. repeat split. Qed.

(** C7 (amended): an actor without the capability changes nothing in the
    store.  Without a signed-in identity (the case in which [canCheckOut]
    is false) a checkout and a deficiency report are refused by the
    insert policies with an error, which [handleCheckout] shows as an error
    notification.  A deficiency resolution by an identity that is neither
    chair nor admin matches no row: the store is unchanged and no error is
    raised. *)
Theorem unauthorized_leaves_store st :
  (∀ id row now, insert_checkout None id row now st = (db_error, st))
  ∧ (∀ user sel form id now,
       (handleCheckout None user sel form id now st).2 = st
       ∧ rejected (handleCheckout None user sel form id now st).1 = true)
  ∧ (∀ user eid E form id now,
       Equipment.status E = available →
       handleCheckout None user (Some (eid, E)) form id now st
       = (Notified Notification.error, st))
  ∧ (∀ id row now, insert_deficiency None id row now st = (db_error, st))
  ∧ (∀ user sel cl form id now,
       (handleReturn None user sel cl form id now st).2 = st)
  ∧ (∀ auth user defId d n now,
       is_admin_or_chair st auth = false →
       update_deficiency_resolved auth defId user d n now st = (db_ok, st)
       ∧ (resolveDeficiency auth user defId now st).2 = st).
Proof.
  assert (Hco : ∀ id row now, insert_checkout None id row now st = (db_error, st)).
  { intros. unfold insert_checkout, policy_checkouts_insert.
    by rewrite bool_decide_eq_false_2. }
  assert (Hdef : ∀ id row now, insert_deficiency None id row now st = (db_error, st)).
  { intros. unfold insert_deficiency, policy_deficiencies_insert.
    by rewrite bool_decide_eq_false_2. }
  assert (Hupd : ∀ id d c now, update_checkout_return None id d c now st = (db_ok, st)).
  { intros. unfold update_checkout_return, policy_checkouts_update.
    destruct (eq_checkouts st !! id); [|done].
    by rewrite bool_decide_eq_false_2. }
  assert (Hres : ∀ auth defId user d n now,
             is_admin_or_chair st auth = false →
             update_deficiency_resolved auth defId user d n now st = (db_ok, st)).
  { intros auth defId user d n now Hno.
    unfold update_deficiency_resolved, policy_deficiencies_update.
    rewrite Hno. by destruct (eq_deficiencies st !! defId). }
  split; [exact Hco|].
  split.
  { intros user sel form id now. unfold handleCheckout.
    destruct sel as [[eid E]|]; [|done].
    case_bool_decide; [done|]. by rewrite Hco. }
  split.
  { intros user eid E form id now Hs. unfold handleCheckout.
    rewrite bool_decide_eq_false_2 by (by intros ?). by rewrite Hco. }
  split; [exact Hdef|].
  split.
  { intros user sel cl form id now. unfold handleReturn.
    destruct sel as [[eid E]|]; [|done].
    destruct (find_active_checkout eid cl) as [[cid c]|]; [|done].
    rewrite Hupd. cbn [snd]. destruct (_ && _); [|done]. by rewrite Hdef. }
  intros auth user defId d n now Hno. split; [by apply Hres|].
  unfold resolveDeficiency. simpl. by rewrite Hres.
Qed.

(** An instance: a signed-in volunteer's resolution of the mower's
    deficiency. *)
Lemma unauthorized_leaves_store_witness :
  update_deficiency_resolved (Some 42%nat) 200 42 (date_of day2_noon)
    Resolved_text day2_noon mower_out_broken = (db_ok, mower_out_broken)
  ∧ (resolveDeficiency (Some 42%nat) 42 200 day2_noon mower_out_broken).2
    = mower_out_broken.
Proof.
  apply (unauthorized_leaves_store mower_out_broken).
  vm_compute. reflexivity.
Defined.

(* ================================================================== *)
(** * Part III: properties of the queries                              *)
(* ================================================================== *)

(** ** Day arithmetic *)

Lemma MS_PER_DAY_pos : 0 < MS_PER_DAY.
Proof. reflexivity. Qed.

Lemma differenceInDays_midnights a b :
  differenceInDays (Some (a * MS_PER_DAY)) (Some (b * MS_PER_DAY))
  = Some (a - b).
Proof.
  unfold differenceInDays. rewrite <- Z.mul_sub_distr_r. f_equal.
  apply Z.quot_mul. discriminate.
Qed.

Lemma parseISO_readable d :
  readable d = true → parseISO d = Some (d * MS_PER_DAY).
Proof. unfold parseISO. by intros ->. Qed.

Lemma parseISO_unreadable d : readable d = false → parseISO d = None.
Proof. unfold parseISO. by intros ->. Qed.

Lemma startOfDay_parseISO d :
  readable d = true → startOfDay <$> parseISO d = Some (d * MS_PER_DAY).
Proof.
  intros Hd. rewrite parseISO_readable by done. simpl. f_equal.
  unfold startOfDay, date_of. by rewrite Z.div_mul.
Qed.

Lemma addDays_parseISO d i :
  readable d = true → addDays (parseISO d) i = Some ((d + i) * MS_PER_DAY).
Proof.
  intros Hd. rewrite parseISO_readable by done. unfold addDays. simpl.
  f_equal. lia.
Qed.

(** Midnight of day [n] is before [now] only if [n] is at most today. *)
Lemma midnight_past_le n now : n * MS_PER_DAY < now → n ≤ date_of now.
Proof.
  intros H. unfold date_of. apply Z.div_le_lower_bound; [reflexivity|lia].
Qed.

(** Midnight of a day before today is before [now]. *)
Lemma midnight_before_today n now : n < date_of now → n * MS_PER_DAY < now.
Proof.
  unfold date_of. intros H.
  pose proof (Z.mul_div_le now MS_PER_DAY MS_PER_DAY_pos) as Hle.
  assert (n + 1 ≤ now / MS_PER_DAY) as H1 by lia.
  apply (Z.mul_le_mono_nonneg_r _ _ MS_PER_DAY) in H1; [|done].
  unfold MS_PER_DAY in *. lia.
Qed.

(** ** The sort *)

Section Sort.
Context {A : Type} (compareFn : A → A → Z).

Lemma sort_insert_perm x l : Permutation (sort_insert compareFn x l) (x :: l).
Proof.
  induction l as [|y l IH]; simpl; [done|].
  destruct (compareFn x y <=? 0); [done|].
  rewrite IH. apply perm_swap.
Qed.

Lemma js_sort_perm l : Permutation (js_sort compareFn l) l.
Proof.
  induction l as [|x l IH]; simpl; [done|].
  fold (js_sort compareFn l). by rewrite sort_insert_perm, IH.
Qed.

(** Elements that the comparator never puts apart keep their order. *)
Lemma sort_insert_stable (P : A → bool) x l :
  (∀ a b, P a = true → P b = true → compareFn a b ≤ 0) →
  List.filter P (sort_insert compareFn x l) = List.filter P (x :: l).
Proof.
  intros Htie. induction l as [|y l IH]; [done|]. simpl.
  destruct (compareFn x y <=? 0) eqn:Hc; [done|].
  apply Z.leb_gt in Hc. simpl. rewrite IH. simpl.
  destruct (P x) eqn:Hx, (P y) eqn:Hy; try done.
  specialize (Htie x y Hx Hy). lia.
Qed.

Lemma js_sort_stable (P : A → bool) l :
  (∀ a b, P a = true → P b = true → compareFn a b ≤ 0) →
  List.filter P (js_sort compareFn l) = List.filter P l.
Proof.
  intros Htie. induction l as [|x l IH]; [done|]. simpl.
  fold (js_sort compareFn l). rewrite sort_insert_stable by done.
  simpl. by rewrite IH.
Qed.

Hypothesis total : ∀ a b, 0 < compareFn a b → compareFn b a ≤ 0.
Hypothesis trans :
  ∀ a b c, compareFn a b ≤ 0 → compareFn b c ≤ 0 → compareFn a c ≤ 0.

Lemma sort_insert_sorted x l :
  StronglySorted (λ a b, compareFn a b ≤ 0) l →
  StronglySorted (λ a b, compareFn a b ≤ 0) (sort_insert compareFn x l).
Proof.
  induction 1 as [|y l Hs IH Hy]; simpl.
  - constructor; constructor.
  - destruct (compareFn x y <=? 0) eqn:Hc.
    + apply Z.leb_le in Hc. constructor; [by constructor|].
      constructor; [done|].
      rewrite List.Forall_forall in Hy |- *. intros z Hz. eauto.
    + apply Z.leb_gt in Hc. constructor; [done|].
      rewrite List.Forall_forall in Hy |- *. intros z Hz.
      apply (Permutation_in _ (sort_insert_perm x l)) in Hz.
      destruct Hz as [<-|Hz]; [by apply total | by apply Hy].
Qed.

Lemma js_sort_sorted l :
  StronglySorted (λ a b, compareFn a b ≤ 0) (js_sort compareFn l).
Proof.
  induction l as [|x l IH]; simpl; [constructor|].
  by apply sort_insert_sorted.
Qed.
End Sort.

Lemma StronglySorted_weaken {A} (R S : A → A → Prop) l :
  (∀ a b, R a b → S a b) → StronglySorted R l → StronglySorted S l.
Proof.
  intros HRS. induction 1 as [|x l Hs IH Hx]; constructor; [done|].
  eapply List.Forall_impl; [|exact Hx]. intros y. apply HRS.
Qed.

(** ** C8: overdue checkouts *)

(** What the filter of [getOverdueCheckouts] keeps: an open checkout
    whose expected-return day is read and has begun before [now]. *)
Lemma overdue_filter_true now c :
  overdue_filter now c = true ↔
  Checkout.return_date c.2 = None
  ∧ ∃ d, Checkout.expected_return c.2 = Some d ∧ readable d = true
         ∧ d * MS_PER_DAY < now.
Proof.
  unfold overdue_filter.
  destruct (Checkout.return_date c.2); [split; [done | by intros [? _]]|].
  destruct (Checkout.expected_return c.2) as [d|].
  - cbv zeta. destruct (readable d) eqn:Hd.
    + rewrite startOfDay_parseISO by done. unfold isPast. rewrite Z.ltb_lt.
      split.
      * intros H. split; [done|]. by exists d.
      * by intros (_ & d' & [= <-] & _ & H).
    + rewrite parseISO_unreadable by done. simpl. split; [done|].
      intros (_ & d' & [= <-] & Hd' & _). congruence.
  - split; [done | by intros (_ & d & ? & _)].
Qed.

(** Of the checkouts whose expected-return day is read, the filter
    keeps every one the specification calls overdue, and also those due on
    the day of [now]; it keeps none whose day is not read. *)
Lemma overdue_filter_vs_spec now c :
  overdue_filter now c =
  (overdue_spec now c
   || bool_decide (Checkout.return_date c.2 = None
                   ∧ Checkout.expected_return c.2 = Some (date_of now)
                   ∧ date_of now * MS_PER_DAY < now))
  && from_option readable true (Checkout.expected_return c.2).
Proof.
  apply bool_eq_iff.
  rewrite overdue_filter_true, andb_true_iff, orb_true_iff, bool_decide_eq_true.
  unfold overdue_spec.
  destruct (Checkout.return_date c.2) as [r|].
  { split; [by intros [? _] | by intros [[?|[? _]] _]]. }
  destruct (Checkout.expected_return c.2) as [d|]; simpl.
  - rewrite Z.ltb_lt. split.
    + intros (_ & d' & [= <-] & Hd & Hlt). split; [|done].
      pose proof (midnight_past_le _ _ Hlt) as Hle.
      destruct (decide (d = date_of now)) as [->|Hne]; [by right|].
      left. lia.
    + intros [[Hlt|(_ & [= ->] & Hlt)] Hd]; (split; [done|]); eexists;
        (split; [done|]); (split; [done|]); [|done].
      by apply midnight_before_today.
  - split; [by intros (_ & d & ? & _) | by intros [[?|(_ & ? & _)] _]].
Qed.

(** C8: the code departs from the claim.  At noon of day 20000 a
    checkout due back on day 20000 is not overdue by the specification
    (its date is not strictly before today's), but [getOverdueCheckouts]
    returns it, with 0 days overdue. *)
Theorem overdue_includes_due_today :
  overdue_spec day0_noon due_today = false
  ∧ getOverdueCheckouts [due_today] day0_noon = [Overdue.mk due_today 0].
Proof. split; vm_compute; reflexivity. Qed.

(** The rest of the claim holds of the code: the result lists the kept
    checkouts, each with the whole days between its expected-return day and
    today, most overdue first, checkouts with equally many days in the
    order of the input. *)
Lemma getOverdueCheckouts_sorted_stable checkouts now :
  Permutation (map Overdue.checkout (getOverdueCheckouts checkouts now))
    (List.filter (overdue_filter now) checkouts)
  ∧ StronglySorted (λ a b, Overdue.daysOverdue b ≤ Overdue.daysOverdue a)
      (getOverdueCheckouts checkouts now)
  ∧ Forall (λ r, ∃ d, Checkout.expected_return (Overdue.checkout r).2 = Some d
                      ∧ Overdue.daysOverdue r = date_of now - d)
      (getOverdueCheckouts checkouts now)
  ∧ ∀ k, List.filter (λ r, Overdue.daysOverdue r =? k)
           (getOverdueCheckouts checkouts now)
         = List.filter (λ r, Overdue.daysOverdue r =? k)
             (map (overdue_map (startOfDay now))
                (List.filter (overdue_filter now) checkouts)).
Proof.
  unfold getOverdueCheckouts.
  set (l := map _ (List.filter _ checkouts)).
  assert (Hl : Forall (λ r, ∃ d, Checkout.expected_return (Overdue.checkout r).2
                                   = Some d
                                 ∧ Overdue.daysOverdue r = date_of now - d) l).
  { unfold l. rewrite List.Forall_forall. intros r Hr.
    apply in_map_iff in Hr as (c & <- & Hc).
    apply filter_In in Hc as [_ Hc].
    apply overdue_filter_true in Hc as (_ & d & Hd & Hread & _).
    exists d. split; [done|]. unfold overdue_map.
    cbn [Overdue.checkout Overdue.daysOverdue]. rewrite Hd.
    rewrite parseISO_readable by done. unfold startOfDay.
    by rewrite differenceInDays_midnights. }
  repeat split.
  - rewrite (Permutation_map Overdue.checkout (js_sort_perm overdue_compare l)).
    unfold l. rewrite map_map. simpl. by rewrite map_id.
  - apply (StronglySorted_weaken (λ a b, overdue_compare a b ≤ 0)).
    + intros a b. unfold overdue_compare. lia.
    + apply js_sort_sorted.
      * intros a b. unfold overdue_compare. lia.
      * intros a b c. unfold overdue_compare. lia.
  - rewrite List.Forall_forall in Hl |- *. intros r Hr. apply Hl.
    by apply (Permutation_in _ (js_sort_perm overdue_compare l)).
  - intros k. apply js_sort_stable. intros a b Ha Hb.
    apply Z.eqb_eq in Ha, Hb. unfold overdue_compare. lia.
Qed.

(** ** C9: maintenance due *)

Lemma no_interval_false c i :
  MAINTENANCE_INTERVALS c = Some i → no_interval (Some i) = false.
Proof. destruct c; intros [= <-]; reflexivity. Qed.

(** The filter of [getMaintenanceDue] is the rule of the specification
    on the items whose last maintenance is absent or a day that is read,
    and keeps no other item. *)
Lemma due_filter_spec now eq :
  due_filter now (startOfDay now) eq
  = due_spec now eq && readable_maintenance eq.
Proof.
  unfold due_filter, due_spec, readable_maintenance.
  destruct (MAINTENANCE_INTERVALS (Equipment.category eq.2)) as [i|] eqn:Hi;
    [|done].
  rewrite (no_interval_false _ _ Hi).
  destruct (Equipment.last_maintenance eq.2) as [d|]; [|done].
  cbv zeta. destruct (readable d) eqn:Hd.
  - rewrite addDays_parseISO by done. unfold startOfDay.
    rewrite differenceInDays_midnights. unfold isPast, at_most.
    rewrite andb_true_r. apply bool_eq_iff.
    rewrite orb_true_iff, Z.ltb_lt, !Z.leb_le. split.
    + intros [H|H]; [apply midnight_past_le in H|]; lia.
    + intros H. right. lia.
  - rewrite parseISO_unreadable by done. simpl. by rewrite andb_false_r.
Qed.

Lemma due_map_item today eq : Due.item (due_map today eq) = eq.
Proof.
  unfold due_map.
  by destruct (Equipment.last_maintenance eq.2),
       (MAINTENANCE_INTERVALS (Equipment.category eq.2)).
Qed.

(** The comparator orders by "never maintained" first, then by days past
    due, descending. *)
Lemma due_compare_le a b :
  due_compare a b ≤ 0 ↔
  (Due.neverMaintained a = true ∧ Due.neverMaintained b = false)
  ∨ (Due.neverMaintained a = Due.neverMaintained b
     ∧ default 0 (Due.daysPastDue b) ≤ default 0 (Due.daysPastDue a)).
Proof.
  unfold due_compare.
  destruct (Due.neverMaintained a), (Due.neverMaintained b); simpl;
    intuition (try discriminate; try lia).
Qed.

(** C9, as the specification states it, fails: an item whose
    [last_maintenance] is a day that [parseISO] does not read -- here the
    last day before year 1, which the DATE column admits -- is long past
    due by the rule, and [getMaintenanceDue] drops it. *)
Lemma unreadable_maintenance_dropped :
  let old_mower :=
    (2%nat, Equipment.mk (text "EQ002") (text "Push Mower") Grounds None
              available (Some (FIRST_DAY - 1)) None 0) in
  due_spec day0_noon old_mower = true
  ∧ getMaintenanceDue [old_mower] day0_noon = [].
Proof. split; vm_compute; reflexivity. Qed.

(** C9 (amended): [getMaintenanceDue] returns exactly the items whose
    category has an interval (Grounds 90, Tools 180, Cleaning 90,
    Electrical 365, Shop 180, Range 90 days; Events and Other have none)
    and that were never maintained, or whose last maintenance is a day of
    the years 0001 to 9999 and whose next due day, last maintenance plus
    the interval, is past or at most 14 days ahead; an item whose last
    maintenance is a day outside those years is never returned.
    Never-maintained items come first, then the others by days past due,
    descending. *)
Theorem getMaintenanceDue_spec equipment now :
  Permutation (map Due.item (getMaintenanceDue equipment now))
    (List.filter (λ eq, due_spec now eq && readable_maintenance eq) equipment)
  ∧ StronglySorted due_before (getMaintenanceDue equipment now)
  ∧ Forall (λ r,
        Due.neverMaintained r
        = bool_decide (Equipment.last_maintenance (Due.item r).2 = None)
        ∧ readable_maintenance (Due.item r) = true
        ∧ Due.daysPastDue r
          = (λ n, date_of now - n) <$> next_due_day (Due.item r))
      (getMaintenanceDue equipment now)
  ∧ MAINTENANCE_INTERVALS Grounds = Some 90
  ∧ MAINTENANCE_INTERVALS Tools = Some 180
  ∧ MAINTENANCE_INTERVALS Cleaning = Some 90
  ∧ MAINTENANCE_INTERVALS Electrical = Some 365
  ∧ MAINTENANCE_INTERVALS Events = None
  ∧ MAINTENANCE_INTERVALS Shop = Some 180
  ∧ MAINTENANCE_INTERVALS Range = Some 90
  ∧ MAINTENANCE_INTERVALS Other = None.
Proof.
  unfold getMaintenanceDue.
  set (kept := List.filter _ equipment).
  set (l := map _ kept).
  assert (Hkept : kept = List.filter
                    (λ eq, due_spec now eq && readable_maintenance eq)
                    equipment).
  { unfold kept. apply filter_ext. intros eq. apply due_filter_spec. }
  split; [|split; [|split; [|by repeat split]]].
  - rewrite (Permutation_map Due.item (js_sort_perm due_compare l)).
    unfold l. rewrite map_map, <- Hkept.
    rewrite (map_ext _ (λ x, x)); [by rewrite map_id|].
    intros eq. apply due_map_item.
  - apply (StronglySorted_weaken (λ a b, due_compare a b ≤ 0)).
    + intros a b. rewrite due_compare_le. unfold due_before.
      destruct (Due.neverMaintained a), (Due.neverMaintained b);
        intuition discriminate.
    + apply js_sort_sorted.
      * intros a b Hab.
        assert (¬ due_compare a b ≤ 0) as Hn by lia.
        rewrite due_compare_le in Hn |- *.
        destruct (Due.neverMaintained a), (Due.neverMaintained b);
          intuition (try discriminate; try lia).
      * intros a b c. rewrite !due_compare_le.
        destruct (Due.neverMaintained a), (Due.neverMaintained b),
          (Due.neverMaintained c); intuition (try discriminate; try lia).
  - rewrite List.Forall_forall. intros r Hr.
    apply (Permutation_in _ (js_sort_perm due_compare l)) in Hr.
    unfold l in Hr. apply in_map_iff in Hr as (eq & <- & Hin).
    rewrite Hkept in Hin. apply filter_In in Hin as [_ Hin].
    apply andb_true_iff in Hin as [_ Hread].
    rewrite due_map_item. split; [|split; [done|]].
    + unfold due_map.
      by destruct (Equipment.last_maintenance eq.2),
           (MAINTENANCE_INTERVALS (Equipment.category eq.2)).
    + unfold due_map, next_due_day. unfold readable_maintenance in Hread.
      destruct (Equipment.last_maintenance eq.2) as [d|] eqn:Hd;
        destruct (MAINTENANCE_INTERVALS (Equipment.category eq.2)) as [i|]
          eqn:Hi; simpl; try done.
      rewrite Hread, addDays_parseISO by done. unfold startOfDay.
      simpl. f_equal. rewrite <- Z.mul_sub_distr_r.
      apply Z.quot_mul. discriminate.
Qed.

(** A sample: the mower was never maintained, the generator was
    maintained 360 days ago (due in 5 days), a second mower 100 days ago
    (10 days past due), a drill 10 days ago (not due), tables are exempt. *)
Example getMaintenanceDue_sample :
  let eqs :=
    [ (7%nat, Equipment.mk (text "EQ007") (text "Generator") Electrical None
                available (Some 19640) None 0);
      (8%nat, Equipment.mk (text "EQ008") (text "Folding Tables") Events None
                available None None 0);
      (2%nat, Equipment.mk (text "EQ002") (text "Push Mower") Grounds None
                available (Some 19900) None 0);
      (3%nat, Equipment.mk (text "EQ003") (text "Drill") Tools None
                available (Some 19990) None 0);
      (1%nat, EQ001) ] in
  map (λ r, ((Due.item r).1, Due.daysPastDue r)) (getMaintenanceDue eqs day0_noon)
  = [ (1%nat, None); (2%nat, Some 10); (7%nat, Some (-5)) ].
Proof. vm_compute. reflexivity. Qed.

(* ================================================================== *)
(** * Part IV: the CSV export                                          *)
(* ================================================================== *)

Lemma includes_cons ch x v :
  includes ch (x :: v) = Ascii.eqb ch x || includes ch v.
Proof. reflexivity. Qed.

Lemma includes_true ch v : includes ch v = true ↔ In ch v.
Proof.
  unfold includes. rewrite existsb_exists. split.
  - intros (x & Hx & Heq). apply Ascii.eqb_eq in Heq. by subst.
  - intros H. exists ch. split; [done|]. apply Ascii.eqb_refl.
Qed.

Lemma needs_quoting_true v :
  needs_quoting v = true ↔ In comma v ∨ In dquote v ∨ In newline v.
Proof.
  unfold needs_quoting. rewrite !orb_true_iff, !includes_true. tauto.
Qed.

(** A character of a value that needs no quoting is no separator and no
    quote. *)
Lemma needs_quoting_cons_false x v :
  needs_quoting (x :: v) = false →
  Ascii.eqb x dquote = false ∧ Ascii.eqb x comma = false
  ∧ Ascii.eqb x newline = false ∧ needs_quoting v = false.
Proof.
  unfold needs_quoting. rewrite !includes_cons.
  rewrite (Ascii.eqb_sym comma), (Ascii.eqb_sym dquote), (Ascii.eqb_sym newline).
  destruct (Ascii.eqb x comma), (Ascii.eqb x dquote), (Ascii.eqb x newline);
    simpl; rewrite ?orb_true_r; try done.
Qed.

Section Reader.
Implicit Types (v field rest : str) (row : list str).

Lemma parse_unquoted v : ∀ field row rest,
  needs_quoting v = false → at_separator rest →
  parse Unquoted field row (v ++ rest) = after_field (field ++ v) row rest.
Proof.
  induction v as [|x v IH]; intros field row rest Hv Hrest.
  - rewrite app_nil_r. simpl. destruct rest as [|ch s']; [done|].
    simpl in Hrest. by destruct Hrest as [->| ->].
  - apply needs_quoting_cons_false in Hv as (Hq & Hc & Hn & Hv).
    simpl. rewrite Hq, Hc, Hn, IH by done.
    by rewrite <- app_assoc.
Qed.

Lemma parse_plain v row rest :
  needs_quoting v = false → at_separator rest →
  parse FieldStart [] row (v ++ rest) = after_field v row rest.
Proof.
  intros Hv Hrest. destruct v as [|x v].
  - simpl. destruct rest as [|ch s']; [done|].
    simpl in Hrest. by destruct Hrest as [->| ->].
  - apply needs_quoting_cons_false in Hv as (Hq & Hc & Hn & Hv).
    simpl. rewrite Hq, Hc, Hn. by apply parse_unquoted.
Qed.

Lemma parse_quoted v : ∀ field row rest,
  at_separator rest →
  parse Quoted field row (replace_quotes v ++ dquote :: rest)
  = after_field (field ++ v) row rest.
Proof.
  induction v as [|x v IH]; intros field row rest Hrest.
  - rewrite app_nil_r. simpl. destruct rest as [|ch s']; [done|].
    simpl in Hrest. by destruct Hrest as [->| ->].
  - simpl. destruct (Ascii.eqb x dquote) eqn:Hx.
    + apply Ascii.eqb_eq in Hx as ->. simpl.
      rewrite IH by done. by rewrite <- app_assoc.
    + simpl. rewrite Hx, IH by done. by rewrite <- app_assoc.
Qed.

(** A cell written by the export reads back as the value it was written
    from. *)
Lemma parse_csv_value (o : option str) row rest :
  at_separator rest →
  parse FieldStart [] row (csv_value o ++ rest)
  = after_field (default [] o) row rest.
Proof.
  intros Hrest. unfold csv_value.
  destruct (needs_quoting (default [] o)) eqn:Hq.
  - rewrite <- !app_assoc. simpl. by apply (parse_quoted _ []).
  - by apply parse_plain.
Qed.

(** The text after a record is empty or starts with a newline. *)
Lemma parse_record (fields : list (option str)) : ∀ row rest,
  fields ≠ [] →
  (rest = [] ∨ ∃ s', rest = newline :: s') →
  parse FieldStart [] row (join [comma] (map csv_value fields) ++ rest)
  = match rest with
    | [] => Some [row ++ map (default []) fields]
    | _ :: s' =>
        cons (row ++ map (default []) fields) <$> parse FieldStart [] [] s'
    end.
Proof.
  induction fields as [|o fields IH]; intros row rest Hne Hrest; [done|].
  destruct fields as [|o' fields].
  - simpl. rewrite parse_csv_value.
    + by destruct Hrest as [->|[s' ->]].
    + destruct Hrest as [->|[s' ->]]; simpl; auto.
  - change (join [comma] (map csv_value (o :: o' :: fields)))
      with (csv_value o ++ [comma] ++ join [comma] (map csv_value (o' :: fields))).
    rewrite <- !app_assoc. rewrite parse_csv_value by (simpl; auto).
    simpl after_field. rewrite IH by done.
    change (map (default []) (o :: o' :: fields))
      with ([default [] o] ++ map (default []) (o' :: fields)).
    by rewrite !app_assoc.
Qed.

Lemma parse_records (records : list (list (option str))) :
  records ≠ [] →
  Forall (λ fields, fields ≠ []) records →
  parse_csv (join [newline] (map (λ fields, join [comma] (map csv_value fields))
                               records))
  = Some (map (map (default [])) records).
Proof.
  unfold parse_csv.
  induction records as [|r records IH]; intros Hne Hall; [done|].
  apply Forall_cons in Hall as [Hr Hall].
  destruct records as [|r' records].
  - simpl. rewrite <- (app_nil_r (join _ _)).
    rewrite parse_record; auto.
  - change (join [newline] (map ?f (r :: r' :: records)))
      with (f r ++ [newline] ++ join [newline] (map f (r' :: records))).
    cbv beta. change ([newline] ++ ?x) with (newline :: x).
    rewrite parse_record; [|done|right; eauto].
    cbv iota. rewrite IH by done. done.
Qed.
End Reader.

Lemma csv_value_plain v : needs_quoting v = false → csv_value (Some v) = v.
Proof. unfold csv_value. simpl. by intros ->. Qed.

(** With unquoted headers that need no quoting, the text is a sequence of
    records written cell by cell. *)
Lemma exportToCSV_records {A} (data : list A) (columns : list (Column.t A)) :
  Forall (λ c, needs_quoting (Column.header c) = false) columns →
  exportToCSV data columns
  = join [newline]
      (map (λ fields, join [comma] (map csv_value fields))
         (map (λ c, Some (Column.header c)) columns
          :: map (λ row, map (λ c, Column.accessor c row) columns) data)).
Proof.
  intros Hplain. unfold exportToCSV. f_equal. rewrite map_cons. f_equal.
  - f_equal. rewrite map_map. apply map_ext_in. intros c Hc.
    rewrite List.Forall_forall in Hplain. symmetry.
    by apply csv_value_plain, Hplain.
  - rewrite map_map. apply map_ext. intros row. by rewrite map_map.
Qed.

(** C10, as the specification states it, fails: the headers are written
    as they are, never quoted.  One record exported under a header that
    holds a newline reads back as three rows, under a header that holds a
    quote it does not read back at all, and with no column the rows read
    back hold a field that no accessor gave. *)
Lemma csv_header_written_verbatim :
  let name h := [Column.mk h (λ r : nat * Equipment.t,
                                Some (Equipment.name r.2))] in
  parse_csv (exportToCSV [(1%nat, EQ001)]
               (name (text "Name" ++ [newline] ++ text "of item")))
  = Some [ [text "Name"]; [text "of item"];
           [text "John Deere Riding Mower"] ]
  ∧ parse_csv (exportToCSV [(1%nat, EQ001)]
                 (name (text "Name " ++ [dquote] ++ text "short" ++ [dquote])))
    = None
  ∧ parse_csv (exportToCSV [(1%nat, EQ001)] []) = Some [ [[]]; [[]] ].
Proof. repeat split; vm_compute; reflexivity. Qed.

(** C10 (amended): for columns (at least one) whose headers hold no
    comma, quote or newline, the
    text of [exportToCSV] reads back, under the quoting rules, as the
    header row followed by one record per data row, every field being the
    value of its accessor (the empty text for [null]); and a value is
    written between quotes, its quotes doubled, exactly when it holds a
    comma, a quote or a newline. *)
Theorem csv_round_trip {A} (data : list A) (columns : list (Column.t A)) :
  columns ≠ [] →
  Forall (λ c, needs_quoting (Column.header c) = false) columns →
  (∀ v, (In comma v ∨ In dquote v ∨ In newline v →
         csv_value (Some v) = [dquote] ++ replace_quotes v ++ [dquote])
        ∧ (¬ (In comma v ∨ In dquote v ∨ In newline v) →
           csv_value (Some v) = v))
  ∧ ∃ records,
      parse_csv (exportToCSV data columns)
      = Some (map Column.header columns :: records)
      ∧ List.length records = List.length data
      ∧ records
        = map (λ row, map (λ c, default [] (Column.accessor c row)) columns)
            data.
Proof.
  intros Hcols Hplain. split.
  - intros v. rewrite <- needs_quoting_true. unfold csv_value. simpl. split.
    + by intros ->.
    + intros Hn. apply not_true_is_false in Hn. by rewrite Hn.
  - eexists. split; [|split; [|reflexivity]]; [|by rewrite List.length_map].
    rewrite exportToCSV_records by done.
    rewrite parse_records.
    + simpl. f_equal. f_equal.
      * by rewrite map_map.
      * rewrite map_map. apply map_ext. intros row. by rewrite map_map.
    + done.
    + constructor.
      * by destruct columns.
      * rewrite List.Forall_forall. intros fields Hf.
        apply in_map_iff in Hf as (row & <- & _). by destruct columns.
Qed.

(** An instance: two equipment rows, one with a quote in its name and a
    comma and a newline in its notes. *)
Lemma csv_round_trip_witness :
  parse_csv (exportToCSV [(1%nat, EQ001); (3%nat, EQ003)] equipment_columns)
  = Some
      [ [text "Code"; text "Name"; text "Location"; text "Notes"];
        [text "EQ001"; text "John Deere Riding Mower"; text "Shed A";
         text "New blade installed Nov 2024"];
        [text "EQ003"; text "Chainsaw - Stihl 18" ++ [dquote];
         text "Tool Room";
         text "Chain sharpened, oiled" ++ [newline] ++ text "ok"] ].
Proof.
  destruct (csv_round_trip [(1%nat, EQ001); (3%nat, EQ003)] equipment_columns)
    as (_ & records & Hparse & _ & ->).
  - discriminate.
  - vm_compute. repeat constructor.
  - exact Hparse.
Defined.

(** The text itself, for the chainsaw row. *)
Example exportToCSV_sample :
  exportToCSV [(3%nat, EQ003)] equipment_columns
  = text "Code,Name,Location,Notes" ++ [newline]
    ++ text "EQ003," ++ [dquote] ++ text "Chainsaw - Stihl 18"
    ++ [dquote; dquote; dquote] ++ text ",Tool Room,"
    ++ [dquote] ++ text "Chain sharpened, oiled" ++ [newline] ++ text "ok"
    ++ [dquote].
Proof. vm_compute. reflexivity. Qed.

(** Every export of the application has at least one column, and none of
    its headers needs quoting. *)
Example export_headers_plain :
  Forall (λ headers, headers ≠ [] ∧ Forall (λ h, needs_quoting h = false) headers)
    export_headers.
Proof. repeat constructor; discriminate. Qed.

(* ================================================================== *)
(** * Part V: the rest of the application                              *)
(* ================================================================== *)

(** ** Decimal texts *)

Lemma digit_of_digit_char d : (d < 10)%N → digit_of (digit_char d) = Some d.
Proof.
  intros Hd.
  assert (d = 0 ∨ d = 1 ∨ d = 2 ∨ d = 3 ∨ d = 4 ∨ d = 5 ∨ d = 6 ∨ d = 7
          ∨ d = 8 ∨ d = 9)%N as H by lia.
  repeat destruct H as [->|H]; try subst d; reflexivity.
Qed.

Lemma digits_value_app a s t :
  digits_value a (s ++ t) = digits_value a s ≫= λ v, digits_value v t.
Proof.
  revert a. induction s as [|ch s IH]; intros a; simpl; [done|].
  destruct (digit_of ch); [apply IH | done].
Qed.

(** Reading the decimal text of a number gives the number back. *)
Lemma digits_value_decimal_aux fuel : ∀ n acc,
  (n < 10 ^ N.of_nat fuel)%N →
  digits_value 0 (decimal_aux fuel n acc) = digits_value n acc.
Proof.
  induction fuel as [|fuel IH]; intros n acc Hn.
  - simpl in *. by replace n with 0%N by lia.
  - simpl decimal_aux.
    assert (Hmod : (n mod 10 < 10)%N) by (apply N.mod_lt; lia).
    pose proof (N.div_mod n 10 ltac:(lia)) as Hdm.
    destruct (n / 10 =? 0)%N eqn:Hq.
    + apply N.eqb_eq in Hq. simpl. rewrite digit_of_digit_char by done.
      f_equal. lia.
    + apply N.eqb_neq in Hq. rewrite IH.
      * simpl. rewrite digit_of_digit_char by done. f_equal. lia.
      * apply N.Div0.div_lt_upper_bound.
        rewrite Nat2N.inj_succ, N.pow_succ_r' in Hn. lia.
Qed.

Lemma log2_fuel n : (n < 10 ^ N.of_nat (S (N.to_nat (N.log2 n))))%N.
Proof.
  rewrite Nat2N.inj_succ, N2Nat.id.
  destruct (decide (n = 0%N)) as [->|Hn]; [reflexivity|].
  pose proof (N.log2_spec n ltac:(lia)) as [_ Hlt].
  eapply N.lt_le_trans; [exact Hlt|].
  apply N.pow_le_mono_l. lia.
Qed.

Lemma digits_value_decimal n : digits_value 0 (decimal n) = Some n.
Proof. unfold decimal. rewrite digits_value_decimal_aux; [done | apply log2_fuel]. Qed.

Lemma is_digit_digit_char d : (d < 10)%N → is_digit (digit_char d).
Proof. intros H. unfold is_digit. rewrite digit_of_digit_char by done. eauto. Qed.

Lemma decimal_aux_digits fuel : ∀ n acc,
  Forall is_digit acc → Forall is_digit (decimal_aux fuel n acc).
Proof.
  induction fuel as [|fuel IH]; intros n acc Hacc; simpl; [done|].
  assert (Hd : is_digit (digit_char (n mod 10))).
  { apply is_digit_digit_char, N.mod_lt. lia. }
  destruct (n / 10 =? 0)%N; [by constructor|]. apply IH. by constructor.
Qed.

Lemma decimal_digits n : Forall is_digit (decimal n).
Proof. apply decimal_aux_digits. constructor. Qed.

Lemma decimal_aux_length fuel : ∀ n acc k,
  (n < 10 ^ N.of_nat (S k))%N →
  (List.length (decimal_aux fuel n acc) ≤ List.length acc + S k)%nat.
Proof.
  induction fuel as [|fuel IH]; intros n acc k Hn; simpl; [lia|].
  destruct (n / 10 =? 0)%N eqn:Hq; simpl; [lia|].
  apply N.eqb_neq in Hq.
  destruct k as [|k].
  - exfalso. apply Hq. apply N.div_small. simpl in Hn. lia.
  - etrans; [apply (IH _ _ k)|simpl; lia].
    apply N.Div0.div_lt_upper_bound.
    rewrite (Nat2N.inj_succ (S k)), N.pow_succ_r' in Hn. lia.
Qed.

(** A number below 1000 has at most three digits. *)
Lemma decimal_length_3 n : (n ≤ 999)%N → (List.length (decimal n) ≤ 3)%nat.
Proof.
  intros Hn. unfold decimal.
  etrans; [apply (decimal_aux_length _ _ _ 2)|simpl; lia].
  change (10 ^ N.of_nat 3)%N with 1000%N. lia.
Qed.

Lemma digits_value_zeros k s :
  digits_value 0 (replicate k zero_char ++ s) = digits_value 0 s.
Proof. induction k as [|k IH]; simpl; [done|]. exact IH. Qed.

Lemma LPAD_length s len : List.length (LPAD s len) = len.
Proof.
  unfold LPAD. case_bool_decide.
  - rewrite length_take. lia.
  - rewrite length_app, length_replicate. lia.
Qed.

Lemma LPAD_digits s len : Forall is_digit s → Forall is_digit (LPAD s len).
Proof.
  intros Hs. unfold LPAD. case_bool_decide.
  - by apply Forall_take.
  - apply Forall_app. split; [|done].
    apply Forall_replicate. unfold is_digit. simpl. eauto.
Qed.

(** A text of [k] digits is a number below [10 ^ k]. *)
Lemma digits_value_bound s : ∀ a,
  Forall is_digit s →
  ∃ v, digits_value a s = Some v
       ∧ (v < (a + 1) * 10 ^ N.of_nat (List.length s))%N.
Proof.
  induction s as [|ch s IH]; intros a Hs.
  - exists a. simpl. split; [done|lia].
  - apply Forall_cons in Hs as [[d Hd] Hs]. simpl. rewrite Hd.
    destruct (IH (10 * a + d)%N Hs) as (v & Hv & Hlt).
    exists v. split; [done|].
    assert (d < 10)%N.
    { unfold digit_of in Hd. destruct (_ && _) eqn:Hb; [|done].
      injection Hd as <-. apply andb_true_iff in Hb as [_ Hb].
      apply N.leb_le in Hb. lia. }
    rewrite Nat2N.inj_succ, N.pow_succ_r'.
    eapply N.lt_le_trans; [exact Hlt|].
    rewrite (N.mul_comm 10), N.mul_assoc.
    apply N.mul_le_mono_r. lia.
Qed.

(** ** [generate_equipment_code] *)

Lemma forallb_is_digit ds :
  Forall is_digit ds →
  forallb (λ ch, bool_decide (is_Some (digit_of ch))) ds = true.
Proof.
  induction 1 as [|d ds Hd _ IH]; [done|].
  cbn [forallb]. rewrite IH. by rewrite bool_decide_eq_true_2.
Qed.

Lemma code_digits_EQ ds :
  ds ≠ [] → Forall is_digit ds → code_digits (EQ_prefix ++ ds) = Some ds.
Proof.
  intros Hne Hds. destruct ds as [|d ds]; [done|].
  apply forallb_is_digit in Hds.
  unfold code_digits, EQ_prefix. cbn [app]. rewrite Hds. done.
Qed.

Lemma code_digits_Some code ds :
  code_digits code = Some ds → code = EQ_prefix ++ ds.
Proof.
  unfold code_digits. destruct code as [|e [|q [|d ds']]]; try done.
  destruct (Ascii.eqb e "E") eqn:He; [|done].
  destruct (Ascii.eqb q "Q") eqn:Hq; [|done].
  destruct (forallb _ _); [|done].
  apply Ascii.eqb_eq in He, Hq. subst. by intros [= <-].
Qed.

Lemma max_number_ge l v : v ∈ l → (v ≤ max_number l)%N.
Proof.
  induction 1 as [v l|v w l _ IH]; simpl; lia.
Qed.

Lemma max_number_in l : max_number l = 0%N ∨ max_number l ∈ l.
Proof.
  induction l as [|x l IH]; [by left|]. simpl.
  destruct (N.max_spec x (max_number l)) as [[_ ->]|[_ ->]].
  - destruct IH as [->|IH].
    + destruct (decide (x = 0%N)) as [->|]; [by left|]. lia.
    + right. apply elem_of_cons. by right.
  - right. apply elem_of_cons. by left.
Qed.

Lemma max_number_bound l b : Forall (λ v, (v < b)%N) l → (0 < b)%N →
  (max_number l < b)%N.
Proof. induction 1; simpl; lia. Qed.

(** The numbers of the matching rows, read off the table. *)
Lemma elem_of_matching_numbers st x :
  x ∈ matching_numbers st ↔
  ∃ i E, eq_equipment st !! i = Some E
         ∧ code_number (Equipment.equipment_code E) = Some x.
Proof.
  unfold matching_numbers. rewrite list_elem_of_omap. split.
  - intros ([i E] & Hin & Hx). apply elem_of_map_to_list in Hin. eauto.
  - intros (i & E & HE & Hx). exists (i, E).
    split; [by apply elem_of_map_to_list | done].
Qed.

(** The code generated for the number [n] of at most three digits. *)
Lemma code_number_generated n :
  (n ≤ 999)%N →
  code_number (EQ_prefix ++ LPAD (decimal n) 3) = Some (Some n).
Proof.
  intros Hn. pose proof (decimal_length_3 n Hn) as Hlen.
  assert (HL : LPAD (decimal n) 3 =
               replicate (3 - List.length (decimal n)) zero_char ++ decimal n).
  { unfold LPAD. case_bool_decide as H3; [|done].
    assert (List.length (decimal n) = 3%nat) as -> by lia.
    simpl. apply firstn_all2. lia. }
  unfold code_number. rewrite code_digits_EQ.
  - rewrite HL, digits_value_zeros, digits_value_decimal.
    replace (n <=? INT_MAX)%N with true; [done|].
    symmetry. apply N.leb_le. unfold INT_MAX. lia.
  - intros H0. pose proof (LPAD_length (decimal n) 3) as H3.
    rewrite H0 in H3. done.
  - apply LPAD_digits, decimal_digits.
Qed.

(** X1: Whenever it returns, [generate_equipment_code] gives [EQ] followed by
    exactly three digits: a code whose number is at most 999, hence not
    above the highest number once that has reached 999. *)
Theorem generate_equipment_code_format st code :
  generate_equipment_code st = Some code →
  (∃ a b c, code = EQ_prefix ++ [a; b; c]
            ∧ is_digit a ∧ is_digit b ∧ is_digit c)
  ∧ ∃ v, code_number code = Some (Some v) ∧ (v ≤ 999)%N
         ∧ ∀ i E w, eq_equipment st !! i = Some E →
             code_number (Equipment.equipment_code E) = Some (Some w) →
             (999 ≤ w)%N → (v ≤ w)%N.
Proof.
  unfold generate_equipment_code.
  destruct (mapM _ _) as [numbers|]; [|done].
  destruct (_ <=? INT_MAX)%N; [|done]. intros [= <-].
  set (ds := LPAD _ 3).
  pose proof (LPAD_length (decimal (max_number numbers + 1)) 3) as Hlen.
  pose proof (LPAD_digits _ 3 (decimal_digits (max_number numbers + 1))) as Hds.
  fold ds in Hlen, Hds.
  destruct ds as [|a [|b [|c [|? ?]]]]; try done.
  apply Forall_cons in Hds as [Ha Hds]. apply Forall_cons in Hds as [Hb Hds].
  apply Forall_cons in Hds as [Hc _].
  split; [by exists a, b, c|].
  destruct (digits_value_bound [a; b; c] 0) as (v & Hv & Hlt);
    [by repeat constructor|].
  change ((0 + 1) * 10 ^ N.of_nat (List.length [a; b; c]))%N with 1000%N in Hlt.
  exists v. split; [|split; [lia | intros; lia]].
  change ["E"%char; "Q"%char; a; b; c] with (EQ_prefix ++ [a; b; c]).
  unfold code_number. rewrite code_digits_EQ; [|done|by repeat constructor].
  rewrite Hv. replace (v <=? INT_MAX)%N with true; [done|].
  symmetry. apply N.leb_le. unfold INT_MAX. lia.
Qed.

Lemma generate_equipment_code_next st :
  numbers_below 999 st →
  ∃ code v, generate_equipment_code st = Some code
    ∧ code_taken st code = false
    ∧ code_number code = Some (Some v)
    ∧ (∀ i E w, eq_equipment st !! i = Some E →
         code_number (Equipment.equipment_code E) = Some (Some w) → (w < v)%N)
    ∧ (v = 1%N
       ∨ ∃ i E, eq_equipment st !! i = Some E
                ∧ code_number (Equipment.equipment_code E)
                  = Some (Some (v - 1)%N)).
Proof.
  intros Hbelow.
  assert (Hsmall : ∀ i E x, eq_equipment st !! i = Some E →
            code_number (Equipment.equipment_code E) = Some x →
            ∃ v, x = Some v ∧ (v < 999)%N).
  { intros i E x HE Hx. specialize (Hbelow i E HE). simpl in Hbelow.
    rewrite Hx in Hbelow. destruct x as [v|]; [eauto | done]. }
  assert (Hall : Forall (λ x, ∃ v, x = Some v ∧ (v < 999)%N) (matching_numbers st)).
  { apply Forall_forall. intros x Hx.
    apply elem_of_matching_numbers in Hx as (i & E & HE & Hx). eauto. }
  assert (Hsome : is_Some (mapM (λ x, x) (matching_numbers st))).
  { apply mapM_is_Some. eapply Forall_impl; [exact Hall|].
    intros x (v & -> & _). simpl. eauto. }
  destruct Hsome as [numbers Hnum].
  pose proof Hnum as HF2. apply mapM_Some in HF2.
  assert (Hlt : Forall (λ v, (v < 999)%N) numbers).
  { clear Hnum. induction HF2 as [|x v l k Hxv _ IH]; [constructor|].
    apply Forall_cons in Hall as [(v' & Hx & Hv') Hall].
    constructor; [|by apply IH]. simpl in Hxv. congruence. }
  assert (Hin : ∀ w, Some w ∈ matching_numbers st → w ∈ numbers).
  { clear Hnum Hall Hlt. intros w Hw.
    induction HF2 as [|x v l k Hxv _ IH]; [by apply elem_of_nil in Hw|].
    apply elem_of_cons in Hw as [<-|Hw].
    - simpl in Hxv. injection Hxv as <-. apply elem_of_cons. by left.
    - apply elem_of_cons. right. by apply IH. }
  assert (Hin' : ∀ w, w ∈ numbers → Some w ∈ matching_numbers st).
  { clear Hnum Hall Hlt Hin. intros w Hw.
    induction HF2 as [|x v l k Hxv _ IH]; [by apply elem_of_nil in Hw|].
    simpl in Hxv. subst x.
    apply elem_of_cons in Hw as [->|Hw]; apply elem_of_cons;
      [by left | right; by apply IH]. }
  pose proof (max_number_bound numbers 999 Hlt ltac:(lia)) as Hmax.
  set (next := (max_number numbers + 1)%N).
  assert (Hnext : (next ≤ 999)%N) by (unfold next; lia).
  exists (EQ_prefix ++ LPAD (decimal next) 3), next.
  assert (Hgen : generate_equipment_code st
                 = Some (EQ_prefix ++ LPAD (decimal next) 3)).
  { unfold generate_equipment_code. rewrite Hnum. fold next.
    replace (next <=? INT_MAX)%N with true; [done|].
    symmetry. apply N.leb_le. unfold INT_MAX. lia. }
  assert (Habove : ∀ i E w, eq_equipment st !! i = Some E →
            code_number (Equipment.equipment_code E) = Some (Some w) →
            (w < next)%N).
  { intros i E w HE Hw.
    assert (w ∈ numbers) as Hwin.
    { apply Hin, elem_of_matching_numbers. eauto. }
    apply max_number_ge in Hwin. unfold next. lia. }
  split; [done|]. split; [|split; [by apply code_number_generated|split; [done|]]].
  - unfold code_taken. apply bool_decide_eq_false. intros (i & E & HE & Hcode).
    specialize (Habove i E next HE).
    rewrite Hcode, code_number_generated in Habove by done.
    specialize (Habove eq_refl). lia.
  - destruct (max_number_in numbers) as [H0|Hmem].
    + left. unfold next. by rewrite H0.
    + right. apply Hin', elem_of_matching_numbers in Hmem as (i & E & HE & Hw).
      exists i, E. split; [done|]. unfold next. by rewrite N.add_sub.
Qed.

(** X2: While every numbered code is below 999, [generate_equipment_code]
    returns a code that no row carries and whose number is one more than
    the highest number of a row: it is above the number of every row, and
    one less is the number of some row, or the number is 1 (no row is
    numbered, or the numbered rows are numbered 0). *)
Theorem generate_equipment_code_fresh st :
  numbers_below 999 st →
  ∃ code v, generate_equipment_code st = Some code
    ∧ code_taken st code = false
    ∧ code_number code = Some (Some v)
    ∧ (∀ i E w, eq_equipment st !! i = Some E →
         code_number (Equipment.equipment_code E) = Some (Some w) → (w < v)%N)
    ∧ (v = 1%N
       ∨ ∃ i E, eq_equipment st !! i = Some E
                ∧ code_number (Equipment.equipment_code E)
                  = Some (Some (v - 1)%N)).
Proof. apply generate_equipment_code_next. Qed.

Lemma generate_equipment_code_format_witness :
  (∃ a b c, text "EQ008" = EQ_prefix ++ [a; b; c]
            ∧ is_digit a ∧ is_digit b ∧ is_digit c)
  ∧ ∃ v, code_number (text "EQ008") = Some (Some v) ∧ (v ≤ 999)%N
         ∧ ∀ i E w, eq_equipment club_store !! i = Some E →
             code_number (Equipment.equipment_code E) = Some (Some w) →
             (999 ≤ w)%N → (v ≤ w)%N.
Proof.
  apply (generate_equipment_code_format club_store (text "EQ008")).
  vm_compute. reflexivity.
Defined.

Lemma generate_equipment_code_fresh_witness :
  ∃ code v, generate_equipment_code club_store = Some code
    ∧ code_taken club_store code = false
    ∧ code_number code = Some (Some v)
    ∧ (∀ i E w, eq_equipment club_store !! i = Some E →
         code_number (Equipment.equipment_code E) = Some (Some w) → (w < v)%N)
    ∧ (v = 1%N
       ∨ ∃ i E, eq_equipment club_store !! i = Some E
                ∧ code_number (Equipment.equipment_code E)
                  = Some (Some (v - 1)%N)).
Proof.
  apply (generate_equipment_code_fresh club_store).
  apply (bool_decide_unpack _). vm_compute. exact I.
Defined.

(** With a code numbered 999 in the table the next number has four
    digits, of which [LPAD] keeps the first three: the code generated is
    EQ100, whether or not a row already carries it. *)
Example generate_equipment_code_cut :
  let E999 := Equipment.mk (text "EQ999") (text "Ladder") Tools None
                available None None 0 in
  let E100 := Equipment.mk (text "EQ100") (text "Drill") Tools None
                available None None 0 in
  let st := with_equipment (<[8%nat := E999]> (<[9%nat := E100]>
                              (eq_equipment club_store))) club_store in
  generate_equipment_code st = Some (text "EQ100")
  ∧ code_taken st (text "EQ100") = true.
Proof. vm_compute. split; reflexivity. Qed.

(** ** What each statement does to the tables *)

Lemma insert_deficiency_references auth id row now st :
  insert_deficiency auth id row now st = (db_error, st)
  ∨ (is_Some (eq_equipment st !! Deficiency.equipment_id row)
     ∧ is_Some (users st !! Deficiency.reported_by row)
     ∧ (∀ c, Deficiency.checkout_id row = Some c →
             is_Some (eq_checkouts st !! c))
     ∧ eq_deficiencies st !! id = None
     ∧ insert_deficiency auth id row now st =
       (db_ok,
        (if bool_decide (Deficiency.severity row = major)
         then update_status (Deficiency.equipment_id row) needs_repair now
         else λ s, s)
          (with_deficiencies (<[id := row]> (eq_deficiencies st)) st))).
Proof.
  destruct (insert_deficiency_cases auth id row now st)
    as [Herr|(_ & He & Hu & Hid & Hok)]; [by left|].
  destruct (fk_checkout_opt st (Deficiency.checkout_id row)) eqn:Hc.
  - right. repeat split; try done.
    intros c Hrow. rewrite Hrow in Hc. by apply bool_decide_eq_true in Hc.
  - left. unfold insert_deficiency. rewrite Hc.
    by rewrite !andb_false_r, ?andb_false_l.
Qed.

Lemma insert_equipment_cases auth id row st :
  insert_equipment auth id row st = (db_error, st)
  ∨ (is_admin_or_chair st auth = true
     ∧ code_taken st (Equipment.equipment_code row) = false
     ∧ eq_equipment st !! id = None
     ∧ insert_equipment auth id row st =
       (db_ok, with_equipment (<[id := row]> (eq_equipment st)) st)).
Proof.
  unfold insert_equipment, policy_equipment_insert.
  destruct (is_admin_or_chair st auth); [|by left].
  destruct (code_taken st _); [by left|].
  case_bool_decide; [|by left]. by right.
Qed.

Lemma update_equipment_maintenance_cases auth id d now st :
  update_equipment_maintenance auth id d now st = (db_ok, st)
  ∨ ∃ OLD, eq_equipment st !! id = Some OLD
      ∧ is_admin_or_chair st auth = true
      ∧ update_equipment_maintenance auth id d now st =
        (db_ok, with_equipment
                  (<[id := set_last_maintenance d now OLD]> (eq_equipment st))
                  st).
Proof.
  unfold update_equipment_maintenance, policy_equipment_update.
  destruct (eq_equipment st !! id) as [OLD|]; [|by left].
  destruct (is_admin_or_chair st auth); [|by left].
  right. by exists OLD.
Qed.

Section rows_step.
Context {A : Type} (kept : A → A → Prop) (added : A → Prop).
Hypothesis kept_refl : ∀ a, kept a a.

Lemma rows_step_refl m : rows_step kept added m m.
Proof. intros i. by destruct (m !! i). Qed.

Lemma rows_step_insert_new m id row :
  m !! id = None → added row → rows_step kept added m (<[id := row]> m).
Proof.
  intros Hid Hrow i. destruct (decide (id = i)) as [<-|Hne].
  - by rewrite Hid, lookup_insert_eq.
  - rewrite lookup_insert_ne by done. by destruct (m !! i).
Qed.

Lemma rows_step_insert_old m id OLD NEW :
  m !! id = Some OLD → kept OLD NEW → rows_step kept added m (<[id := NEW]> m).
Proof.
  intros Hid Hrow i. destruct (decide (id = i)) as [<-|Hne].
  - by rewrite Hid, lookup_insert_eq.
  - rewrite lookup_insert_ne by done. by destruct (m !! i).
Qed.

Lemma rows_step_alter m f e :
  (∀ a, kept a (f a)) → rows_step kept added m (alter f e m).
Proof.
  intros Hf i. destruct (decide (e = i)) as [<-|Hne].
  - rewrite lookup_alter_eq. by destruct (m !! e); simpl.
  - rewrite lookup_alter_ne by done. by destruct (m !! i).
Qed.
End rows_step.

Lemma same_checkout_refl c : same_checkout c c.
Proof. by repeat split. Qed.

Lemma same_deficiency_refl d : same_deficiency d d.
Proof. by repeat split. Qed.

Lemma same_equipment_refl E : same_equipment E E.
Proof. by repeat split. Qed.

(** How an equipment row may change: it stays the same item, and is not
    put out of service. *)
Lemma equipment_kept_refl E :
  same_equipment E E
  ∧ (Equipment.status E = out_of_service → Equipment.status E = out_of_service).
Proof. split; [apply same_equipment_refl | done]. Qed.

Lemma equipment_rows_update_status e s now st0 st added :
  s ≠ out_of_service →
  eq_equipment st = eq_equipment st0 →
  rows_step (λ E E', same_equipment E E'
                     ∧ (Equipment.status E' = out_of_service →
                        Equipment.status E = out_of_service))
    added (eq_equipment st0) (eq_equipment (update_status e s now st)).
Proof.
  intros Hs <-. unfold update_status. simpl.
  apply rows_step_alter; [apply equipment_kept_refl|].
  intros E. split; [by repeat split | done].
Qed.

(** The rows before and after a statement: no row is removed from any
    table; a row that stays keeps what identifies it, and is not put out
    of service; a row that appears refers to rows that exist, and an
    equipment row that appears is available under a code not yet taken. *)
Lemma statement_rows st st' :
  statement st st' →
  users st' = users st
  ∧ rows_step (λ E E', same_equipment E E'
                       ∧ (Equipment.status E' = out_of_service →
                          Equipment.status E = out_of_service))
      (λ E', Equipment.status E' = available
             ∧ code_taken st (Equipment.equipment_code E') = false)
      (eq_equipment st) (eq_equipment st')
  ∧ rows_step same_checkout
      (λ c', is_Some (eq_equipment st !! Checkout.equipment_id c')
             ∧ is_Some (users st !! Checkout.user_id c'))
      (eq_checkouts st) (eq_checkouts st')
  ∧ rows_step (λ d d', same_deficiency d d'
                       ∧ ∀ u, Deficiency.resolved_by d' = Some u →
                              Deficiency.resolved_by d = Some u
                              ∨ is_Some (users st !! u))
      (λ d', is_Some (eq_equipment st !! Deficiency.equipment_id d')
             ∧ is_Some (users st !! Deficiency.reported_by d')
             ∧ (∀ c, Deficiency.checkout_id d' = Some c →
                     is_Some (eq_checkouts st !! c))
             ∧ Deficiency.resolved_by d' = None)
      (eq_deficiencies st) (eq_deficiencies st').
Proof.
  assert (Hdef : ∀ d : Deficiency.t, same_deficiency d d
            ∧ ∀ u, Deficiency.resolved_by d = Some u →
                   Deficiency.resolved_by d = Some u ∨ is_Some (users st !! u)).
  { intros d. split; [apply same_deficiency_refl | auto]. }
  assert (Hsame : users st = users st
    ∧ rows_step (λ E E', same_equipment E E'
                       ∧ (Equipment.status E' = out_of_service →
                          Equipment.status E = out_of_service))
      (λ E', Equipment.status E' = available
             ∧ code_taken st (Equipment.equipment_code E') = false)
      (eq_equipment st) (eq_equipment st)
    ∧ rows_step same_checkout
      (λ c', is_Some (eq_equipment st !! Checkout.equipment_id c')
             ∧ is_Some (users st !! Checkout.user_id c'))
      (eq_checkouts st) (eq_checkouts st)
    ∧ rows_step (λ d d', same_deficiency d d'
                       ∧ ∀ u, Deficiency.resolved_by d' = Some u →
                              Deficiency.resolved_by d = Some u
                              ∨ is_Some (users st !! u))
      (λ d', is_Some (eq_equipment st !! Deficiency.equipment_id d')
             ∧ is_Some (users st !! Deficiency.reported_by d')
             ∧ (∀ c, Deficiency.checkout_id d' = Some c →
                     is_Some (eq_checkouts st !! c))
             ∧ Deficiency.resolved_by d' = None)
      (eq_deficiencies st) (eq_deficiencies st)).
  { split; [done|]. split; [apply rows_step_refl, equipment_kept_refl|].
    split; [apply rows_step_refl, same_checkout_refl|].
    by apply rows_step_refl. }
  destruct 1 as [auth id e u exp ut p now|auth id d c now
                |auth id e co u desc sev now|auth id u d n now
                |auth id code name cat loc notes now|auth id d now].
  - destruct (insert_checkout_cases auth id (new_checkout e u exp ut p now) now st)
      as [->|(_ & He & Hu & Hid & ->)]; [done|]. cbn [snd].
    split; [done|]. split; [by apply equipment_rows_update_status|].
    split; [|by apply rows_step_refl]. simpl.
    apply rows_step_insert_new; [apply same_checkout_refl|done|done].
  - destruct (update_checkout_return_cases auth id d c now st)
      as [->|(OLD & HOLD & _ & ->)]; [done|]. cbn [snd].
    assert (Hc : rows_step same_checkout
      (λ c', is_Some (eq_equipment st !! Checkout.equipment_id c')
             ∧ is_Some (users st !! Checkout.user_id c'))
      (eq_checkouts st) (<[id := Checkout.set_return d c OLD]> (eq_checkouts st))).
    { eapply rows_step_insert_old; [apply same_checkout_refl|exact HOLD|].
      by repeat split. }
    case_bool_decide.
    + split; [done|]. split; [by apply equipment_rows_update_status|].
      split; [exact Hc | by apply rows_step_refl].
    + split; [done|]. split; [apply rows_step_refl, equipment_kept_refl|].
      split; [exact Hc | by apply rows_step_refl].
  - destruct (insert_deficiency_references auth id
                (new_deficiency e co u desc sev now) now st)
      as [->|(He & Hu & Hco & Hid & ->)]; [done|]. cbn [snd].
    assert (Hd : rows_step (λ d d', same_deficiency d d'
                       ∧ ∀ u, Deficiency.resolved_by d' = Some u →
                              Deficiency.resolved_by d = Some u
                              ∨ is_Some (users st !! u))
      (λ d', is_Some (eq_equipment st !! Deficiency.equipment_id d')
             ∧ is_Some (users st !! Deficiency.reported_by d')
             ∧ (∀ c, Deficiency.checkout_id d' = Some c →
                     is_Some (eq_checkouts st !! c))
             ∧ Deficiency.resolved_by d' = None)
      (eq_deficiencies st)
      (<[id := new_deficiency e co u desc sev now]> (eq_deficiencies st))).
    { apply rows_step_insert_new; [done|done|done]. }
    case_bool_decide.
    + split; [done|]. split; [by apply equipment_rows_update_status|].
      split; [apply rows_step_refl, same_checkout_refl | exact Hd].
    + split; [done|]. split; [apply rows_step_refl, equipment_kept_refl|].
      split; [apply rows_step_refl, same_checkout_refl | exact Hd].
  - destruct (update_deficiency_resolved_cases auth id u d n now st)
      as [->|[->|(OLD & HOLD & _ & Hu & ->)]]; [done|done|]. cbn [snd].
    assert (Hd : rows_step (λ d d', same_deficiency d d'
                       ∧ ∀ u, Deficiency.resolved_by d' = Some u →
                              Deficiency.resolved_by d = Some u
                              ∨ is_Some (users st !! u))
      (λ d', is_Some (eq_equipment st !! Deficiency.equipment_id d')
             ∧ is_Some (users st !! Deficiency.reported_by d')
             ∧ (∀ c, Deficiency.checkout_id d' = Some c →
                     is_Some (eq_checkouts st !! c))
             ∧ Deficiency.resolved_by d' = None)
      (eq_deficiencies st)
      (<[id := Deficiency.set_resolved u d n OLD]> (eq_deficiencies st))).
    { eapply rows_step_insert_old; [done|exact HOLD|].
      split; [by repeat split|]. simpl. intros u' [= <-]. by right. }
    cbv zeta.
    assert (Hplain : ∀ st1,
      st1 = with_deficiencies
              (<[id := Deficiency.set_resolved u d n OLD]> (eq_deficiencies st))
              st →
      users st1 = users st
      ∧ rows_step (λ E E', same_equipment E E'
                       ∧ (Equipment.status E' = out_of_service →
                          Equipment.status E = out_of_service))
          (λ E', Equipment.status E' = available
             ∧ code_taken st (Equipment.equipment_code E') = false)
          (eq_equipment st) (eq_equipment st1)
      ∧ rows_step same_checkout
          (λ c', is_Some (eq_equipment st !! Checkout.equipment_id c')
             ∧ is_Some (users st !! Checkout.user_id c'))
          (eq_checkouts st) (eq_checkouts st1)
      ∧ rows_step (λ d d', same_deficiency d d'
                       ∧ ∀ u, Deficiency.resolved_by d' = Some u →
                              Deficiency.resolved_by d = Some u
                              ∨ is_Some (users st !! u))
          (λ d', is_Some (eq_equipment st !! Deficiency.equipment_id d')
             ∧ is_Some (users st !! Deficiency.reported_by d')
             ∧ (∀ c, Deficiency.checkout_id d' = Some c →
                     is_Some (eq_checkouts st !! c))
             ∧ Deficiency.resolved_by d' = None)
          (eq_deficiencies st) (eq_deficiencies st1)).
    { intros st1 ->. split; [done|].
      split; [apply rows_step_refl, equipment_kept_refl|].
      split; [apply rows_step_refl, same_checkout_refl | exact Hd]. }
    case_bool_decide; [|by apply Hplain].
    destruct (has_other_pending_major _ _ _); [by apply Hplain|].
    destruct (has_open_checkout st _).
    + split; [done|]. split; [by apply equipment_rows_update_status|].
      split; [apply rows_step_refl, same_checkout_refl | exact Hd].
    + split; [done|]. split; [by apply equipment_rows_update_status|].
      split; [apply rows_step_refl, same_checkout_refl | exact Hd].
  - destruct (insert_equipment_cases auth id
                (new_equipment code name cat loc notes now) st)
      as [->|(_ & Hcode & Hid & ->)]; [done|]. cbn [snd].
    split; [done|]. split.
    + simpl. apply rows_step_insert_new; [apply equipment_kept_refl|done|done].
    + split; [apply rows_step_refl, same_checkout_refl|by apply rows_step_refl].
  - destruct (update_equipment_maintenance_cases auth id d now st)
      as [->|(OLD & HOLD & _ & ->)]; [done|]. cbn [snd].
    split; [done|]. split.
    + simpl. eapply rows_step_insert_old; [apply equipment_kept_refl|exact HOLD|].
      split; [by repeat split | done].
    + split; [apply rows_step_refl, same_checkout_refl|by apply rows_step_refl].
Qed.

(** ** Invariants of every statement *)

Lemma rows_step_is_Some {A} (kept : A → A → Prop) added (m m' : gmap nat A) i :
  rows_step kept added m m' → is_Some (m !! i) → is_Some (m' !! i).
Proof.
  intros Hrows [a Ha]. specialize (Hrows i). rewrite Ha in Hrows.
  destruct (m' !! i); [eauto | done].
Qed.

Lemma statement_references st st' :
  statement st st' → references_hold st → references_hold st'.
Proof.
  intros Hstep [Hc Hd].
  destruct (statement_rows st st' Hstep) as (Hu & HE & HC & HD).
  assert (HEs : ∀ i, is_Some (eq_equipment st !! i) →
                     is_Some (eq_equipment st' !! i)).
  { intros i. by eapply rows_step_is_Some. }
  assert (HCs : ∀ i, is_Some (eq_checkouts st !! i) →
                     is_Some (eq_checkouts st' !! i)).
  { intros i. by eapply rows_step_is_Some. }
  split.
  - intros i c' Hc'. specialize (HC i). rewrite Hc' in HC. rewrite Hu.
    destruct (eq_checkouts st !! i) as [c|] eqn:Hci.
    + destruct HC as (-> & -> & _). destruct (Hc i c Hci). auto.
    + destruct HC. auto.
  - intros i d' Hd'. specialize (HD i). rewrite Hd' in HD. rewrite Hu.
    destruct (eq_deficiencies st !! i) as [d|] eqn:Hdi.
    + destruct HD as ((-> & -> & -> & _) & Hres).
      destruct (Hd i d Hdi) as (? & ? & ? & Hru).
      repeat split; auto.
      intros u Hu'. destruct (Hres u Hu'); auto.
    + destruct HD as (? & ? & ? & Hnone). repeat split; auto.
      intros u Hu'. congruence.
Qed.

(** X3: The [REFERENCES] of the schema hold along every sequence of
    statements: a checkout row always names an equipment row and a user
    that exist, a deficiency row an equipment row, a reporter, and, when
    it names them, a checkout and a resolver that exist. *)
Theorem references_hold_along_statements st st' :
  rtc statement st st' → references_hold st → references_hold st'.
Proof.
  induction 1 as [|st st1 st' Hstep _ IH]; [done|].
  intros Href. by apply IH, (statement_references st).
Qed.

Lemma codes_unique_same_codes st st' :
  (∀ i, Equipment.equipment_code <$> eq_equipment st' !! i
        = Equipment.equipment_code <$> eq_equipment st !! i) →
  codes_unique st → codes_unique st'.
Proof.
  intros Hcodes Huniq i E HE j E' HE' Heq.
  pose proof (Hcodes i) as Hi. pose proof (Hcodes j) as Hj.
  rewrite HE in Hi. rewrite HE' in Hj.
  destruct (eq_equipment st !! i) as [E0|] eqn:Hi0; [|done].
  destruct (eq_equipment st !! j) as [E0'|] eqn:Hj0; [|done].
  simpl in Hi, Hj. eapply Huniq; [exact Hi0 | exact Hj0 | congruence].
Qed.

Lemma codes_unique_update_status e s now st :
  codes_unique st → codes_unique (update_status e s now st).
Proof.
  apply codes_unique_same_codes. intros i.
  rewrite update_status_lookup. case_decide; [|done].
  by destruct (eq_equipment st !! i).
Qed.

Lemma statement_codes_unique st st' :
  statement st st' → codes_unique st → codes_unique st'.
Proof.
  destruct 1 as [auth id e u exp ut p now|auth id d c now
                |auth id e co u desc sev now|auth id u d n now
                |auth id code name cat loc notes now|auth id d now];
    intros Huniq.
  - destruct (insert_checkout_cases auth id (new_checkout e u exp ut p now) now st)
      as [->|(_ & _ & _ & _ & ->)]; [done|]. cbn [snd].
    by apply codes_unique_update_status.
  - destruct (update_checkout_return_cases auth id d c now st)
      as [->|(OLD & _ & _ & ->)]; [done|]. cbn [snd].
    case_bool_decide; [by apply codes_unique_update_status | done].
  - destruct (insert_deficiency_cases auth id
                (new_deficiency e co u desc sev now) now st)
      as [->|(_ & _ & _ & _ & ->)]; [done|]. cbn [snd].
    case_bool_decide; [by apply codes_unique_update_status | done].
  - destruct (update_deficiency_resolved_cases auth id u d n now st)
      as [->|[->|(OLD & _ & _ & _ & ->)]]; [done|done|]. cbn [snd]. cbv zeta.
    case_bool_decide; [|done].
    destruct (has_other_pending_major _ _ _); [done|].
    destruct (has_open_checkout st _); by apply codes_unique_update_status.
  - destruct (insert_equipment_cases auth id
                (new_equipment code name cat loc notes now) st)
      as [->|(_ & Hcode & Hid & ->)]; [done|]. cbn [snd].
    apply bool_decide_eq_false in Hcode.
    intros i E HE j E' HE' Heq. simpl in HE, HE'.
    apply lookup_insert_Some in HE as [[<- <-]|[Hi HE]];
      apply lookup_insert_Some in HE' as [[<- <-]|[Hj HE']]; try done.
    + destruct Hcode. exists j, E'. by split.
    + destruct Hcode. exists i, E. by split.
    + by eapply Huniq.
  - destruct (update_equipment_maintenance_cases auth id d now st)
      as [->|(OLD & HOLD & _ & ->)]; [done|]. cbn [snd].
    revert Huniq. apply codes_unique_same_codes. intros i. simpl.
    destruct (decide (id = i)) as [<-|Hne].
    + by rewrite lookup_insert_eq, HOLD.
    + by rewrite lookup_insert_ne.
Qed.

(** X4: Equipment codes stay unique along every sequence of statements (the
    UNIQUE constraint of [equipment_code] refuses the insert of a code
    that is taken; no other statement writes a code). *)
Theorem codes_unique_along_statements st st' :
  rtc statement st st' → codes_unique st → codes_unique st'.
Proof.
  induction 1 as [|st st1 st' Hstep _ IH]; [done|].
  intros Huniq. by apply IH, (statement_codes_unique st).
Qed.

Lemma history_kept_refl st : history_kept st st.
Proof.
  repeat split; intros i x Hx; exists x;
    (split; [done|]); by repeat split.
Qed.

Lemma history_kept_trans st1 st2 st3 :
  history_kept st1 st2 → history_kept st2 st3 → history_kept st1 st3.
Proof.
  intros (Hc & Hd & He & Hu) (Hc' & Hd' & He' & Hu').
  split; [|split; [|split]].
  - intros i c Hi. destruct (Hc i c Hi) as (c2 & Hi2 & H12).
    destruct (Hc' i c2 Hi2) as (c3 & Hi3 & H23). exists c3. split; [done|].
    destruct H12 as (?&?&?&?&?&?&?), H23 as (?&?&?&?&?&?&?).
    repeat split; try congruence. auto.
  - intros i d Hi. destruct (Hd i d Hi) as (d2 & Hi2 & H12).
    destruct (Hd' i d2 Hi2) as (d3 & Hi3 & H23). exists d3. split; [done|].
    destruct H12 as (?&?&?&?&?&?&?), H23 as (?&?&?&?&?&?&?).
    repeat split; try congruence. auto.
  - intros i E Hi. destruct (He i E Hi) as (E2 & Hi2 & H12).
    destruct (He' i E2 Hi2) as (E3 & Hi3 & H23). exists E3. split; [done|].
    destruct H12 as (?&?&?&?&?), H23 as (?&?&?&?&?).
    repeat split; congruence.
  - congruence.
Qed.

Lemma statement_history st st' : statement st st' → history_kept st st'.
Proof.
  intros Hstep.
  destruct (statement_rows st st' Hstep) as (Hu & HE & HC & HD).
  split; [|split; [|split]]; [| | |done].
  - intros i c Hi. specialize (HC i). rewrite Hi in HC.
    destruct (eq_checkouts st' !! i) as [c'|]; [eauto | done].
  - intros i d Hi. specialize (HD i). rewrite Hi in HD.
    destruct (eq_deficiencies st' !! i) as [d'|]; [|done].
    destruct HD. eauto.
  - intros i E Hi. specialize (HE i). rewrite Hi in HE.
    destruct (eq_equipment st' !! i) as [E'|]; [|done].
    destruct HE. eauto.
Qed.

(** X5: Nothing recorded is lost along any sequence of statements: no row of
    any table is removed; a checkout row keeps its equipment, user,
    checkout date, expected return, use type and purpose, and once closed
    is never reopened; a deficiency row keeps its equipment, checkout,
    reporter, date, description and severity, and once resolved stays
    resolved; an equipment row keeps its code, name, category, location
    and notes; the users are not written. *)
Theorem history_kept_along_statements st st' :
  rtc statement st st' → history_kept st st'.
Proof.
  induction 1 as [|st st1 st' Hstep _ IH]; [apply history_kept_refl|].
  eapply history_kept_trans; [by apply statement_history | exact IH].
Qed.

Lemma statement_out_of_service st st' :
  statement st st' → out_of_service_only_before st st'.
Proof.
  intros Hstep i E' HE' Hoos.
  destruct (statement_rows st st' Hstep) as (_ & HE & _).
  specialize (HE i). rewrite HE' in HE.
  destruct (eq_equipment st !! i) as [E|].
  - destruct HE as [_ HE]. eauto.
  - destruct HE as [Hav _]. congruence.
Qed.

(** X6: No statement of the application puts equipment out of service: along
    any sequence of statements, an item whose status is out-of-service at
    the end was an item with that status at the start. *)
Theorem out_of_service_never_written st st' :
  rtc statement st st' → out_of_service_only_before st st'.
Proof.
  induction 1 as [|st st1 st' Hstep _ IH]; [intros i E; eauto|].
  intros i E' HE' Hoos.
  destruct (IH i E' HE' Hoos) as (E1 & HE1 & Hoos1).
  by eapply statement_out_of_service.
Qed.

(** The store left by a call of a handler is the one it was given, or
    is reached from it by one statement or by two. *)
Lemma handler_call_statements st st' :
  handler_call st st' → rtc statement st st'.
Proof.
  destruct 1 as [auth user sel form id now|auth user sel checkouts form id now
                |auth user defId now|auth form equipment id now
                |auth equipmentId now].
  - destruct sel as [[eid E]|]; simpl; [|done].
    case_bool_decide; [done|].
    pose proof (stmt_insert_checkout st auth id eid user
                  (CheckoutForm.expectedReturn form) (CheckoutForm.useType form)
                  (CheckoutForm.purpose form) now) as Hstep.
    destruct (insert_checkout _ _ _ _ _) as [[] st1]; by apply rtc_once.
  - destruct sel as [[eid E]|]; simpl; [|done].
    destruct (find_active_checkout eid checkouts) as [[cid c]|]; [|done].
    destruct (_ && _); cbn [snd].
    + eapply rtc_l; [apply stmt_update_checkout_return|].
      apply rtc_once, stmt_insert_deficiency.
    + apply rtc_once, stmt_update_checkout_return.
  - apply rtc_once. unfold resolveDeficiency.
    apply stmt_update_deficiency_resolved.
  - unfold handleAddEquipment.
    case_bool_decide; [done|]. apply rtc_once. cbn [snd].
    unfold new_equipment. apply stmt_insert_equipment.
  - apply rtc_once. unfold handleUpdateMaintenance.
    apply stmt_update_equipment_maintenance.
Qed.

Lemma rtc_statement st st' :
  rtc statement st st' →
  (references_hold st → references_hold st')
  ∧ (codes_unique st → codes_unique st')
  ∧ history_kept st st'
  ∧ out_of_service_only_before st st'.
Proof.
  induction 1 as [st|st st1 st' Hstep _ (IHr & IHc & IHh & IHo)].
  - split; [done|]. split; [done|]. split; [apply history_kept_refl|].
    intros i E; eauto.
  - split; [|split; [|split]].
    + intros Href. by apply IHr, (statement_references st).
    + intros Huniq. by apply IHc, (statement_codes_unique st).
    + eapply history_kept_trans; [by apply statement_history | exact IHh].
    + intros i E' HE' Hoos. destruct (IHo i E' HE' Hoos) as (E1 & HE1 & Hoos1).
      by eapply statement_out_of_service.
Qed.

(** X7: Along any sequence of calls of [handleCheckout], [handleReturn],
    [resolveDeficiency], [handleAddEquipment] and [handleUpdateMaintenance]
    -- whatever the sessions, the arguments and the data the clients hold,
    stale or not -- a store whose references hold and whose equipment
    codes are distinct stays so, nothing recorded is lost, and no
    equipment is put out of service. *)
Theorem invariants_along_handler_calls st st' :
  rtc handler_call st st' →
  references_hold st → codes_unique st →
  references_hold st' ∧ codes_unique st' ∧ history_kept st st'
  ∧ out_of_service_only_before st st'.
Proof.
  intros Hcalls Href Huniq.
  assert (Hsteps : rtc statement st st').
  { clear Href Huniq. induction Hcalls as [st|st st1 st' Hcall _ IH]; [done|].
    etrans; [by apply handler_call_statements | apply IH]. }
  destruct (rtc_statement st st' Hsteps) as (Hr & Hc & Hh & Ho). auto.
Qed.

(** The sample season, statement by statement. *)
Lemma club_season : rtc statement club_store mower_serviced.
Proof.
  eapply rtc_l.
  { apply (stmt_insert_checkout club_store (Some 42%nat) 100 1 42 None club
             (text "mowing") day0_noon). }
  eapply rtc_l.
  { apply (stmt_insert_deficiency mower_out (Some 42%nat) 200 1 None 42
             (text "blade loose") major day1_noon). }
  eapply rtc_l.
  { apply (stmt_update_deficiency_resolved mower_out_broken (Some 1%nat) 200 1
             (date_of day2_noon) Resolved_text day2_noon). }
  eapply rtc_l.
  { apply (stmt_insert_equipment mower_out_repaired (Some 1%nat) 8
             (text "EQ008") (text "Chainsaw") Tools (text "Tool Room") []
             day3_noon). }
  eapply rtc_l; [|apply rtc_refl].
  apply (stmt_update_equipment_maintenance chainsaw_added (Some 1%nat) 1
           (date_of day3_noon) day3_noon).
Qed.

Example chainsaw_added_code :
  Equipment.equipment_code <$> eq_equipment mower_serviced !! 8%nat
  = Some (text "EQ008").
Proof. vm_compute. reflexivity. Qed.

Lemma references_hold_along_statements_witness : references_hold mower_serviced.
Proof.
  apply (references_hold_along_statements club_store).
  - apply club_season.
  - apply (bool_decide_unpack _). vm_compute. exact I.
Defined.

Lemma codes_unique_along_statements_witness : codes_unique mower_serviced.
Proof.
  apply (codes_unique_along_statements club_store).
  - apply club_season.
  - apply (bool_decide_unpack _). vm_compute. exact I.
Defined.

Lemma history_kept_along_statements_witness :
  history_kept club_store mower_serviced.
Proof. apply (history_kept_along_statements club_store), club_season. Defined.

Lemma out_of_service_never_written_witness :
  out_of_service_only_before club_store mower_serviced.
Proof. apply (out_of_service_never_written club_store), club_season. Defined.

(** ** [handleAddEquipment] and [handleUpdateMaintenance] *)

(** X8: Without the identity of a chair or admin in the database session,
    [handleAddEquipment] and [handleUpdateMaintenance] write nothing, and
    report no error: the insert is refused by its policy and the update
    matches no row, but neither result is inspected. *)
Theorem equipment_writes_need_chair st auth :
  is_admin_or_chair st auth = false →
  (∀ form equipment id now,
     (handleAddEquipment auth form equipment id now st).2 = st
     ∧ reports_error (handleAddEquipment auth form equipment id now st).1
       = false)
  ∧ (∀ equipmentId now,
       handleUpdateMaintenance auth equipmentId now st
       = (Notified Notification.success, st)).
Proof.
  intros Hauth. split.
  - intros form equipment id now. unfold handleAddEquipment.
    case_bool_decide; [done|]. cbn [fst snd]. split; [|done].
    unfold insert_equipment, policy_equipment_insert. by rewrite Hauth.
  - intros equipmentId now. unfold handleUpdateMaintenance.
    unfold update_equipment_maintenance, policy_equipment_update.
    rewrite Hauth. by destruct (eq_equipment st !! equipmentId).
Qed.

Lemma equipment_writes_need_chair_witness :
  (∀ form equipment id now,
     (handleAddEquipment (Some 42%nat) form equipment id now club_store).2
     = club_store
     ∧ reports_error
         (handleAddEquipment (Some 42%nat) form equipment id now club_store).1
       = false)
  ∧ (∀ equipmentId now,
       handleUpdateMaintenance (Some 42%nat) equipmentId now club_store
       = (Notified Notification.success, club_store)).
Proof. apply (equipment_writes_need_chair club_store (Some 42%nat)). reflexivity. Defined.

(** X9: In the session of a chair or admin, with a name filled in and while
    every numbered code is below 999, [handleAddEquipment] adds one row
    under the drawn key: available, never maintained, with the form's
    values and the generated code, which no other row carries; the other
    rows and tables are as before. *)
Theorem handleAddEquipment_adds st auth form equipment id now :
  is_admin_or_chair st auth = true →
  NewEquipment.name form ≠ [] →
  numbers_below 999 st →
  eq_equipment st !! id = None →
  ∃ code,
    generate_equipment_code st = Some code
    ∧ code_taken st code = false
    ∧ handleAddEquipment auth form equipment id now st
      = (Notified Notification.success,
         with_equipment
           (<[id := new_equipment code (NewEquipment.name form)
                      (NewEquipment.category form) (NewEquipment.location form)
                      (NewEquipment.notes form) now]> (eq_equipment st)) st).
Proof.
  intros Hauth Hname Hbelow Hid.
  destruct (generate_equipment_code_next st Hbelow)
    as (code & v & Hgen & Hfree & _).
  exists code. split; [done|]. split; [done|].
  unfold handleAddEquipment. rewrite bool_decide_eq_false_2 by done.
  rewrite Hgen. f_equal.
  unfold insert_equipment, policy_equipment_insert. rewrite Hauth. simpl.
  rewrite Hfree. simpl. by rewrite bool_decide_eq_true_2.
Qed.

Lemma handleAddEquipment_adds_witness :
  ∃ code,
    generate_equipment_code club_store = Some code
    ∧ code_taken club_store code = false
    ∧ handleAddEquipment (Some 1%nat) chainsaw_form [] 8 day0_noon club_store
      = (Notified Notification.success,
         with_equipment
           (<[8%nat := new_equipment code (NewEquipment.name chainsaw_form)
                      (NewEquipment.category chainsaw_form)
                      (NewEquipment.location chainsaw_form)
                      (NewEquipment.notes chainsaw_form) day0_noon]>
              (eq_equipment club_store)) club_store).
Proof.
  apply (handleAddEquipment_adds club_store (Some 1%nat) chainsaw_form [] 8
           day0_noon).
  - reflexivity.
  - discriminate.
  - apply (bool_decide_unpack _). vm_compute. exact I.
  - reflexivity.
Defined.

Lemma equipment_write_lifecycle st st' :
  references_hold st →
  eq_checkouts st' = eq_checkouts st →
  eq_deficiencies st' = eq_deficiencies st →
  (∀ e E', eq_equipment st' !! e = Some E' →
     (∃ E, eq_equipment st !! e = Some E
           ∧ Equipment.status E' = Equipment.status E)
     ∨ (eq_equipment st !! e = None ∧ Equipment.status E' = available)) →
  status_recomputed_unless_oos st → at_most_one_open st →
  available_not_open st →
  status_recomputed_unless_oos st' ∧ at_most_one_open st'
  ∧ available_not_open st'.
Proof.
  intros [Hrc Hrd] Hc Hd Hrows Hrec Hone Hav.
  assert (Hnew : ∀ e, eq_equipment st !! e = None →
            recompute st e = available ∧ has_open_checkout st e = false).
  { intros e He.
    assert (Hp : has_pending_major st e = false).
    { apply has_pending_major_false. intros i d Hi [Hde _].
      destruct (Hrd i d Hi) as [[E HE] _]. congruence. }
    assert (Ho : has_open_checkout st e = false).
    { apply has_open_checkout_false. intros i c Hi Hce _.
      destruct (Hrc i c Hi) as [[E HE] _]. congruence. }
    unfold recompute. by rewrite Hp, Ho. }
  split; [|split].
  - intros e E' HE' Hoos. rewrite (recompute_ext st st') by done.
    destruct (Hrows e E' HE') as [(E & HE & Hst)|[HE Hst]].
    + rewrite Hst in Hoos |- *. by eapply Hrec.
    + rewrite Hst. symmetry. by apply Hnew.
  - unfold at_most_one_open. rewrite Hc. exact Hone.
  - intros e E' HE' Havail. rewrite (has_open_checkout_ext st st') by done.
    destruct (Hrows e E' HE') as [(E & HE & Hst)|[HE Hst]].
    + eapply Hav; [exact HE | congruence].
    + by apply Hnew.
Qed.

(** X10: [handleAddEquipment] and [handleUpdateMaintenance] keep the status
    rule and the open-checkout invariants: in a store whose references
    hold, a row added is available and has neither checkout nor
    deficiency, and a maintenance update leaves every status as it is. *)
Theorem equipment_handlers_keep_lifecycle st :
  references_hold st →
  status_recomputed_unless_oos st → at_most_one_open st →
  available_not_open st →
  (∀ auth form equipment id now,
     let st' := (handleAddEquipment auth form equipment id now st).2 in
     status_recomputed_unless_oos st' ∧ at_most_one_open st'
     ∧ available_not_open st')
  ∧ (∀ auth equipmentId now,
       let st' := (handleUpdateMaintenance auth equipmentId now st).2 in
       status_recomputed_unless_oos st' ∧ at_most_one_open st'
       ∧ available_not_open st').
Proof.
  intros Href Hrec Hone Hav. split.
  - intros auth form equipment id now. cbv zeta. unfold handleAddEquipment.
    case_bool_decide; [done|]. cbn [snd].
    match goal with
    | |- context [insert_equipment auth id ?row st] =>
        destruct (insert_equipment_cases auth id row st)
          as [->|(_ & _ & Hid & ->)]; [done|]
    end.
    cbn [snd]. apply (equipment_write_lifecycle st); try done.
    intros e E' HE'. simpl in HE'.
    apply lookup_insert_Some in HE' as [[<- <-]|[_ HE']]; [by right|].
    left. by exists E'.
  - intros auth equipmentId now. cbv zeta. unfold handleUpdateMaintenance.
    cbn [snd].
    destruct (update_equipment_maintenance_cases auth equipmentId
                (date_of now) now st) as [->|(OLD & HOLD & _ & ->)]; [done|].
    cbn [snd]. apply (equipment_write_lifecycle st); try done.
    intros e E' HE'. simpl in HE'. left.
    apply lookup_insert_Some in HE' as [[<- <-]|[_ HE']]; [by exists OLD|].
    by exists E'.
Qed.

Lemma equipment_handlers_keep_lifecycle_witness :
  (∀ auth form equipment id now,
     let st' := (handleAddEquipment auth form equipment id now
                   mower_out_broken).2 in
     status_recomputed_unless_oos st' ∧ at_most_one_open st'
     ∧ available_not_open st')
  ∧ (∀ auth equipmentId now,
       let st' := (handleUpdateMaintenance auth equipmentId now
                     mower_out_broken).2 in
       status_recomputed_unless_oos st' ∧ at_most_one_open st'
       ∧ available_not_open st').
Proof.
  apply (equipment_handlers_keep_lifecycle mower_out_broken).
  - apply (bool_decide_unpack _). vm_compute. exact I.
  - apply (bool_decide_unpack _). vm_compute. exact I.
  - apply (bool_decide_unpack _). vm_compute. exact I.
  - apply (bool_decide_unpack _). vm_compute. exact I.
Defined.

(** ** Maintenance dates *)

Lemma day_bounds now :
  date_of now * MS_PER_DAY ≤ now < (date_of now + 1) * MS_PER_DAY.
Proof.
  unfold date_of.
  pose proof (Z.mul_div_le now MS_PER_DAY MS_PER_DAY_pos).
  pose proof (Z.mul_succ_div_gt now MS_PER_DAY MS_PER_DAY_pos).
  lia.
Qed.

Lemma interval_at_least_90 c i : MAINTENANCE_INTERVALS c = Some i → 90 ≤ i.
Proof. destruct c; intros [= <-]; lia. Qed.

(** Whole days from [now] to the midnight of day [n], not before [now]. *)
Lemma differenceInDays_ahead n now :
  now ≤ n * MS_PER_DAY →
  differenceInDays (Some (n * MS_PER_DAY)) (Some now)
  = Some (if bool_decide (date_of now * MS_PER_DAY = now)
          then n - date_of now else n - date_of now - 1).
Proof.
  intros Hle. pose proof (day_bounds now) as [Hlo Hhi].
  unfold differenceInDays. f_equal.
  rewrite Z.quot_div_nonneg by (pose proof MS_PER_DAY_pos; lia).
  case_bool_decide as Hmid.
  - replace (n * MS_PER_DAY - now) with ((n - date_of now) * MS_PER_DAY) by lia.
    apply Z.div_mul. discriminate.
  - symmetry. apply Z.div_unique_pos
      with (r := (date_of now + 1) * MS_PER_DAY - now);
      unfold MS_PER_DAY in *; lia.
Qed.

Lemma due_list_items equipment now r :
  In r (getMaintenanceDue equipment now) →
  In (Due.item r) equipment
  ∧ due_filter now (startOfDay now) (Due.item r) = true.
Proof.
  unfold getMaintenanceDue. intros Hr.
  apply (Permutation_in _ (js_sort_perm due_compare _)) in Hr.
  apply in_map_iff in Hr as (eq & <- & Hin).
  rewrite due_map_item. by apply filter_In in Hin.
Qed.

(** X11: After [handleUpdateMaintenance] in the session of a chair or admin
    the item carries today's date as its last maintenance and is the same
    item in the same status; at that time it is not due: no maintenance
    list shows it, and the schedule export, which lists it if its category
    has an interval, gives it the status OK. *)
Theorem handleUpdateMaintenance_not_due st auth equipmentId now E :
  is_admin_or_chair st auth = true →
  eq_equipment st !! equipmentId = Some E →
  ∃ E',
    eq_equipment (handleUpdateMaintenance auth equipmentId now st).2
      !! equipmentId = Some E'
    ∧ Equipment.last_maintenance E' = Some (date_of now)
    ∧ Equipment.status E' = Equipment.status E
    ∧ same_equipment E E'
    ∧ (∀ equipment r, In r (getMaintenanceDue equipment now) →
                      Due.item r ≠ (equipmentId, E'))
    ∧ (is_Some (MAINTENANCE_INTERVALS (Equipment.category E')) →
       maintenance_status now (equipmentId, E') = OK).
Proof.
  intros Hauth HE. exists (set_last_maintenance (date_of now) now E).
  split.
  { unfold handleUpdateMaintenance, update_equipment_maintenance,
      policy_equipment_update. rewrite HE, Hauth. simpl.
    by rewrite lookup_insert_eq. }
  split; [done|]. split; [done|]. split; [by repeat split|].
  pose proof (day_bounds now) as [Hlo Hhi].
  split.
  - intros equipment r Hr Hitem.
    apply due_list_items in Hr as [_ Hdue]. rewrite Hitem in Hdue.
    rewrite due_filter_spec in Hdue. apply andb_true_iff in Hdue as [Hdue _].
    unfold due_spec in Hdue. simpl in Hdue.
    destruct (MAINTENANCE_INTERVALS (Equipment.category E)) as [i|] eqn:Hi;
      [|done].
    apply interval_at_least_90 in Hi. apply Z.leb_le in Hdue. lia.
  - intros _. unfold maintenance_status. simpl.
    destruct (MAINTENANCE_INTERVALS (Equipment.category E)) as [i|] eqn:Hi;
      [|done].
    apply interval_at_least_90 in Hi. cbv zeta.
    destruct (readable (date_of now)) eqn:Hread;
      [|by rewrite parseISO_unreadable].
    rewrite addDays_parseISO by done. unfold isPast, at_most.
    assert (Hahead : now ≤ (date_of now + i) * MS_PER_DAY)
      by (unfold MS_PER_DAY in *; lia).
    replace ((date_of now + i) * MS_PER_DAY <? now) with false
      by (symmetry; apply Z.ltb_ge; lia).
    rewrite differenceInDays_ahead by done.
    replace (_ <=? 14) with false; [done|].
    symmetry. apply Z.leb_gt. case_bool_decide; lia.
Qed.

Lemma handleUpdateMaintenance_not_due_witness :
  ∃ E',
    eq_equipment (handleUpdateMaintenance (Some 1%nat) 1 day0_noon club_store).2
      !! 1%nat = Some E'
    ∧ Equipment.last_maintenance E' = Some (date_of day0_noon)
    ∧ Equipment.status E' = Equipment.status EQ001
    ∧ same_equipment EQ001 E'
    ∧ (∀ equipment r, In r (getMaintenanceDue equipment day0_noon) →
                      Due.item r ≠ (1%nat, E'))
    ∧ (is_Some (MAINTENANCE_INTERVALS (Equipment.category E')) →
       maintenance_status day0_noon (1%nat, E') = OK).
Proof.
  apply (handleUpdateMaintenance_not_due club_store (Some 1%nat) 1 day0_noon
           EQ001); reflexivity.
Defined.

Lemma maintenance_status_not_OK now r i :
  MAINTENANCE_INTERVALS (Equipment.category r.2) = Some i →
  maintenance_status now r ≠ OK ↔
  due_filter now (startOfDay now) r = true
  ∨ (next_due_day r = Some (date_of now + 15) ∧ startOfDay now ≠ now).
Proof.
  intros Hi. rewrite due_filter_spec.
  unfold maintenance_status, due_spec, next_due_day, readable_maintenance,
    startOfDay.
  rewrite Hi.
  destruct (Equipment.last_maintenance r.2) as [d|]; [|split; [by left|done]].
  cbv zeta. destruct (readable d) eqn:Hread.
  2:{ rewrite parseISO_unreadable by done. simpl. rewrite andb_false_r.
      split; [done | by intros [?|[? _]]]. }
  rewrite addDays_parseISO by done. unfold isPast, at_most.
  pose proof (day_bounds now) as [Hlo Hhi].
  rewrite andb_true_r, Z.leb_le.
  destruct ((d + i) * MS_PER_DAY <? now) eqn:Hpast.
  - apply Z.ltb_lt in Hpast. apply midnight_past_le in Hpast.
    split; [intros _; left; lia | done].
  - apply Z.ltb_ge in Hpast. rewrite differenceInDays_ahead by done.
    destruct (_ <=? 14) eqn:Hsoon.
    + apply Z.leb_le in Hsoon. split; [intros _|done].
      case_bool_decide as Hmid; [left; lia|].
      destruct (decide (d + i ≤ date_of now + 14)); [by left|].
      right. split; [f_equal; lia | done].
    + apply Z.leb_gt in Hsoon. split; [done|].
      intros [Hdue|[[= Hnext] Hmid]]; exfalso.
      * case_bool_decide; lia.
      * rewrite bool_decide_eq_false_2 in Hsoon by done. lia.
Qed.

(** X12: The schedule export and the maintenance list read the same dates
    differently: the export counts the days to the next due date from the
    current instant, the list from today's midnight.  For an item of a
    category with an interval, the export's status is other than OK
    exactly when the list's filter keeps the item, or when the item is due
    in 15 days and it is past midnight. *)
Theorem maintenance_status_vs_due now r i :
  MAINTENANCE_INTERVALS (Equipment.category r.2) = Some i →
  maintenance_status now r ≠ OK ↔
  due_filter now (startOfDay now) r = true
  ∨ (next_due_day r = Some (date_of now + 15) ∧ startOfDay now ≠ now).
Proof. apply maintenance_status_not_OK. Qed.

Lemma maintenance_status_vs_due_witness :
  let drill := (3%nat, Equipment.mk (text "EQ003") (text "Drill") Tools None
                         available (Some 19835) None 0) in
  maintenance_status day0_noon drill ≠ OK ↔
  due_filter day0_noon (startOfDay day0_noon) drill = true
  ∨ (next_due_day drill = Some (date_of day0_noon + 15)
     ∧ startOfDay day0_noon ≠ day0_noon).
Proof.
  intros drill. apply (maintenance_status_vs_due day0_noon drill 180).
  reflexivity.
Defined.

(** A drill maintained 165 days ago is due in 15 days: at noon the
    export calls it DUE SOON, and the maintenance list does not show it. *)
Example due_in_15_days :
  let drill := (3%nat, Equipment.mk (text "EQ003") (text "Drill") Tools None
                         available (Some 19835) None 0) in
  maintenance_status day0_noon drill = DUE_SOON
  ∧ getMaintenanceDue [drill] day0_noon = [].
Proof. split; vm_compute; reflexivity. Qed.

(** ** Overdue checkouts and the history table *)

Lemma isOverdue_filter now c : isOverdue now c = overdue_filter now c.
Proof.
  unfold isOverdue, overdue_filter.
  destruct (Checkout.return_date c.2); [done|].
  destruct (Checkout.expected_return c.2) as [d|]; [|done].
  cbv zeta. destruct (readable d) eqn:Hd.
  - by rewrite startOfDay_parseISO, parseISO_readable.
  - by rewrite parseISO_unreadable.
Qed.

(** X13: The overdue list holds exactly the checkouts of the client's list
    that the history table marks as overdue, each with the days from its
    expected-return day to today, a number that is never negative. *)
Theorem getOverdueCheckouts_members checkouts now r :
  In r (getOverdueCheckouts checkouts now) ↔
  In (Overdue.checkout r) checkouts
  ∧ isOverdue now (Overdue.checkout r) = true
  ∧ ∃ d, Checkout.expected_return (Overdue.checkout r).2 = Some d
         ∧ Overdue.daysOverdue r = date_of now - d
         ∧ 0 ≤ Overdue.daysOverdue r.
Proof.
  rewrite isOverdue_filter.
  assert (Hdays : ∀ c d, Checkout.expected_return c.2 = Some d →
            readable d = true →
            overdue_map (startOfDay now) c = Overdue.mk c (date_of now - d)).
  { intros c d Hd Hread. unfold overdue_map. rewrite Hd. f_equal.
    rewrite parseISO_readable by done. unfold startOfDay.
    by rewrite differenceInDays_midnights. }
  unfold getOverdueCheckouts. cbv zeta. split.
  - intros Hr. apply (Permutation_in _ (js_sort_perm overdue_compare _)) in Hr.
    apply in_map_iff in Hr as (c & <- & Hin).
    apply filter_In in Hin as [Hin Hf].
    pose proof Hf as Hf'.
    apply overdue_filter_true in Hf' as (_ & d & Hd & Hread & Hlt).
    rewrite (Hdays c d Hd Hread). simpl. split; [done|]. split; [done|].
    exists d. split; [done|]. split; [done|].
    apply midnight_past_le in Hlt. lia.
  - intros (Hin & Hf & d & Hd & Hdiff & _).
    apply (Permutation_in _ (Permutation_sym (js_sort_perm overdue_compare _))).
    apply in_map_iff. exists (Overdue.checkout r). split.
    + pose proof Hf as Hf'.
      apply overdue_filter_true in Hf' as (_ & d' & Hd' & Hread & _).
      assert (d' = d) as -> by congruence.
      rewrite (Hdays _ d Hd Hread). destruct r as [c n]. simpl in *. by subst.
    + by apply filter_In.
Qed.

(** ** A checkout and its return *)

Lemma find_active_checkout_is_Some eid cl j c :
  In (j, c) cl → Checkout.equipment_id c = eid → is_open c →
  is_Some (find_active_checkout eid cl).
Proof.
  intros Hin He Ho. unfold find_active_checkout.
  destruct (find _ cl) as [x|] eqn:Hf; [eauto|].
  eapply find_none in Hf; [|exact Hin]. simpl in Hf.
  by rewrite !bool_decide_eq_true_2 in Hf.
Qed.

(** X14: A member signed in as themselves checks out equipment that is
    available and has no open checkout, and then returns it in good
    condition from the list fetched after the checkout: in between the
    equipment is checked-out, afterwards it is available again and has no
    open checkout, the checkout is kept as a closed row carrying the
    return time, and no deficiency and no other equipment row is
    touched. *)
Theorem checkout_then_return st user eid E E1 form rform id id' now now' :
  eq_equipment st !! eid = Some E →
  Equipment.status E = available →
  is_Some (users st !! user) →
  eq_checkouts st !! id = None →
  has_open_checkout st eid = false →
  ReturnForm.condition rform = good →
  let st1 := (handleCheckout (Some user) user (Some (eid, E)) form id now st).2 in
  let st2 := (handleReturn (Some user) user (Some (eid, E1))
                (map_to_list (eq_checkouts st1)) rform id' now' st1).2 in
  status_of st1 eid = Some checked_out
  ∧ status_of st2 eid = Some available
  ∧ has_open_checkout st2 eid = false
  ∧ eq_checkouts st2
    = <[id := Checkout.set_return now' good
                (new_checkout eid user (CheckoutForm.expectedReturn form)
                   (CheckoutForm.useType form) (CheckoutForm.purpose form) now)]>
        (eq_checkouts st)
  ∧ eq_deficiencies st2 = eq_deficiencies st
  ∧ ∀ e, e ≠ eid → eq_equipment st2 !! e = eq_equipment st !! e.
Proof.
  intros HE Hav Hu Hid Hopen Hgood.
  set (row := new_checkout eid user (CheckoutForm.expectedReturn form)
                (CheckoutForm.useType form) (CheckoutForm.purpose form) now).
  assert (Hst1 : (handleCheckout (Some user) user (Some (eid, E)) form id now st).2
                 = update_status eid checked_out now
                     (with_checkouts (<[id := row]> (eq_checkouts st)) st)).
  { unfold handleCheckout. rewrite bool_decide_eq_false_2 by (by intros ?).
    fold row.
    assert (Hins : insert_checkout (Some user) id row now st
                   = (db_ok, update_status eid checked_out now
                        (with_checkouts (<[id := row]> (eq_checkouts st)) st))).
    { unfold insert_checkout, policy_checkouts_insert, fk_equipment, fk_user.
      simpl. rewrite HE.
      rewrite !bool_decide_eq_true_2; [done|done|done|eauto|done]. }
    by rewrite Hins. }
  rewrite Hst1. clear Hst1.
  set (st1 := update_status eid checked_out now
                (with_checkouts (<[id := row]> (eq_checkouts st)) st)).
  cbv zeta.
  assert (Hck1 : eq_checkouts st1 = <[id := row]> (eq_checkouts st)) by done.
  assert (Hfind : ∃ c, find_active_checkout eid (map_to_list (eq_checkouts st1))
                       = Some (id, c)).
  { destruct (find_active_checkout_is_Some eid (map_to_list (eq_checkouts st1))
                id row) as [[j c] Hf]; [|done|done|].
    - apply list_elem_of_In, elem_of_map_to_list.
      by rewrite Hck1, lookup_insert_eq.
    - exists c. pose proof Hf as Hf'.
      apply find_active_checkout_Some in Hf' as (Hin & He & Ho).
      apply elem_of_map_to_list in Hin. rewrite Hck1 in Hin.
      apply lookup_insert_Some in Hin as [[<- _]|[_ Hin]]; [done|].
      exfalso. rewrite has_open_checkout_false in Hopen. by eapply Hopen. }
  destruct Hfind as [c Hfind].
  set (NEW := Checkout.set_return now' good row).
  assert (Hst2 : (handleReturn (Some user) user (Some (eid, E1))
                    (map_to_list (eq_checkouts st1)) rform id' now' st1).2
                 = update_status eid available now'
                     (with_checkouts (<[id := NEW]> (eq_checkouts st1)) st1)).
  { unfold handleReturn. rewrite Hfind, Hgood. simpl bool_decide. cbn [andb].
    cbn [snd]. unfold update_checkout_return.
    rewrite Hck1, lookup_insert_eq. unfold policy_checkouts_update.
    rewrite bool_decide_eq_true_2 by done. cbn [orb snd].
    unfold update_equipment_status_on_return. simpl. done. }
  rewrite Hst2. clear Hst2.
  split; [apply status_of_update_status; simpl; eauto|].
  split.
  { apply status_of_update_status. unfold st1. simpl.
    rewrite lookup_alter_eq, HE. simpl. eauto. }
  split.
  { apply has_open_checkout_false. intros j c' Hj He Ho. simpl in Hj.
    rewrite ?Hck1 in Hj.
    apply lookup_insert_Some in Hj as [[<- <-]|[Hne Hj]]; [discriminate Ho|].
    apply lookup_insert_Some in Hj as [[? _]|[_ Hj]]; [done|].
    rewrite has_open_checkout_false in Hopen. by eapply Hopen. }
  split; [simpl; rewrite ?Hck1; apply insert_insert_eq|].
  split; [done|].
  intros e Hne. rewrite update_status_lookup. rewrite decide_False by done.
  simpl. by rewrite lookup_alter_ne.
Qed.

Lemma checkout_then_return_witness :
  let st1 := (handleCheckout (Some 42%nat) 42 (Some (1%nat, EQ001))
                (CheckoutForm.mk club (text "mowing") None) 100 day0_noon
                club_store).2 in
  let st2 := (handleReturn (Some 42%nat) 42 (Some (1%nat, EQ001))
                (map_to_list (eq_checkouts st1))
                (ReturnForm.mk good [] minor) 200 day1_noon st1).2 in
  status_of st1 1 = Some checked_out
  ∧ status_of st2 1 = Some available
  ∧ has_open_checkout st2 1 = false
  ∧ eq_checkouts st2
    = <[100%nat := Checkout.set_return day1_noon good
                (new_checkout 1 42 None club (text "mowing") day0_noon)]>
        (eq_checkouts club_store)
  ∧ eq_deficiencies st2 = eq_deficiencies club_store
  ∧ ∀ e, e ≠ 1%nat → eq_equipment st2 !! e = eq_equipment club_store !! e.
Proof.
  apply (checkout_then_return club_store 42 1 EQ001 EQ001
           (CheckoutForm.mk club (text "mowing") None)
           (ReturnForm.mk good [] minor) 100 200 day0_noon day1_noon).
  - reflexivity.
  - reflexivity.
  - vm_compute. eauto.
  - reflexivity.
  - vm_compute. reflexivity.
  - reflexivity.
Defined.

(** ** A return that reports a deficiency *)

(** X15: A member returns their own open checkout, found in a current list,
    with the condition deficiency.  The checkout is closed with that
    condition.  Without a description no deficiency is recorded, the
    equipment is available and the return is announced as successful.
    With a description the deficiency is recorded as pending against the
    equipment and the checkout, a warning is shown, and the equipment
    ends as needs-repair if the severity is major, as available if it is
    minor. *)
Theorem handleReturn_deficiency st user eid E cl rform id now cid c :
  find_active_checkout eid cl = Some (cid, c) →
  eq_checkouts st !! cid = Some c →
  Checkout.user_id c = user →
  is_Some (users st !! user) →
  is_Some (eq_equipment st !! eid) →
  eq_deficiencies st !! id = None →
  ReturnForm.condition rform = deficiency →
  let r := handleReturn (Some user) user (Some (eid, E)) cl rform id now st in
  eq_checkouts r.2 = <[cid := Checkout.set_return now deficiency c]>
                       (eq_checkouts st)
  ∧ if bool_decide (ReturnForm.deficiencyDesc rform = [])
    then r.1 = Notified Notification.success
         ∧ eq_deficiencies r.2 = eq_deficiencies st
         ∧ status_of r.2 eid = Some available
    else r.1 = Notified Notification.warning
         ∧ eq_deficiencies r.2
           = <[id := new_deficiency eid (Some cid) user
                       (ReturnForm.deficiencyDesc rform)
                       (ReturnForm.severity rform) now]> (eq_deficiencies st)
         ∧ status_of r.2 eid
           = Some (if bool_decide (ReturnForm.severity rform = major)
                   then needs_repair else available).
Proof.
  intros Hfind Hc Huser Hu He Hid Hcond.
  pose proof Hfind as Hfind'.
  apply find_active_checkout_Some in Hfind' as (_ & Hce & Ho).
  set (st1 := update_status eid available now
                (with_checkouts
                   (<[cid := Checkout.set_return now deficiency c]>
                      (eq_checkouts st)) st)).
  assert (Hupd : update_checkout_return (Some user) cid now deficiency now st
                 = (db_ok, st1)).
  { unfold update_checkout_return. rewrite Hc. unfold policy_checkouts_update.
    rewrite bool_decide_eq_true_2 by congruence. cbn [orb].
    unfold update_equipment_status_on_return. simpl.
    rewrite bool_decide_eq_true_2 by done. by rewrite Hce. }
  assert (He1 : is_Some (eq_equipment st1 !! eid)).
  { unfold st1. simpl. rewrite lookup_alter_eq. destruct He as [E0 ->].
    simpl. eauto. }
  set (row := new_deficiency eid (Some cid) user
                (ReturnForm.deficiencyDesc rform) (ReturnForm.severity rform)
                now).
  assert (Hret : handleReturn (Some user) user (Some (eid, E)) cl rform id now st
                 = if bool_decide (ReturnForm.deficiencyDesc rform = [])
                   then (Notified Notification.success, st1)
                   else (Notified Notification.warning,
                         (insert_deficiency (Some user) id row now st1).2)).
  { unfold handleReturn. rewrite Hfind, Hcond.
    rewrite (returned_condition deficiency), Hupd. cbn [snd].
    rewrite (bool_decide_eq_true_2 (deficiency = deficiency)) by done.
    cbn [andb]. by case_bool_decide. }
  cbv zeta. rewrite Hret. clear Hret.
  case_bool_decide as Hdesc; cbn [fst snd].
  - split; [done|]. split; [done|]. split; [done|].
    by apply status_of_update_status.
  - assert (Hins : insert_deficiency (Some user) id row now st1
                   = (db_ok,
                      (if bool_decide (ReturnForm.severity rform = major)
                       then update_status eid needs_repair now
                       else λ s, s)
                        (with_deficiencies (<[id := row]> (eq_deficiencies st))
                           st1))).
    { unfold insert_deficiency, policy_deficiencies_insert, fk_equipment,
        fk_checkout_opt, fk_user. simpl Deficiency.reported_by.
      simpl Deficiency.equipment_id. simpl Deficiency.checkout_id.
      rewrite (bool_decide_eq_true_2 (Some user = Some user)) by done.
      rewrite (bool_decide_eq_true_2 _ He1).
      rewrite (bool_decide_eq_true_2 (is_Some (eq_checkouts st1 !! cid)))
        by (unfold st1; simpl; rewrite lookup_insert_eq; eauto).
      rewrite (bool_decide_eq_true_2 (is_Some (users st1 !! user))) by done.
      rewrite (bool_decide_eq_true_2 (eq_deficiencies st1 !! id = None))
        by done.
      cbn [andb]. unfold update_equipment_on_deficiency. simpl.
      by case_bool_decide. }
    rewrite Hins. cbn [snd].
    case_bool_decide as Hsev.
    + split; [done|]. split; [done|]. split; [done|].
      by apply status_of_update_status.
    + split; [done|]. split; [done|]. split; [done|].
      change (status_of st1 eid = Some available).
      unfold st1. apply status_of_update_status. done.
Qed.

Lemma handleReturn_deficiency_witness :
  let r := handleReturn (Some 42%nat) 42 (Some (1%nat, EQ001))
             (map_to_list (eq_checkouts mower_out))
             (ReturnForm.mk deficiency (text "blade loose") major) 200
             day1_noon mower_out in
  eq_checkouts r.2
  = <[100%nat := Checkout.set_return day1_noon deficiency
                   (new_checkout 1 42 None club (text "mowing") day0_noon)]>
      (eq_checkouts mower_out)
  ∧ r.1 = Notified Notification.warning
  ∧ eq_deficiencies r.2
    = <[200%nat := new_deficiency 1 (Some 100%nat) 42 (text "blade loose")
                     major day1_noon]> (eq_deficiencies mower_out)
  ∧ status_of r.2 1 = Some needs_repair.
Proof.
  apply (handleReturn_deficiency mower_out 42 1 EQ001
           (map_to_list (eq_checkouts mower_out))
           (ReturnForm.mk deficiency (text "blade loose") major) 200 day1_noon
           100 (new_checkout 1 42 None club (text "mowing") day0_noon)).
  - vm_compute. reflexivity.
  - vm_compute. reflexivity.
  - reflexivity.
  - vm_compute. eauto.
  - vm_compute. eauto.
  - reflexivity.
  - reflexivity.
Defined.

(** ** Logging in *)

(** What [parseInt] makes of some entries of the number field. *)
Example parseInt_entries :
  parseInt (text "42") = Some 42
  ∧ parseInt (text "1.5") = Some 1
  ∧ parseInt (text "1e3") = Some 1
  ∧ parseInt (text "-7") = Some (-7)
  ∧ parseInt (text " 0x1F") = Some 31
  ∧ parseInt (text ".5") = None
  ∧ parseInt (text "9007199254740993") = Some 9007199254740992.
Proof. repeat split; vm_compute; reflexivity. Qed.

Lemma radix_digit_decimal ch :
  radix_digit 10 ch = (Z.of_N <$> digit_of ch).
Proof. destruct ch as [[] [] [] [] [] [] [] []]; reflexivity. Qed.

Lemma digit_not_white_space ch :
  is_Some (digit_of ch) → is_white_space ch = false.
Proof.
  destruct ch as [[] [] [] [] [] [] [] []]; intros [d Hd];
    try reflexivity; vm_compute in Hd; discriminate.
Qed.

Lemma read_sign_digit ch s :
  is_Some (digit_of ch) → read_sign (ch :: s) = (1, ch :: s).
Proof.
  destruct ch as [[] [] [] [] [] [] [] []]; intros [d Hd];
    try reflexivity; vm_compute in Hd; discriminate.
Qed.

Lemma digit_not_x x :
  is_Some (digit_of x) → Ascii.eqb x "x" || Ascii.eqb x "X" = false.
Proof.
  destruct x as [[] [] [] [] [] [] [] []]; intros [d Hd];
    try reflexivity; vm_compute in Hd; discriminate.
Qed.

Lemma read_radix_digits s :
  Forall is_digit s → read_radix s = (10, s).
Proof.
  intros Hs. unfold read_radix.
  destruct s as [|ch [|x s']]; [done| |].
  - by destruct ch as [[] [] [] [] [] [] [] []].
  - apply Forall_cons in Hs as [_ Hs]. apply Forall_cons in Hs as [Hx _].
    rewrite (digit_not_x x Hx).
    by destruct ch as [[] [] [] [] [] [] [] []].
Qed.

Lemma leading_digits_decimal s : ∀ a v,
  digits_value a s = Some v →
  leading_digits 10 (Some (Z.of_N a)) s = Some (Z.of_N v).
Proof.
  induction s as [|ch s IH]; intros a v Hv; simpl in *.
  - by injection Hv as <-.
  - rewrite radix_digit_decimal.
    destruct (digit_of ch) as [d|]; [|done]. simpl.
    replace (10 * Z.of_N a + Z.of_N d) with (Z.of_N (10 * a + d)) by lia.
    by apply IH.
Qed.

Lemma digits_value_digits s : ∀ a v,
  digits_value a s = Some v → Forall is_digit s.
Proof.
  induction s as [|ch s IH]; intros a v Hv; [constructor|]. simpl in Hv.
  destruct (digit_of ch) as [d|] eqn:Hd; [|done].
  constructor; [by exists d | by eapply IH].
Qed.

(** A member number typed as plain digits, below 2^53, is looked up as
    it is. *)
Lemma parseInt_digits s v :
  s ≠ [] → digits_value 0 s = Some v → Z.of_N v < 2 ^ 53 →
  integer_filter (parseInt s) = Some (Z.of_N v).
Proof.
  intros Hne Hv Hsmall. pose proof (digits_value_digits s 0 v Hv) as Hds.
  destruct s as [|ch s]; [done|].
  pose proof Hds as Hds'. apply Forall_cons in Hds' as [Hch _].
  unfold parseInt. simpl trim_start. rewrite (digit_not_white_space ch Hch).
  rewrite (read_sign_digit ch s Hch), (read_radix_digits _ Hds).
  simpl in Hv |- *. rewrite radix_digit_decimal.
  destruct (digit_of ch) as [d|]; [|done]. simpl.
  replace (10 * 0 + Z.of_N d) with (Z.of_N (10 * 0 + d)) by lia.
  rewrite (leading_digits_decimal s _ v Hv). simpl.
  assert (Hnum : to_Number (1 * Z.of_N v) = Z.of_N v).
  { unfold to_Number. rewrite Z.mul_1_l.
    replace (Z.abs (Z.of_N v) <? 2 ^ 53) with true; [done|].
    symmetry. apply Z.ltb_lt. lia. }
  rewrite Hnum.
  replace (Z.abs (Z.of_N v) <? 10 ^ 21) with true; [done|].
  symmetry. apply Z.ltb_lt. lia.
Qed.

(** X16: [handleMemberLogin] logs in a row of [users] exactly when the
    number that [parseInt] reads from the text entered is an integer the
    filter accepts, and that row is the only one carrying it.  For a text
    of plain decimal digits below 2^53 the number is the one written; in
    general it is the integer at the front of the text. *)
Theorem handleMemberLogin_single memberNumber st :
  (∀ u, handleMemberLogin memberNumber st = Some u ↔
        ∃ n, integer_filter (parseInt memberNumber) = Some n
             ∧ users st !! u.1 = Some u.2
             ∧ User.employee_number u.2 = n
             ∧ ∀ j usr, users st !! j = Some usr →
                        User.employee_number usr = n → j = u.1)
  ∧ (∀ v, memberNumber ≠ [] → digits_value 0 memberNumber = Some v →
          Z.of_N v < 2 ^ 53 →
          integer_filter (parseInt memberNumber) = Some (Z.of_N v)).
Proof.
  split; [|intros v; apply parseInt_digits].
  intros u. unfold handleMemberLogin.
  destruct (integer_filter (parseInt memberNumber)) as [n|];
    [|split; [done | by intros (n & ? & _)]].
  set (p := λ x : nat * User.t,
              bool_decide (User.employee_number x.2 = n)).
  assert (Hin : ∀ x, In x (List.filter p (map_to_list (users st))) ↔
                     users st !! x.1 = Some x.2
                     ∧ User.employee_number x.2 = n).
  { intros [j usr]. rewrite filter_In. unfold p.
    rewrite bool_decide_eq_true, <- list_elem_of_In.
    by rewrite (elem_of_map_to_list (users st) j usr). }
  assert (Hnd : List.NoDup (List.filter p (map_to_list (users st)))).
  { apply List.NoDup_filter. apply NoDup_ListNoDup, NoDup_map_to_list. }
  destruct (List.filter p (map_to_list (users st))) as [|x [|y l]] eqn:Hl.
  - split; [done|]. intros (n' & [= <-] & Hu & Hn & _).
    destruct (proj2 (Hin u) (conj Hu Hn)).
  - split.
    + intros [= <-]. destruct (proj1 (Hin x) (or_introl eq_refl)) as [Hx Hn].
      exists n. split; [done|]. split; [done|]. split; [done|].
      intros j usr Hj Hjn.
      destruct (proj2 (Hin (j, usr)) (conj Hj Hjn)) as [Heq|[]].
      by rewrite Heq.
    + intros (n' & [= <-] & Hu & Hn & _).
      destruct (proj2 (Hin u) (conj Hu Hn)) as [Heq|[]]. by rewrite Heq.
  - split; [done|]. intros (n' & [= <-] & Hu & Hn & Honly). exfalso.
    destruct (proj1 (Hin x) (or_introl eq_refl)) as [Hx Hxn].
    destruct (proj1 (Hin y) (or_intror (or_introl eq_refl))) as [Hy Hyn].
    pose proof (Honly _ _ Hx Hxn) as Hx1. pose proof (Honly _ _ Hy Hyn) as Hy1.
    assert (x = y) as Hxy.
    { destruct x as [j1 u1], y as [j2 u2]. simpl in *. subst j1 j2.
      f_equal. congruence. }
    subst y. apply List.NoDup_cons_iff in Hnd as [Hnot _].
    apply Hnot. by left.
Qed.

(** An instance: the entries 42 and 1.5 on the club's users. *)
Lemma handleMemberLogin_single_witness :
  integer_filter (parseInt (text "42")) = Some 42
  ∧ handleMemberLogin (text "42") club_store = Some (42%nat, a_volunteer)
  ∧ handleMemberLogin (text "1.5") club_store = Some (1%nat, the_chair).
Proof.
  split; [|split].
  - apply (proj2 (handleMemberLogin_single (text "42") club_store) 42%N).
    + discriminate.
    + reflexivity.
    + reflexivity.
  - apply (proj1 (handleMemberLogin_single (text "42") club_store)
             (42%nat, a_volunteer)).
    exists 42. split; [vm_compute; reflexivity|]. split; [reflexivity|].
    split; [reflexivity|].
    refine (bool_decide_unpack
              (map_Forall (λ j usr, User.employee_number usr = 42 → j = 42%nat)
                 (users club_store)) _).
    vm_compute. exact I.
  - vm_compute. reflexivity.
Defined.

(** X17: How [handleChairLogin] ends.  Without an error the session is signed
    in as the identity of the credentials and [user] is that identity's
    profile, of a chair or admin: the gate of the interface and the
    policies of the store agree.  When the sign-in fails the session is as
    before.  When the sign-in succeeds but the profile is missing or is a
    volunteer's, an error is shown and [user] is as before, yet the
    database session stays signed in as that identity, which is no chair
    or admin for the store. *)
Theorem handleChairLogin_outcomes signInWithPassword email password st s :
  match handleChairLogin signInWithPassword email password st s with
  | (None, s') =>
      ∃ uid profile,
        signInWithPassword email password = Some uid
        ∧ users st !! uid = Some profile
        ∧ s' = Session.mk (Some uid) (Some (uid, profile))
        ∧ isAdmin profile = true
        ∧ is_admin_or_chair st (Session.auth s') = true
  | (Some Sign_in_failed, s') =>
      signInWithPassword email password = None ∧ s' = s
  | (Some Member_number_not_found, _) => False
  | (Some _, s') =>
      ∃ uid,
        signInWithPassword email password = Some uid
        ∧ Session.auth s' = Some uid
        ∧ Session.user s' = Session.user s
        ∧ is_admin_or_chair st (Some uid) = false
  end.
Proof.
  unfold handleChairLogin.
  destruct (signInWithPassword email password) as [uid|]; [|done].
  destruct (users st !! uid) as [profile|] eqn:Hp.
  - destruct (User.role profile) eqn:Hrole; simpl.
    + exists uid. repeat split. by rewrite Hp, Hrole.
    + exists uid, profile. split; [done|]. split; [done|]. split; [done|].
      split; [unfold isAdmin; by rewrite Hrole | by rewrite Hp, Hrole].
    + exists uid, profile. split; [done|]. split; [done|]. split; [done|].
      split; [unfold isAdmin; by rewrite Hrole | by rewrite Hp, Hrole].
  - exists uid. repeat split. simpl. by rewrite Hp.
Qed.

(** A volunteer who has an account and tries the chair login is turned
    away, and stays signed in. *)
Example volunteer_chair_login :
  handleChairLogin (λ _ _, Some 42%nat) (text "vol@club") (text "secret")
    club_store (Session.mk None None)
  = (Some Chairs_and_admins_only, Session.mk (Some 42%nat) None).
Proof. reflexivity. Qed.

(** The member login touches [user] only, never the database session;
    [handleLogout] clears both. *)
Lemma member_login_auth memberNumber st s :
  Session.auth (member_login memberNumber st s).2 = Session.auth s.
Proof.
  unfold member_login. by destruct (handleMemberLogin memberNumber st).
Qed.

(** ** The alert list, the export and the badge *)

(** X18: Every item of the maintenance list is a row of the schedule export,
    where its status is OVERDUE or DUE SOON, never OK. *)
Theorem maintenance_list_in_export equipment now r :
  In r (getMaintenanceDue equipment now) →
  In (Due.item r) (allWithMaintenance equipment)
  ∧ maintenance_status now (Due.item r) ≠ OK.
Proof.
  intros Hr. apply due_list_items in Hr as [Hin Hdue].
  assert (Hi : ∃ i, MAINTENANCE_INTERVALS (Equipment.category (Due.item r).2)
                    = Some i ∧ no_interval (Some i) = false).
  { unfold due_filter in Hdue.
    destruct (MAINTENANCE_INTERVALS (Equipment.category (Due.item r).2))
      as [i|] eqn:Hi; [|done].
    exists i. split; [done|]. by destruct (no_interval (Some i)). }
  destruct Hi as (i & Hi & Hno). split.
  - unfold allWithMaintenance. apply filter_In. split; [done|].
    by rewrite Hi, Hno.
  - apply (maintenance_status_not_OK now (Due.item r) i Hi). by left.
Qed.

Lemma maintenance_list_in_export_witness :
  let mower := (1%nat, EQ001) in
  let r := Due.mk mower None None true in
  In (Due.item r) (allWithMaintenance [mower])
  ∧ maintenance_status day0_noon (Due.item r) ≠ OK.
Proof.
  intros mower r.
  apply (maintenance_list_in_export [mower] day0_noon r).
  vm_compute. left. reflexivity.
Defined.

(** X19: The number on the alerts badge: the checkouts the history
    table marks as overdue, plus the items due for maintenance by the rule
    whose last maintenance is absent or a day that [parseISO] reads (a day
    of the years 0001 to 9999), plus the pending deficiencies, each row of
    the client's lists counted once. *)
Theorem alertCount_counts checkouts equipment deficiencies now :
  alertCount checkouts equipment deficiencies now
  = (List.length (List.filter (isOverdue now) checkouts)
     + List.length
         (List.filter (λ eq, due_spec now eq && readable_maintenance eq)
            equipment)
     + List.length
         (List.filter (λ d, bool_decide (Deficiency.status d.2 = pending))
            deficiencies))%nat.
Proof.
  unfold alertCount, getOverdueCheckouts, getMaintenanceDue. cbv zeta.
  rewrite (Permutation_length (js_sort_perm overdue_compare _)).
  rewrite (Permutation_length (js_sort_perm due_compare _)).
  rewrite !List.length_map.
  rewrite (filter_ext (isOverdue now) (overdue_filter now))
    by apply isOverdue_filter.
  rewrite (filter_ext (due_filter now (startOfDay now))
             (λ eq, due_spec now eq && readable_maintenance eq))
    by apply due_filter_spec.
  done.
Qed.

(** An item last maintained on a day before year 1 is not counted. *)
Example alertCount_unreadable :
  alertCount []
    [(2%nat, Equipment.mk (text "EQ002") (text "Push Mower") Grounds None
               available (Some (FIRST_DAY - 1)) None 0);
     (1%nat, EQ001)] [] day0_noon = 1%nat.
Proof. vm_compute. reflexivity. Qed.

(** The calls of the sample, one after the other. *)
Lemma club_calls_are_calls :
  rtc handler_call club_store (after_calls club_calls club_store).
Proof.
  unfold after_calls, club_calls. cbn [foldl].
  eapply rtc_r; [|apply call_handleUpdateMaintenance].
  eapply rtc_r; [|apply call_handleAddEquipment].
  eapply rtc_r; [|apply call_resolveDeficiency].
  eapply rtc_r; [|apply call_handleReturn].
  eapply rtc_r; [|apply call_handleCheckout].
  apply rtc_once, call_handleCheckout.
Qed.

Lemma invariants_along_handler_calls_witness :
  references_hold (after_calls club_calls club_store)
  ∧ codes_unique (after_calls club_calls club_store)
  ∧ history_kept club_store (after_calls club_calls club_store)
  ∧ out_of_service_only_before club_store (after_calls club_calls club_store).
Proof.
  apply (invariants_along_handler_calls club_store).
  - apply club_calls_are_calls.
  - apply (bool_decide_unpack _). vm_compute. exact I.
  - apply (bool_decide_unpack _). vm_compute. exact I.
Defined.

(** In the sample the second checkout went through on the stale row: the
    mower has two checkout rows, and ends checked-out with the second of
    them still open. *)
Example club_calls_end :
  let st := after_calls club_calls club_store in
  status_of st 1 = Some checked_out
  ∧ Checkout.return_date <$> eq_checkouts st !! 100%nat = Some (Some day1_noon)
  ∧ Checkout.return_date <$> eq_checkouts st !! 101%nat = Some None
  ∧ Equipment.equipment_code <$> eq_equipment st !! 8%nat = Some (text "EQ008").
Proof. repeat split; vm_compute; reflexivity. Qed.
